(** * Number lease and OTP delivery engine: a shallow embedding

    The repository ships the same lease engine in several variants.
    Two of them carry the state machine the specification describes:

    - [bot.py], class [StateManager]: a flat list of number dicts, a
      dict of per-user assignments and a list of OTP events
      (module [Bot] below);
    - [app.py], class [DataStore] with the dataclass [NumberEntry]:
      named lists of entries and a dict of users (module [App]).

    A third variant keeps pools that offer numbers and a list of
    assignments (module [Part000]).

    Python dicts keep insertion order, and several loops of the source
    depend on it, so a dict that is iterated is an association list
    here ([Dict]); a dict that is only read and written by key is a
    [gmap].  Objects that the source mutates in place (a number dict
    found by a scan and then [update]d) are modelled by the index of the
    object in its list and an update at that index.

    Clock readings ([datetime.now], [time.time]) are inputs of the
    operations; a timestamp is an integer number of clock ticks.
    Persistence ([save], [_save]) writes the whole state and reads
    nothing back, so it does not appear in the state transformers. *)

From Stdlib Require Import ZArith String Ascii List Bool Lia.
From stdpp Require Import base decidable option list strings gmap sorting.

Local Open Scope Z_scope.
Local Open Scope string_scope.

(** ** Python values used by both variants *)

(** Truthiness of an optional string ([None] and [""] are falsy). *)
Definition truthy_str (o : option string) : bool :=
  match o with
  | Some s => negb (String.eqb s "")
  | None => false
  end.

(** Truthiness of an optional integer ([None] and [0] are falsy). *)
Definition truthy_int (o : option Z) : bool :=
  match o with
  | Some z => negb (Z.eqb z 0)
  | None => false
  end.

(** Truthiness of an optional timestamp.  In [bot.py] a timestamp is a
    non-empty ISO string, so every present timestamp is truthy. *)
Definition truthy_stamp (o : option Z) : bool :=
  match o with
  | Some _ => true
  | None => false
  end.

(** ** Insertion-ordered dictionaries *)

Module Dict.
Section dict.
Context {K V : Type} `{EqDecision K}.

  (** [d.get(k)] *)
Fixpoint get (k : K) (d : list (K * V)) : option V :=
    match d with
    | [] => None
    | (k', v) :: d' => if decide (k = k') then Some v else get k d'
    end.

  (** [d[k] = v]: an existing key keeps its position. *)
Fixpoint set (k : K) (v : V) (d : list (K * V)) : list (K * V) :=
    match d with
    | [] => [(k, v)]
    | (k', v') :: d' =>
        if decide (k = k') then (k, v) :: d' else (k', v') :: set k v d'
    end.

  (** [d.pop(k, None)] / [del d[k]] *)
Fixpoint del (k : K) (d : list (K * V)) : list (K * V) :=
    match d with
    | [] => []
    | (k', v') :: d' =>
        if decide (k = k') then del k d' else (k', v') :: del k d'
    end.

  (** No key occurs twice (true of every Python dict). *)
Definition wf (d : list (K * V)) : Prop := NoDup (d.*1).
End dict.
End Dict.

(** ** Regular expressions of the OTP matcher

    The patterns of [extract_otp] are sequences of atoms that each
    consume at most one character: a word boundary, a digit, a literal.
    For such a pattern [re.search] tries every start position from the
    left and the match at a position is unique.  The character type and
    its classes ([\d], [\w]) are parameters, so the development covers any
    alphabet, Unicode included. *)

Module Regex.
Section regex.
Context {C : Type} `{EqDecision C}.
Variables isdigit isword : C -> bool.

Inductive atom :=
  | Boundary          (* \b *)
  | Digit             (* \d *)
  | Lit (c : C).

  (** [\w] on a neighbour that may be missing (start or end of text). *)
Definition word (o : option C) : bool :=
    match o with
    | Some c => isword c
    | None => false
    end.

  (** The match of [pat] that starts right here: [prev] is the character
      before the position and [s] the text from the position on. *)
Fixpoint match_here (pat : list atom) (prev : option C) (s : list C)
    : option (list C) :=
    match pat with
    | [] => Some []
    | Boundary :: pat' =>
        if xorb (word prev) (word (head s)) then match_here pat' prev s
        else None
    | Digit :: pat' =>
        match s with
        | c :: s' =>
            if isdigit c then cons c <$> match_here pat' (Some c) s'
            else None
        | [] => None
        end
    | Lit a :: pat' =>
        match s with
        | c :: s' =>
            if decide (c = a) then cons c <$> match_here pat' (Some c) s'
            else None
        | [] => None
        end
    end.

Fixpoint search_from (pat : list atom) (prev : option C) (s : list C)
    : option (list C) :=
    match match_here pat prev s with
    | Some m => Some m
    | None =>
        match s with
        | [] => None
        | c :: s' => search_from pat (Some c) s'
        end
    end.

  (** [re.search(pat, message)], returning [match.group(0)]. *)
Definition search (pat : list atom) (message : list C) : option (list C) :=
    search_from pat None message.

  (** [\d{n}] *)
Definition digits (n : nat) : list atom := repeat Digit n.
End regex.
End Regex.

(** ** Files holding JSON

    A file is described by what [json.load] does with it. *)

#[warnings="-register-all"]
Inductive json :=
| JNull
| JBool (b : bool)
| JNum (z : Z)
| JStr (s : string)
| JArr (l : list json)
| JObj (d : list (string * json)).

Inductive file :=
| Missing                (* the path does not exist *)
| Unparseable            (* [json.load] raises [JSONDecodeError] *)
| Holds (v : json).      (* [json.load] returns [v] *)

Inductive exn := JSONDecodeError | AttributeError.

Inductive outcome (A : Type) :=
| Return (a : A)
| Raise (e : exn).
Arguments Return {A} a.
Arguments Raise {A} e.

(** ** [bot.py]: [StateManager] *)

Module Bot.

(** One element of [StateManager.numbers].  Only the keys the lease
    engine reads or writes are kept.  [status] may be missing from a
    hand-written [numbers.json], hence the option. *)
Record Number := {
  number : string;
  status : option string;
  assigned_to : option Z;
  assigned_at : option Z;
  last_otp_at : option Z;
}.

(** One value of [StateManager.assignments]. *)
Record Assignment := {
  a_number : string;
  a_assigned_at : Z;
  last_otp : option string;
  a_last_otp_at : option Z;
  reassign_count : Z;
}.

(** One element of [StateManager.otp_history]. *)
Record OtpEvent := {
  e_number : string;
  e_otp : string;
  e_service : string;
  e_panel : string;
  e_timestamp : Z;
  e_assigned_user : option Z;
}.

Record Config := {
  release_timeout_minutes : Z;
  keep_used_locked : bool;
}.

(** The mutable part of a [StateManager].  [assignments] is keyed by
    [str(user_id)]; [str] is injective on integers and [int(uid)] is its
    inverse, so the key is the integer itself. *)
Record StateManager := {
  numbers : list Number;
  assignments : list (Z * Assignment);
  otp_history : list OtpEvent;
}.

#[global] Instance Number_eq_dec : EqDecision Number.
Proof. solve_decision. Defined.

#[global] Instance Assignment_eq_dec : EqDecision Assignment.
Proof. solve_decision. Defined.

(** [number.lstrip('+')] *)
Fixpoint lstrip_plus (s : string) : string :=
  match s with
  | String "+"%char s' => lstrip_plus s'
  | _ => s
  end.

(** The test of [_find_number]:
    [n.get("number") == number or n.get("number") == f"+{number.lstrip('+')}"] *)
Definition number_matches (num : string) (n : Number) : Prop :=
  number n = num ∨ number n = String "+"%char (lstrip_plus num).

#[global] Instance number_matches_dec num n : Decision (number_matches num n).
Proof. unfold number_matches. apply _. Defined.

(** [_find_number]: the first matching dict, with its position. *)
Definition _find_number (nums : list Number) (num : string)
  : option (nat * Number) :=
  list_find (number_matches num) nums.

(** [n.get("status", "available") == "available"] *)
Definition is_available (n : Number) : Prop :=
  default "available" (status n) = "available".

#[global] Instance is_available_dec n : Decision (is_available n).
Proof. unfold is_available. apply _. Defined.

(** [next((n for n in self.numbers if ...), None)] *)
Definition first_available (nums : list Number) : option (nat * Number) :=
  list_find is_available nums.

(** The [update] performed on the chosen number by [assign_number] and
    [change_number]. *)
Definition take (user_id now : Z) (n : Number) : Number :=
  {| number := number n;
     status := Some "assigned";
     assigned_to := Some user_id;
     assigned_at := Some now;
     last_otp_at := None |}.

(** The [update] performed on a number that stops being leased. *)
Definition drop (new_status : string) (n : Number) : Number :=
  {| number := number n;
     status := Some new_status;
     assigned_to := None;
     assigned_at := None;
     last_otp_at := last_otp_at n |}.

(** The guard of the early return of [assign_number]:
    [current] exists, its number is found, the number is ["assigned"]
    and [current] carries no OTP. *)
Definition live_lease (s : StateManager) (user_id : Z) : option Assignment :=
  match Dict.get user_id (assignments s) with
  | Some current =>
      match _find_number (numbers s) (a_number current) with
      | Some (_, num) =>
          if decide (status num = Some "assigned") then
            if truthy_str (last_otp current) then None else Some current
          else None
      | None => None
      end
  | None => None
  end.

(** [self.assignments.get(str(user_id), {}).get("reassign_count", 0)] *)
Definition old_count (s : StateManager) (user_id : Z) : Z :=
  default 0 (reassign_count <$> Dict.get user_id (assignments s)).

(** The common tail of [assign_number] and [change_number]: lease the
    first available number to [user_id], with [bump] added to the
    reassignment counter. *)
Definition lease_first (s : StateManager) (user_id now bump : Z)
  : StateManager * option Assignment :=
  match first_available (numbers s) with
  | None => (s, None)
  | Some (i, available) =>
      let entry :=
        {| a_number := number available;
           a_assigned_at := now;
           last_otp := None;
           a_last_otp_at := None;
           reassign_count := old_count s user_id + bump |} in
      ({| numbers := <[i := take user_id now available]> (numbers s);
          assignments := Dict.set user_id entry (assignments s);
          otp_history := otp_history s |},
       Some entry)
  end.

(** [StateManager.assign_number] *)
Definition assign_number (s : StateManager) (user_id now : Z)
  : StateManager * option Assignment :=
  match live_lease s user_id with
  | Some current => (s, Some current)
  | None => lease_first s user_id now 0
  end.

(** [StateManager.change_number]: the current number, when it is found,
    goes back to ["available"], or to ["used"] when the assignment
    carries an OTP; then the first available number is leased. *)
Definition change_number (s : StateManager) (user_id now : Z)
  : StateManager * option Assignment :=
  let released :=
    match Dict.get user_id (assignments s) with
    | Some current =>
        match _find_number (numbers s) (a_number current) with
        | Some (i, current_number) =>
            let new_status :=
              if truthy_str (last_otp current) then "used" else "available" in
            <[i := drop new_status current_number]> (numbers s)
        | None => numbers s
        end
    | None => numbers s
    end in
  lease_first
    {| numbers := released;
       assignments := assignments s;
       otp_history := otp_history s |}
    user_id now 1.

(** The loop shared by [release_number], [release_expired] and
    [block_number]:
    [for uid, info in list(self.assignments.items()):
       if info.get("number") == number: del self.assignments[uid]] *)
Definition forget_number (num : string) (d : list (Z * Assignment))
  : list (Z * Assignment) :=
  filter (λ kv, a_number kv.2 ≠ num) d.

(** [StateManager.release_number] *)
Definition release_number (s : StateManager) (num : string) (mark_used : bool)
  : StateManager * bool :=
  match _find_number (numbers s) num with
  | None => (s, false)
  | Some (i, target) =>
      let new_status := if mark_used then "used" else "available" in
      ({| numbers := <[i := drop new_status target]> (numbers s);
          assignments := forget_number num (assignments s);
          otp_history := otp_history s |},
       true)
  end.

(** [timedelta(minutes=m)] in clock ticks of one microsecond. *)
Definition minutes (m : Z) : Z := m * 60000000.

(** The two tests of the body of the loop of [release_expired]. *)
Definition expired (cfg : Config) (now : Z) (num : Number) : bool :=
  if decide (status num ≠ Some "assigned") then false
  else
    match assigned_at num with
    | None => false
    | Some at_ =>
        (minutes (release_timeout_minutes cfg) <=? now - at_)%Z
        && negb (truthy_stamp (last_otp_at num))
    end.

(** The loop of [release_expired] over [self.numbers], threading the
    assignments and the list [expired]. *)
Fixpoint release_expired_loop (cfg : Config) (now : Z) (nums : list Number)
    (asg : list (Z * Assignment)) (acc : list string)
  : list Number * list (Z * Assignment) * list string :=
  match nums with
  | [] => ([], asg, acc)
  | num :: rest =>
      if expired cfg now num then
        let '(rest', asg', acc') :=
          release_expired_loop cfg now rest
            (forget_number (number num) asg) (acc ++ [number num]) in
        (drop "available" num :: rest', asg', acc')
      else
        let '(rest', asg', acc') :=
          release_expired_loop cfg now rest asg acc in
        (num :: rest', asg', acc')
  end.

(** [StateManager.release_expired] *)
Definition release_expired (cfg : Config) (s : StateManager) (now : Z)
  : StateManager * list string :=
  let '(nums, asg, acc) :=
    release_expired_loop cfg now (numbers s) (assignments s) [] in
  ({| numbers := nums; assignments := asg; otp_history := otp_history s |},
   acc).

(** [StateManager.block_number] *)
Definition block_number (s : StateManager) (num : string)
  : StateManager * bool :=
  match _find_number (numbers s) num with
  | None => (s, false)
  | Some (i, target) =>
      ({| numbers := <[i := drop "blocked" target]> (numbers s);
          assignments := forget_number num (assignments s);
          otp_history := otp_history s |},
       true)
  end.

(** The record part of [track_otp]: stamp the number, read its holder
    when it is ["assigned"], and retire it when [keep_used_locked]. *)
Definition stamp (cfg : Config) (now : Z) (n : Number) : Number :=
  {| number := number n;
     status := if keep_used_locked cfg then Some "used" else status n;
     assigned_to := assigned_to n;
     assigned_at := assigned_at n;
     last_otp_at := Some now |}.

Definition holder_of (n : Number) : option Z :=
  if decide (status n = Some "assigned") then
    if truthy_int (assigned_to n) then assigned_to n else None
  else None.

(** The loop of [track_otp] over [self.assignments.items()]: every
    assignment of the number records the OTP, and the last one of them
    in dict order names the user. *)
Fixpoint mark_assignments (num otp : string) (now : Z)
    (d : list (Z * Assignment)) (assigned_user : option Z)
  : list (Z * Assignment) * option Z :=
  match d with
  | [] => ([], assigned_user)
  | (uid, info) :: d' =>
      if decide (a_number info = num) then
        let info' :=
          {| a_number := a_number info;
             a_assigned_at := a_assigned_at info;
             last_otp := Some otp;
             a_last_otp_at := Some now;
             reassign_count := reassign_count info |} in
        let '(d'', user) := mark_assignments num otp now d' (Some uid) in
        ((uid, info') :: d'', user)
      else
        let '(d'', user) := mark_assignments num otp now d' assigned_user in
        ((uid, info) :: d'', user)
  end.

(** [StateManager.track_otp] *)
Definition track_otp (cfg : Config) (s : StateManager)
    (num otp service panel : string) (now : Z)
  : StateManager * option Z :=
  let '(nums, from_number) :=
    match _find_number (numbers s) num with
    | Some (i, number_entry) =>
        (<[i := stamp cfg now number_entry]> (numbers s),
         holder_of number_entry)
    | None => (numbers s, None)
    end in
  let '(asg, assigned_user) :=
    mark_assignments num otp now (assignments s) from_number in
  ({| numbers := nums;
      assignments := asg;
      otp_history :=
        otp_history s ++
        [{| e_number := num; e_otp := otp; e_service := service;
            e_panel := panel; e_timestamp := now;
            e_assigned_user := assigned_user |}] |},
   assigned_user).

(** [StateManager.add_numbers] (the [country] key is not modelled). *)
Fixpoint add_numbers_loop (existing : list string) (new : list string)
  : list Number :=
  match new with
  | [] => []
  | num :: rest =>
      if decide (num ∈ existing) then add_numbers_loop existing rest
      else
        {| number := num; status := Some "available"; assigned_to := None;
           assigned_at := None; last_otp_at := None |}
        :: add_numbers_loop existing rest
  end.

Definition add_numbers (s : StateManager) (new : list string)
  : StateManager * Z :=
  let added := add_numbers_loop (number <$> numbers s) new in
  ({| numbers := numbers s ++ added;
      assignments := assignments s;
      otp_history := otp_history s |},
   Z.of_nat (length added)).

(** [normalize_number]:
    [re.sub(r"[^0-9+]", "", number).lstrip("+")].  The class is ASCII, so
    every byte of a non-ASCII character is dropped, as the character is. *)
Definition keeps (c : ascii) : bool :=
  let n := N_of_ascii c in ((48 <=? n)%N && (n <=? 57)%N) || (n =? 43)%N.

Fixpoint cleaned (num : string) : string :=
  match num with
  | EmptyString => EmptyString
  | String c rest => if keeps c then String c (cleaned rest) else cleaned rest
  end.

Definition normalize_number (num : string) : string :=
  lstrip_plus (cleaned num).

(** [mask_number]; the slices [s[:3]] and [s[-2:]] are taken on the list
    of characters. *)
Definition mask_number (number_str : string) : string :=
  let chars := list_ascii_of_string (lstrip_plus number_str) in
  let len := length chars in
  if (len <=? 4)%nat then "****"
  else
    let show_first := 3%nat in
    let show_last := 2%nat in
    let stars := repeat "*"%char (len - show_first - show_last) in
    string_of_list_ascii
      ("+"%char :: firstn show_first chars ++ stars
         ++ skipn (len - show_last) chars)%list.

(** The loop of [stock_summary] over [self.numbers]:
    [statuses[st] = statuses.get(st, 0) + 1]. *)
Fixpoint count_statuses (nums : list Number) (statuses : list (string * Z))
  : list (string * Z) :=
  match nums with
  | [] => statuses
  | n :: rest =>
      let st := default "available" (status n) in
      count_statuses rest
        (Dict.set st (default 0 (Dict.get st statuses) + 1) statuses)
  end.

(** [{"total": total, **statuses}] *)
Definition stock_summary (s : StateManager) : list (string * Z) :=
  fold_left (λ d kv, Dict.set kv.1 kv.2 d)
    (count_statuses (numbers s)
       [("available", 0); ("assigned", 0); ("used", 0); ("blocked", 0)])
    [("total", Z.of_nat (length (numbers s)))].

(** [load_json]: the value returned and the file afterwards (a missing
    file is created with the default). *)
Definition load_json (f : file) (default : json) : outcome json * file :=
  match f with
  | Missing => (Return default, Holds default)
  | Holds v => (Return v, f)
  | Unparseable => (Return default, f)
  end.

Section extract.
Context {C : Type} `{EqDecision C}.
Variables isdigit isword : C -> bool.
Variable hyphen : C.

  (** [patterns] of [extract_otp]:
      [\b\d{6}\b], [\b\d{4}\b], [\b\d{3}-\d{3}\b], [\b\d{8}\b] *)
Definition patterns : list (list (@Regex.atom C)) :=
    [ (Regex.Boundary :: Regex.digits 6 ++ [Regex.Boundary])%list;
      (Regex.Boundary :: Regex.digits 4 ++ [Regex.Boundary])%list;
      (Regex.Boundary :: Regex.digits 3 ++ Regex.Lit hyphen
         :: Regex.digits 3 ++ [Regex.Boundary])%list;
      (Regex.Boundary :: Regex.digits 8 ++ [Regex.Boundary])%list ].

  (** [match.group(0).replace("-", "")] *)
Definition strip_hyphen (m : list C) : list C :=
    filter (λ c, c ≠ hyphen) m.

  (** The loop of [extract_otp]. *)
Fixpoint first_match (pats : list (list (@Regex.atom C))) (message : list C)
    : option (list C) :=
    match pats with
    | [] => None
    | pat :: rest =>
        match Regex.search isdigit isword pat message with
        | Some m => Some (strip_hyphen m)
        | None => first_match rest message
        end
    end.

  (** [extract_otp] *)
Definition extract_otp (message : list C) : option (list C) :=
    first_match patterns message.
End extract.

End Bot.

(** ** [app.py]: [NumberEntry] and [DataStore] *)

Module App.

(** One element of [NumberEntry.otp_history]. *)
Record OtpRecord := {
  otp : string;
  timestamp : Z;
  via : string;
}.

(** The dataclass [NumberEntry]; the dicts stored under
    [data["lists"][name]["numbers"]] are the [__dict__] of such objects
    and carry the same keys. *)
Record NumberEntry := {
  value : string;
  status : string;
  assigned_to : option Z;
  assigned_at : option Z;
  last_otp : option string;
  otp_history : list OtpRecord;
}.

(** One value of [data["users"]]. *)
Record UserEntry := {
  u_list : string;
  u_number : string;
  u_assigned_at : option Z;
  username : option string;
}.

(** [DataStore].  [lists] is iterated, so it keeps its order.  [users]
    is only accessed by key; the keys are [str(x)] for [x] an integer or
    [None], and [str] is injective there, so a key is an [option Z]
    ([None] stands for the string ["None"]). *)
Record DataStore := {
  lists : list (string * list NumberEntry);
  users : gmap (option Z) UserEntry;
  ttl_seconds : Z;
}.

#[global] Instance OtpRecord_eq_dec : EqDecision OtpRecord.
Proof. solve_decision. Defined.

#[global] Instance NumberEntry_eq_dec : EqDecision NumberEntry.
Proof. solve_decision. Defined.

(** [NumberEntry.mark_assigned] *)
Definition mark_assigned (user_id now : Z) (e : NumberEntry) : NumberEntry :=
  {| value := value e; status := "assigned";
     assigned_to := Some user_id; assigned_at := Some now;
     last_otp := last_otp e; otp_history := otp_history e |}.

(** [NumberEntry.mark_available] *)
Definition mark_available (e : NumberEntry) : NumberEntry :=
  {| value := value e; status := "available";
     assigned_to := None; assigned_at := None;
     last_otp := last_otp e; otp_history := otp_history e |}.

(** [NumberEntry.mark_used] *)
Definition mark_used (code source : string) (now : Z) (e : NumberEntry)
  : NumberEntry :=
  {| value := value e; status := "used";
     assigned_to := assigned_to e; assigned_at := assigned_at e;
     last_otp := Some code;
     otp_history :=
       otp_history e ++ [{| otp := code; timestamp := now; via := source |}] |}.

(** [\d] on the text of a phone number (ASCII). *)
Definition is_digit (c : ascii) : bool :=
  let n := N_of_ascii c in (48 <=? n)%N && (n <=? 57)%N.

(** [DataStore._normalize]: [re.sub(r"\D", "", number)] *)
Fixpoint _normalize (num : string) : string :=
  match num with
  | EmptyString => EmptyString
  | String c rest =>
      if is_digit c then String c (_normalize rest) else _normalize rest
  end.

(** [self.data.get("lists", {}).get(list_name, {}).get("numbers", [])] *)
Definition numbers_of (s : DataStore) (list_name : string)
  : list NumberEntry :=
  default [] (Dict.get list_name (lists s)).

(** [DataStore._entry_by_value] *)
Definition _entry_by_value (s : DataStore) (list_name num : string)
  : option NumberEntry :=
  snd <$> list_find (λ e, value e = num) (numbers_of s list_name).

(** The scan of [_update_entry] inside one list of entries: the first
    entry with the value of [updated] is replaced. *)
Definition update_in (updated : NumberEntry) (entries : list NumberEntry)
  : list NumberEntry :=
  match list_find (λ e, value e = value updated) entries with
  | Some (idx, _) => <[idx := updated]> entries
  | None => entries
  end.

(** [DataStore._update_entry] *)
Fixpoint update_lists (list_name : string) (updated : NumberEntry)
    (ls : list (string * list NumberEntry))
  : list (string * list NumberEntry) :=
  match ls with
  | [] => []
  | (name, entries) :: ls' =>
      if decide (list_name = name)
      then (name, update_in updated entries) :: ls'
      else (name, entries) :: update_lists list_name updated ls'
  end.

Definition _update_entry (s : DataStore) (list_name : string)
    (updated : NumberEntry) : DataStore :=
  {| lists := update_lists list_name updated (lists s);
     users := users s;
     ttl_seconds := ttl_seconds s |}.

(** The test of the loop of [_release_expired]. *)
Definition stale (ttl now : Z) (e : NumberEntry) : bool :=
  if decide (status e = "assigned") then
    truthy_int (assigned_at e)
    && match assigned_at e with
       | Some at_ => (ttl <? now - at_)%Z
       | None => false
       end
  else false.

(** The body of the loop of [_release_expired] on a stale entry, in the
    order of the source: the three keys are overwritten first, and the
    user entry is then looked up under [str(entry.get("assigned_to"))],
    read from the entry as it is at that point. *)
Definition reclaim (e : NumberEntry) (us : gmap (option Z) UserEntry)
  : NumberEntry * gmap (option Z) UserEntry :=
  let e' := mark_available e in
  let key := assigned_to e' in
  match us !! key with
  | Some user_entry =>
      if decide (u_number user_entry = value e')
      then (e', delete key us)
      else (e', us)
  | None => (e', us)
  end.

Fixpoint sweep_entries (ttl now : Z) (entries : list NumberEntry)
    (us : gmap (option Z) UserEntry)
  : list NumberEntry * gmap (option Z) UserEntry :=
  match entries with
  | [] => ([], us)
  | e :: rest =>
      let '(e', us') := if stale ttl now e then reclaim e us else (e, us) in
      let '(rest', us'') := sweep_entries ttl now rest us' in
      (e' :: rest', us'')
  end.

Fixpoint sweep_lists (ttl now : Z) (ls : list (string * list NumberEntry))
    (us : gmap (option Z) UserEntry)
  : list (string * list NumberEntry) * gmap (option Z) UserEntry :=
  match ls with
  | [] => ([], us)
  | (name, entries) :: ls' =>
      let '(entries', us') := sweep_entries ttl now entries us in
      let '(ls'', us'') := sweep_lists ttl now ls' us' in
      ((name, entries') :: ls'', us'')
  end.

(** [DataStore._release_expired]; the method returns nothing. *)
Definition _release_expired (s : DataStore) (now : Z) : DataStore :=
  let '(ls, us) := sweep_lists (ttl_seconds s) now (lists s) (users s) in
  {| lists := ls; users := us; ttl_seconds := ttl_seconds s |}.

(** [DataStore.user_assignment] *)
Definition user_assignment (s : DataStore) (user_id : Z) : option UserEntry :=
  users s !! Some user_id.

(** [DataStore.release_number] *)
Definition release_number (s : DataStore) (user_id : Z) : DataStore * bool :=
  match user_assignment s user_id with
  | None => (s, false)
  | Some current =>
      match _entry_by_value s (u_list current) (u_number current) with
      | None => (s, false)
      | Some entry =>
          let s' := _update_entry s (u_list current) (mark_available entry) in
          ({| lists := lists s';
              users := delete (Some user_id) (users s');
              ttl_seconds := ttl_seconds s' |},
           true)
      end
  end.

(** The loop at the end of [assign_number]. *)
Definition assign_fresh (s : DataStore) (list_name : string)
    (user_id : Z) (uname : option string) (now : Z)
  : DataStore * option NumberEntry :=
  match list_find (λ e, status e = "available") (numbers_of s list_name) with
  | None => (s, None)
  | Some (_, entry) =>
      let entry_obj := mark_assigned user_id now entry in
      let s' := _update_entry s list_name entry_obj in
      ({| lists := lists s';
          users :=
            <[Some user_id :=
                {| u_list := list_name; u_number := value entry_obj;
                   u_assigned_at := assigned_at entry_obj;
                   username := uname |}]> (users s');
          ttl_seconds := ttl_seconds s' |},
       Some entry_obj)
  end.

(** [DataStore.assign_number]; one clock reading serves the sweep and
    the new lease. *)
Definition assign_number (s : DataStore) (list_name : string)
    (user_id : Z) (uname : option string) (now : Z)
  : DataStore * option NumberEntry :=
  let s1 := _release_expired s now in
  match Dict.get list_name (lists s1) with
  | None => (s1, None)
  | Some _ =>
      match user_assignment s1 user_id with
      | Some current =>
          if decide (u_list current = list_name)
          then (s1, _entry_by_value s1 list_name (u_number current))
          else assign_fresh (release_number s1 user_id).1
                 list_name user_id uname now
      | None => assign_fresh s1 list_name user_id uname now
      end
  end.

(** [DataStore._iter_entries] followed by the scan of
    [assign_by_number] (whose argument [deliver_otp] has normalised). *)
Fixpoint scan_lists (num : string) (ls : list (string * list NumberEntry))
  : option (string * NumberEntry) :=
  match ls with
  | [] => None
  | (name, entries) :: ls' =>
      match list_find (λ e, value e = num) entries with
      | Some (_, e) => Some (name, e)
      | None => scan_lists num ls'
      end
  end.

(** [DataStore.assign_by_number] *)
Definition assign_by_number (s : DataStore) (num : string)
  : option (string * NumberEntry) :=
  scan_lists (_normalize num) (lists s).

(** [DataStore.deliver_otp] *)
Definition deliver_otp (s : DataStore) (num code source : string) (now : Z)
  : DataStore * option Z :=
  match assign_by_number s (_normalize num) with
  | None => (s, None)
  | Some (list_name, entry) =>
      let entry' := mark_used code source now entry in
      let s' := _update_entry s list_name entry' in
      let user_id := assigned_to entry' in
      ({| lists := lists s';
          users := if truthy_int user_id
                   then delete user_id (users s') else users s';
          ttl_seconds := ttl_seconds s' |},
       user_id)
  end.





(** [DataStore._load], called by [__init__] with [self.data] set to the
    empty store: the new [self.data] and the file afterwards.  The
    method has no handler around [json.load]. *)
Definition _load (f : file) (data : json) : outcome (json * file) :=
  match f with
  | Holds v => Return (v, f)
  | Unparseable => Raise JSONDecodeError
  | Missing => Return (data, Holds data)
  end.

(** The initial [self.data] of [DataStore.__init__]. *)
Definition empty_data : json := JObj [("lists", JObj []); ("users", JObj [])].

End App.

(** ** The third variant (file of unknown name)

    Its loader and its OTP matcher come first.  Its lease engine has
    another data model: pools that offer numbers, and a list of
    assignments. *)

Module Part000.

(** [data.setdefault(key, value)] *)
Definition setdefault (key : string) (v : json) (d : list (string * json))
  : list (string * json) :=
  match Dict.get key d with
  | Some _ => d
  | None => d ++ [(key, v)]
  end.

(** [ensure_data_defaults]; only a dict has [setdefault]. *)
Definition ensure_data_defaults (data : json) : outcome json :=
  match data with
  | JObj d =>
      Return (JObj (setdefault "otp_deliveries" (JArr [])
                   (setdefault "assignments" (JArr [])
                   (setdefault "number_pools" (JObj [])
                   (setdefault "users" (JObj []) d)))))
  | _ => Raise AttributeError
  end.

(** [load_data_store] *)
Definition load_data_store (f : file) : outcome json :=
  match f with
  | Missing => ensure_data_defaults (JObj [])
  | Unparseable => ensure_data_defaults (JObj [])
  | Holds data => ensure_data_defaults data
  end.

Section extract.
Context {C : Type} `{EqDecision C}.
Variables isdigit isword : C -> bool.
Variable hyphen : C.

  (** The pattern list of this variant's [extract_otp]:
      [\d{6}], [\d{4}], [\d{3}-\d{3}] *)
Definition patterns : list (list (@Regex.atom C)) :=
    [ Regex.digits 6;
      Regex.digits 4;
      (Regex.digits 3 ++ Regex.Lit hyphen :: Regex.digits 3)%list ].

  (** [extract_otp]: [match.group(0)] is returned as it is. *)
Fixpoint first_match (pats : list (list (@Regex.atom C))) (message : list C)
    : option (list C) :=
    match pats with
    | [] => None
    | pat :: rest =>
        match Regex.search isdigit isword pat message with
        | Some m => Some m
        | None => first_match rest message
        end
    end.

Definition extract_otp (message : list C) : option (list C) :=
    first_match patterns message.
End extract.

(** *** The lease engine of this variant

    Each function below starts with [load_data_store()] and ends, when
    it changed something, with [save_data_store(data)]: the file is the
    state, passed explicitly here.  [number_pools] and [users] are only
    read and written by key in these functions.  An assignment dict
    that is mutated in place is the entry at its index in
    [data["assignments"]]. *)

Record Pool := {
  country : string;
  label : string;
  numbers : list string;
  available : list string;
  used : list string              (* [pool.get("used", [])] *)
}.

Record Assignment := {
  user_id : Z;
  username : string;
  number : string;
  pool_id : string;
  assigned_at : Z;
  status : option string;         (* [assignment.get("status")] *)
  expired_at : option Z;
  used_at : option Z
}.

Record UserEntry := {
  u_user_id : Z;
  u_username : string;
  last_pool : option string;
  n_assignments : Z;              (* the key ["assignments"] *)
  n_used : Z                      (* the key ["used"] *)
}.

Record Delivery := {
  d_number : string;
  d_otp : string;
  d_panel : string;
  d_message : string;
  delivered_at : Z
}.

Record Data := {
  users : gmap Z UserEntry;       (* keyed by [str(user_id)] *)
  number_pools : gmap string Pool;
  assignments : list Assignment;
  otp_deliveries : list Delivery
}.

(** [RECYCLE_AFTER = timedelta(hours=1)], in clock ticks of one
    microsecond. *)
Definition RECYCLE_AFTER : Z := 3600000000.

(** [assignment.get("status") == "assigned"] *)
Definition is_assigned (a : Assignment) : bool :=
  bool_decide (status a = Some "assigned").

(** [assignment["status"] = "expired"; assignment["expired_at"] = now] *)
Definition expire (now : Z) (a : Assignment) : Assignment :=
  {| user_id := user_id a; username := username a; number := number a;
     pool_id := pool_id a; assigned_at := assigned_at a;
     status := Some "expired"; expired_at := Some now;
     used_at := used_at a |}.

(** [pool["available"].append(number)] *)
Definition give_back (num : string) (pool : Pool) : Pool :=
  {| country := country pool; label := label pool; numbers := numbers pool;
     available := (available pool ++ [num])%list; used := used pool |}.

(** The body of the loop of [recycle_expired_assignments], for one
    assignment: the assignment afterwards, the pools afterwards, and
    whether [changed] was set. *)
Definition recycle_one (now : Z) (a : Assignment) (pools : gmap string Pool)
  : Assignment * gmap string Pool * bool :=
  if is_assigned a && (RECYCLE_AFTER <=? now - assigned_at a)%Z then
    let pools' :=
      match pools !! pool_id a with
      | Some pool =>
          if decide (number a ∈ available pool) then pools
          else <[pool_id a := give_back (number a) pool]> pools
      | None => pools
      end in
    (expire now a, pools', true)
  else (a, pools, false).

Fixpoint recycle_loop (now : Z) (asg : list Assignment)
    (pools : gmap string Pool) : list Assignment * gmap string Pool * bool :=
  match asg with
  | [] => ([], pools, false)
  | a :: rest =>
      let '(a', pools1, c1) := recycle_one now a pools in
      let '(rest', pools2, c2) := recycle_loop now rest pools1 in
      (a' :: rest', pools2, c1 || c2)
  end.

(** [recycle_expired_assignments(now)] *)
Definition recycle_expired_assignments (d : Data) (now : Z) : Data * bool :=
  let '(asg, pools, changed) :=
    recycle_loop now (assignments d) (number_pools d) in
  ({| users := users d; number_pools := pools; assignments := asg;
      otp_deliveries := otp_deliveries d |},
   changed).

(** The four messages of [assign_number_to_user]. *)
Inductive reply :=
| ListNotFound       (* "List not found." *)
| AlreadyActive      (* "You already have an active number." *)
| NoneAvailable      (* "No numbers available in this list." *)
| Assigned.          (* "Number assigned successfully!" *)

(** The default of [data["users"].setdefault(str(user_id), ...)] *)
Definition new_user (uid : Z) (uname : string) : UserEntry :=
  {| u_user_id := uid; u_username := uname; last_pool := None;
     n_assignments := 0; n_used := 0 |}.

(** [user_entry["last_pool"] = pool_id; user_entry["assignments"] += 1] *)
Definition count_assignment (pid : string) (ue : UserEntry) : UserEntry :=
  {| u_user_id := u_user_id ue; u_username := u_username ue;
     last_pool := Some pid; n_assignments := n_assignments ue + 1;
     n_used := n_used ue |}.

(** [pool["available"].pop(0)]: the pool afterwards *)
Definition pop_available (rest : list string) (pool : Pool) : Pool :=
  {| country := country pool; label := label pool; numbers := numbers pool;
     available := rest; used := used pool |}.

(** The assignment dict built by [assign_number_to_user]. *)
Definition new_assignment (uid : Z) (uname num pid : string) (stamp : Z)
  : Assignment :=
  {| user_id := uid; username := uname; number := num; pool_id := pid;
     assigned_at := stamp; status := Some "assigned";
     expired_at := None; used_at := None |}.

(** [assign_number_to_user(user_id, username, pool_id)]; [now] is the
    clock reading of the recycling it starts with, [stamp] the later
    reading written into the new assignment. *)
Definition assign_number_to_user (d0 : Data) (uid : Z) (uname pid : string)
    (now stamp : Z) : Data * (option string * reply) :=
  let d := (recycle_expired_assignments d0 now).1 in
  match number_pools d !! pid with
  | None => (d, (None, ListNotFound))
  | Some pool =>
      match list_find (λ a, user_id a = uid ∧ status a = Some "assigned")
                      (assignments d) with
      | Some (_, a) => (d, (Some (number a), AlreadyActive))
      | None =>
          match available pool with
          | [] => (d, (None, NoneAvailable))
          | num :: rest =>
              let user_entry := default (new_user uid uname) (users d !! uid) in
              ({| users := <[uid := count_assignment pid user_entry]> (users d);
                  number_pools :=
                    <[pid := pop_available rest pool]> (number_pools d);
                  assignments :=
                    (assignments d
                       ++ [new_assignment uid uname num pid stamp])%list;
                  otp_deliveries := otp_deliveries d |},
               (Some num, Assigned))
          end
      end
  end.

(** [sorted(data["assignments"], key=lambda a: a["assigned_at"],
    reverse=True)], every assignment paired with its index in
    [data["assignments"]].  The sort is stable, also with
    [reverse=True]: among equal keys the earlier assignment comes
    first.  The keys are the ISO strings [isoformat()] writes for UTC
    readings, whose order as strings is their order in time. *)
Fixpoint insert_desc (x : nat * Assignment) (l : list (nat * Assignment))
  : list (nat * Assignment) :=
  match l with
  | [] => [x]
  | y :: l' =>
      if (assigned_at y.2 <=? assigned_at x.2)%Z then x :: l
      else y :: insert_desc x l'
  end.

Definition sorted_desc (l : list Assignment) : list (nat * Assignment) :=
  foldr insert_desc [] (imap pair l).

(** [assignment["status"] = "used"; assignment["used_at"] = now] *)
Definition use (now : Z) (a : Assignment) : Assignment :=
  {| user_id := user_id a; username := username a; number := number a;
     pool_id := pool_id a; assigned_at := assigned_at a;
     status := Some "used"; expired_at := expired_at a;
     used_at := Some now |}.

(** [user_entry["used"] = user_entry.get("used", 0) + 1] *)
Definition count_used (ue : UserEntry) : UserEntry :=
  {| u_user_id := u_user_id ue; u_username := u_username ue;
     last_pool := last_pool ue; n_assignments := n_assignments ue;
     n_used := n_used ue + 1 |}.

(** [pool.setdefault("used", []).append(number)] *)
Definition retire (num : string) (pool : Pool) : Pool :=
  {| country := country pool; label := label pool; numbers := numbers pool;
     available := available pool; used := (used pool ++ [num])%list |}.

(** The loop of [mark_assignment_used]: the first assignment of the
    sorted list that names the number and is assigned. *)
Definition latest_assigned (num : string) (asg : list Assignment)
  : option (nat * Assignment) :=
  snd <$> list_find (λ ia : nat * Assignment,
                       number ia.2 = num ∧ status ia.2 = Some "assigned")
                    (sorted_desc asg).

(** [mark_assignment_used(number, otp, panel, message)] *)
Definition mark_assignment_used (d : Data) (num otp panel message : string)
    (now : Z) : Data :=
  let d1 :=
    match latest_assigned num (assignments d) with
    | None => d
    | Some (i, a) =>
        {| users :=
             match users d !! user_id a with
             | Some ue => <[user_id a := count_used ue]> (users d)
             | None => users d
             end;
           number_pools :=
             match number_pools d !! pool_id a with
             | Some pool =>
                 if decide (num ∈ used pool) then number_pools d
                 else <[pool_id a := retire num pool]> (number_pools d)
             | None => number_pools d
             end;
           assignments := <[i := use now a]> (assignments d);
           otp_deliveries := otp_deliveries d |}
    end in
  {| users := users d1; number_pools := number_pools d1;
     assignments := assignments d1;
     otp_deliveries :=
       (otp_deliveries d1
          ++ [{| d_number := num; d_otp := otp; d_panel := panel;
                 d_message := message; delivered_at := now |}])%list |}.

(** [str.upper], on ASCII letters (country codes are ASCII). *)
Definition upper_char (c : ascii) : ascii :=
  let n := N_of_ascii c in
  if ((97 <=? n)%N && (n <=? 122)%N)%bool then ascii_of_N (n - 32) else c.

Fixpoint upper (s : string) : string :=
  match s with
  | EmptyString => EmptyString
  | String c rest => String (upper_char c) (upper rest)
  end.

(** [get_pool_id]: [f"{country_code.upper()}::{label}"] *)
Definition get_pool_id (country_code label : string) : string :=
  upper country_code ++ "::" ++ label.

(** [remove_number_list(country_code, label)] *)
Definition remove_number_list (d : Data) (country_code label : string)
  : Data * bool :=
  let pid := get_pool_id country_code label in
  match number_pools d !! pid with
  | Some _ =>
      ({| users := users d;
          number_pools := delete pid (number_pools d);
          assignments := filter (λ a, pool_id a ≠ pid) (assignments d);
          otp_deliveries := otp_deliveries d |},
       true)
  | None => (d, false)
  end.

(** [re.sub(r"\D", "", raw)] on the text of a phone number (ASCII). *)
Fixpoint clean (raw : string) : string :=
  match raw with
  | EmptyString => EmptyString
  | String c rest =>
      let n := N_of_ascii c in
      if ((48 <=? n)%N && (n <=? 57)%N)%bool then String c (clean rest)
      else clean rest
  end.

(** The order [sorted] uses on [str]. *)
Definition str_le (x y : string) : Prop := String.leb x y = true.

#[global] Instance str_le_dec : RelDecision str_le :=
  λ x y, decide (String.leb x y = true).

(** [add_number_list(country_code, label, numbers)];
    [sorted(set(normalized_numbers))] is the sorted list of the distinct
    numbers. *)
Definition add_number_list (d : Data) (country_code label : string)
    (nums : list string) : Data * (string * Z) :=
  let pid := get_pool_id country_code label in
  let normalized_numbers := filter (λ x, x ≠ "") (clean <$> nums) in
  let unique_numbers := merge_sort str_le (remove_dups normalized_numbers) in
  ({| users := users d;
      number_pools :=
        <[pid := {| country := upper country_code; label := label;
                    numbers := unique_numbers;
                    available := unique_numbers;
                    used := [] |}]> (number_pools d);
      assignments := assignments d;
      otp_deliveries := otp_deliveries d |},
   (pid, Z.of_nat (length unique_numbers))).

(** [mask_number] of this variant; the slices are taken on the list of
    characters of [f"+{number_str}"].  A negative star count gives no
    star, and a slice longer than the text gives the whole text. *)
Definition mask_number (number_str : string) : string :=
  let chars := ("+"%char :: list_ascii_of_string number_str) in
  let len := length chars in
  let show_first := if (10 <=? len)%nat then 5%nat else 4%nat in
  let show_last := if (10 <=? len)%nat then 4%nat else 2%nat in
  let stars := repeat "*"%char (len - show_first - show_last) in
  string_of_list_ascii
    (firstn show_first chars ++ stars ++ skipn (len - show_last) chars)%list.

End Part000.

(** ** The ASCII alphabet, for concrete runs *)

Definition ascii_digit (c : ascii) : bool :=
  let n := N_of_ascii c in (48 <=? n)%N && (n <=? 57)%N.

Definition ascii_word (c : ascii) : bool :=
  let n := N_of_ascii c in
  ascii_digit c
  || ((65 <=? n)%N && (n <=? 90)%N)
  || ((97 <=? n)%N && (n <=? 122)%N)
  || (n =? 95)%N.

Definition text (s : string) : list ascii := list_ascii_of_string s.

Definition bot_extract (s : string) : option (list ascii) :=
  Bot.extract_otp ascii_digit ascii_word "-"%char (text s).

Definition part000_extract (s : string) : option (list ascii) :=
  Part000.extract_otp ascii_digit ascii_word "-"%char (text s).

(** ** Properties stated by the specification *)

(** Occurrences of the patterns of [extract_otp], stated on the text
    itself. *)
Module RegexSpec.
Section spec.
Context {C : Type} `{EqDecision C}.
Variables isdigit isword : C -> bool.
Variable hyphen : C.

(** The last character of [m], or [prev] when [m] is empty. *)
Definition last_or (prev : option C) (m : list C) : option C :=
  match last m with
  | Some c => Some c
  | None => prev
  end.

(** [\b] between two neighbours. *)
Definition boundary (before after : option C) : Prop :=
  xorb (Regex.word isword before) (Regex.word isword after) = true.

Definition all_digits (m : list C) : Prop :=
  Forall (λ c, isdigit c = true) m.

(** [m], preceded by [prev] and followed by [post], is a run of exactly
    [k] digits with a word boundary on either side. *)
Definition run (k : nat) (prev : option C) (m post : list C) : Prop :=
  length m = k ∧ all_digits m ∧
  boundary prev (head (m ++ post)%list) ∧
  boundary (last_or prev m) (head post).

(** [m] is three digits, the hyphen and three digits, with a word
    boundary on either side. *)
Definition hyphenated (prev : option C) (m post : list C) : Prop :=
  ∃ a b : list C, m = (a ++ hyphen :: b)%list ∧
         length a = 3%nat ∧ length b = 3%nat ∧
         all_digits a ∧ all_digits b ∧
         boundary prev (head (m ++ post)%list) ∧
         boundary (last_or prev m) (head post).

(** [m] is a run of exactly [k] digits, wherever it stands. *)
Definition plain (k : nat) (prev : option C) (m post : list C) : Prop :=
  length m = k ∧ all_digits m.

(** [m] is three digits, the hyphen and three digits, wherever it
    stands. *)
Definition plain_hyphenated (prev : option C) (m post : list C) : Prop :=
  ∃ a b : list C, m = (a ++ hyphen :: b)%list ∧
                  length a = 3%nat ∧ length b = 3%nat ∧
                  all_digits a ∧ all_digits b.

(** [m] is the leftmost occurrence of [P] in [msg]. *)
Definition leftmost (P : option C → list C → list C → Prop)
    (msg m : list C) : Prop :=
  ∃ pre post, msg = (pre ++ m ++ post)%list ∧ P (last pre) m post ∧
    ∀ pre' m' post', msg = (pre' ++ m' ++ post')%list →
                     (length pre' < length pre)%nat →
                     ¬ P (last pre') m' post'.

(** [P] occurs nowhere in [msg]. *)
Definition nowhere (P : option C → list C → list C → Prop)
    (msg : list C) : Prop :=
  ∀ pre m post, msg = (pre ++ m ++ post)%list → ¬ P (last pre) m post.

End spec.
End RegexSpec.

Module BotSpec.
Import Bot.

(** The requester holds an undelivered lease: the lease index maps the
    requester to [a], [a] carries no OTP, and the pool resolves the
    number of [a] to a record that is ["assigned"]. *)
Definition undelivered_lease (s : StateManager) (u : Z) (a : Assignment)
  : Prop :=
  Dict.get u (assignments s) = Some a ∧
  truthy_str (last_otp a) = false ∧
  ∃ i n, _find_number (numbers s) (a_number a) = Some (i, n) ∧
         status n = Some "assigned".

(** A fresh pool record. *)
Definition fresh (num : string) : Number :=
  {| number := num; status := Some "available"; assigned_to := None;
     assigned_at := None; last_otp_at := None |}.

(** The pool [{A: available, B: available}] with an empty lease index. *)
Definition pool_AB : StateManager :=
  {| numbers := [fresh "A"; fresh "B"]; assignments := []; otp_history := [] |}.

(** The scenario of the specification: R1, R2, R1 again, then a third
    requester, at four clock readings. *)
Definition scenario_AB (t1 t2 t3 t4 : Z) : Prop :=
  let r1 := assign_number pool_AB 1 t1 in
  let r2 := assign_number r1.1 2 t2 in
  let r3 := assign_number r2.1 1 t3 in
  let r4 := assign_number r3.1 3 t4 in
  a_number <$> r1.2 = Some "A" ∧
  a_number <$> r2.2 = Some "B" ∧
  a_number <$> r3.2 = Some "A" ∧
  r4.2 = None.

(** Every entry of the lease index names a number that some record of
    the pool carries. *)
Definition index_in_pool (s : StateManager) : Prop :=
  ∀ u a, (u, a) ∈ assignments s →
         ∃ n, n ∈ numbers s ∧ number n = a_number a.

(** Every character of the text is a digit or a plus sign. *)
Fixpoint all_kept (num : string) : bool :=
  match num with
  | EmptyString => true
  | String c rest => keeps c && all_kept rest
  end.

(** How many records of the pool count under the status [st]. *)
Definition tally (st : string) (nums : list Number) : Z :=
  Z.of_nat (length (filter (λ n, default "available" (status n) = st) nums)).

(** The conditions under which the specification reclaims a record. *)
Definition reclaimable (cfg : Config) (now : Z) (n : Number) : Prop :=
  status n = Some "assigned" ∧
  ∃ t, assigned_at n = Some t ∧
       (minutes (release_timeout_minutes cfg) ≤ now - t)%Z ∧
       last_otp_at n = None.

(** What the sweep does to one record. *)
Definition swept (cfg : Config) (now : Z) (n : Number) : Number :=
  if expired cfg now n then drop "available" n else n.

(** The numbers the sweep reports, in pool order. *)
Definition reclaimed (cfg : Config) (now : Z) (nums : list Number)
  : list string :=
  number <$> filter (λ n, expired cfg now n = true) nums.

(** A lease index read as pairs (requester, number). *)
Definition names_of (d : list (Z * Assignment)) : list (Z * string) :=
  (λ kv, (kv.1, a_number kv.2)) <$> d.

Definition lease_names (s : StateManager) : list (Z * string) :=
  names_of (assignments s).

(** Holder and timestamp are both present or both absent. *)
Definition paired (n : Number) : Prop :=
  assigned_to n = None ↔ assigned_at n = None.

(** The record invariant of the specification: holder and timestamp are
    paired, and both absent unless the status is ["assigned"]. *)
Definition record_ok (n : Number) : Prop :=
  paired n ∧
  (status n ≠ Some "assigned" → assigned_to n = None ∧ assigned_at n = None).

End BotSpec.

Module AppSpec.
Import App.

Definition fresh (num : string) : NumberEntry :=
  {| value := num; status := "available"; assigned_to := None;
     assigned_at := None; last_otp := None; otp_history := [] |}.

(** One list ["L"] holding A and B, nobody served yet, TTL 3600. *)
Definition pool_AB : DataStore :=
  {| lists := [("L", [fresh "A"; fresh "B"])]; users := ∅;
     ttl_seconds := 3600 |}.

Definition scenario_AB (t1 t2 t3 t4 : Z) : Prop :=
  let r1 := assign_number pool_AB "L" 1 None t1 in
  let r2 := assign_number r1.1 "L" 2 None t2 in
  let r3 := assign_number r2.1 "L" 1 None t3 in
  let r4 := assign_number r3.1 "L" 3 None t4 in
  value <$> r1.2 = Some "A" ∧
  value <$> r2.2 = Some "B" ∧
  value <$> r3.2 = Some "A" ∧
  r4.2 = None.

Definition paired (e : NumberEntry) : Prop :=
  assigned_to e = None ↔ assigned_at e = None.

Definition record_ok (e : NumberEntry) : Prop :=
  paired e ∧
  (status e ≠ "assigned" → assigned_to e = None ∧ assigned_at e = None).

(** All entries of all lists. *)
Definition entries (s : DataStore) : list NumberEntry :=
  concat (snd <$> lists s).

End AppSpec.

(** ** Predicates for the lease engine of the third variant *)

Module Part000Spec.
Import Part000.

(** The assignment is a lease in force. *)
Definition active (a : Assignment) : Prop := status a = Some "assigned".

(** The sweep at clock reading [now] recycles the assignment. *)
Definition due (now : Z) (a : Assignment) : Prop :=
  active a ∧ (RECYCLE_AFTER ≤ now - assigned_at a)%Z.

Definition recycled (now : Z) (a : Assignment) : Assignment :=
  if decide (due now a) then expire now a else a.

(** The numbers on offer in pool [pid] after the sweep has gone through
    the assignments [asg], starting from the offer [av]. *)
Definition offer_after (now : Z) (pid : string) (asg : list Assignment)
    (av : list string) : list string :=
  fold_left
    (λ av a, if decide (due now a ∧ pool_id a = pid ∧ number a ∉ av)
             then (av ++ [number a])%list else av)
    asg av.

Definition with_available (av : list string) (pool : Pool) : Pool :=
  {| country := country pool; label := label pool; numbers := numbers pool;
     available := av; used := used pool |}.

(** The leases in force, as (pool, number) pairs and by holder. *)
Definition leases (d : Data) : list (string * string) :=
  (λ a, (pool_id a, number a)) <$> filter active (assignments d).

Definition holders (d : Data) : list Z :=
  user_id <$> filter active (assignments d).

(** The store is consistent: no pool offers a number twice, no pool
    offers a number that is under lease in it, no number of a pool is
    under two leases, and no requester holds two leases. *)
Record consistent (d : Data) : Prop := {
  offer_nodup :
    ∀ pid pool, number_pools d !! pid = Some pool → NoDup (available pool);
  leased_off_offer :
    ∀ a pool, a ∈ assignments d → active a →
              number_pools d !! pool_id a = Some pool →
              number a ∉ available pool;
  one_holder : NoDup (leases d);
  one_lease : NoDup (holders d)
}.

(** The order of [sorted(..., reverse=True)] on indexed assignments:
    later first and, among equally old ones, the earlier index first. *)
Definition precedes (x y : nat * Assignment) : Prop :=
  (assigned_at y.2 < assigned_at x.2)%Z ∨
  (assigned_at y.2 = assigned_at x.2 ∧ (x.1 < y.1)%nat).

(** [a], at index [i], is the assignment [mark_assignment_used] picks
    for [num]: it names the number and is in force, and every other
    such assignment is older, or as old and further down the list. *)
Definition latest (num : string) (asg : list Assignment) (i : nat)
    (a : Assignment) : Prop :=
  asg !! i = Some a ∧ number a = num ∧ active a ∧
  ∀ j b, asg !! j = Some b → number b = num → active b → j ≠ i →
         (assigned_at b < assigned_at a)%Z ∨
         (assigned_at b = assigned_at a ∧ (i < j)%nat).

(** One list of two numbers for the country US, nobody served yet. *)
Definition store_US : Data :=
  {| users := ∅;
     number_pools :=
       {[ "US::main" :=
            {| country := "US"; label := "main";
               numbers := ["15550000001"; "15550000002"];
               available := ["15550000001"; "15550000002"];
               used := [] |} ]};
     assignments := [];
     otp_deliveries := [] |}.

(** The same store after requester 1 leased the first number, at
    clock reading 5. *)
Definition store_leased : Data :=
  (assign_number_to_user store_US 1 "ann" "US::main" 0 5).1.

End Part000Spec.

(** *** Lemmas on the embedding of [bot.py] *)

Section bot_lemmas.
Import Bot BotSpec.

Lemma live_lease_Some (s : StateManager) (u : Z) (a : Assignment) :
  live_lease s u = Some a ↔ undelivered_lease s u a.
Proof.
  unfold live_lease, undelivered_lease. split.
  - destruct (Dict.get u (assignments s)) as [c|] eqn:Hc; [|done].
    destruct (_find_number (numbers s) (a_number c)) as [[i n]|] eqn:Hf; [|done].
    case_decide; [|done].
    destruct (truthy_str (last_otp c)) eqn:Ht; [done|].
    intros [= <-]. eauto 10.
  - intros (-> & Ht & i & n & Hf & Hs). rewrite Hf.
    rewrite decide_True by done. by rewrite Ht.
Qed.

Lemma first_available_Some (s : StateManager) (i : nat) (n : Number) :
  numbers s !! i = Some n → is_available n →
  (∀ j m, numbers s !! j = Some m → (j < i)%nat → ¬ is_available m) →
  first_available (numbers s) = Some (i, n).
Proof. intros. apply list_find_Some. auto. Qed.

Lemma first_available_none (nums : list Number) :
  (∀ n, n ∈ nums → ¬ is_available n) → first_available nums = None.
Proof. intros H. apply list_find_None, Forall_forall, H. Qed.

Lemma drop_number (st : string) (n : Number) : number (drop st n) = number n.
Proof. done. Qed.

Lemma take_number (u now : Z) (n : Number) : number (take u now n) = number n.
Proof. done. Qed.

(** Overwriting the record that a scan finds by a record that passes the
    same test leaves the scan at the same position. *)
Lemma list_find_insert_same {A} (P : A → Prop) `{∀ x, Decision (P x)}
    (l : list A) (i : nat) (x y : A) :
  list_find P l = Some (i, x) → P y →
  list_find P (<[i := y]> l) = Some (i, y).
Proof.
  intros (Hi & _ & Hlt)%list_find_Some Hy. apply list_find_Some.
  split; [|split; [done|]].
  - apply list_lookup_insert_eq. by eapply lookup_lt_Some.
  - intros j z Hj Hji. rewrite list_lookup_insert_ne in Hj by lia. eauto.
Qed.

Lemma _find_number_insert (nums : list Number) (num : string) (i : nat)
    (n n' : Number) :
  _find_number nums num = Some (i, n) → number n' = number n →
  _find_number (<[i := n']> nums) num = Some (i, n').
Proof.
  intros Hf Hn. eapply list_find_insert_same; [exact Hf|].
  apply list_find_Some in Hf as (_ & Hm & _).
  unfold number_matches in *. by rewrite Hn.
Qed.

Lemma lease_first_None (s : StateManager) (u now bump : Z) (s' : StateManager) :
  lease_first s u now bump = (s', None) →
  s' = s ∧ ∀ n, n ∈ numbers s → ¬ is_available n.
Proof.
  unfold lease_first.
  destruct (first_available (numbers s)) as [[i n]|] eqn:Hf; [done|].
  intros [= <-]. split; [done|].
  apply list_find_None in Hf. by apply Forall_forall.
Qed.

End bot_lemmas.

(** *** Sweeps of [app.py] that find nothing stale *)

Section sweep_noop.
Import App AppSpec.

Lemma stale_within (ttl now t : Z) (e : NumberEntry) :
  assigned_at e = Some t → (now - t ≤ ttl)%Z → stale ttl now e = false.
Proof.
  intros Ht Hle. unfold stale. case_decide; [|done]. rewrite Ht.
  rewrite (proj2 (Z.ltb_ge ttl (now - t)) Hle). apply andb_false_r.
Qed.

Lemma stale_not_assigned (ttl now : Z) (e : NumberEntry) :
  status e ≠ "assigned" → stale ttl now e = false.
Proof. intros Hs. unfold stale. by rewrite decide_False. Qed.

Lemma sweep_entries_noop (ttl now : Z) (es : list NumberEntry)
    (us : gmap (option Z) UserEntry) :
  Forall (λ e, stale ttl now e = false) es →
  sweep_entries ttl now es us = (es, us).
Proof.
  induction 1 as [|e es He Hes IH]; [done|]. simpl. rewrite He. by rewrite IH.
Qed.

Lemma sweep_lists_noop (ttl now : Z) (ls : list (string * list NumberEntry))
    (us : gmap (option Z) UserEntry) :
  Forall (λ e, stale ttl now e = false) (concat (snd <$> ls)) →
  sweep_lists ttl now ls us = (ls, us).
Proof.
  induction ls as [|[name es] ls IH]; [done|]. simpl.
  intros [Hes Hls]%Forall_app. rewrite sweep_entries_noop; [|done]. by rewrite IH.
Qed.

Lemma _release_expired_noop (s : DataStore) (now : Z) :
  Forall (λ e, stale (ttl_seconds s) now e = false) (entries s) →
  _release_expired s now = s.
Proof.
  intros Hs. unfold _release_expired. rewrite sweep_lists_noop; [|done].
  by destruct s.
Qed.
End sweep_noop.


(** C3.  [assign_number] is idempotent for a requester that holds an
    undelivered lease: the call returns that lease and leaves the store
    as it is, and so does a second call right after it, so both calls
    return the identical number. *)
Theorem assign_number_idempotent (s : Bot.StateManager) (u : Z)
    (a : Bot.Assignment) (now1 now2 : Z) :
  BotSpec.undelivered_lease s u a →
  Bot.assign_number s u now1 = (s, Some a) ∧
  Bot.assign_number (Bot.assign_number s u now1).1 u now2 = (s, Some a).
Proof.
  intros H. apply live_lease_Some in H.
  assert (Bot.assign_number s u now1 = (s, Some a)) as E1.
  { unfold Bot.assign_number. by rewrite H. }
  split; [done|]. rewrite E1. simpl.
  unfold Bot.assign_number. by rewrite H.
Qed.

(** C4.  With no undelivered lease of its own, a requester gets the
    first available record in pool order, and nothing when no record is
    available; the A/B scenario runs as the specification tells it, in
    [bot.py] and in [app.py]. *)
Theorem assign_number_first_available :
  (∀ t1 t2 t3 t4, BotSpec.scenario_AB t1 t2 t3 t4) ∧
  (∀ t1 t2 t3 t4 : Z,
     (t1 ≤ t2 ≤ t3 ∧ t3 ≤ t4 ≤ t1 + 3600)%Z →
     AppSpec.scenario_AB t1 t2 t3 t4) ∧
  ∀ (s : Bot.StateManager) (u now : Z),
    Bot.live_lease s u = None →
    (∀ i n,
       Bot.numbers s !! i = Some n → Bot.is_available n →
       (∀ j m, Bot.numbers s !! j = Some m → (j < i)%nat →
               ¬ Bot.is_available m) →
       ∃ a, Bot.assign_number s u now =
              ({| Bot.numbers := <[i := Bot.take u now n]> (Bot.numbers s);
                  Bot.assignments := Dict.set u a (Bot.assignments s);
                  Bot.otp_history := Bot.otp_history s |}, Some a)
            ∧ Bot.a_number a = Bot.number n) ∧
    ((∀ n, n ∈ Bot.numbers s → ¬ Bot.is_available n) →
     Bot.assign_number s u now = (s, None)).
Proof.
  split; [|split].
  - intros. repeat split.
  - intros t1 t2 t3 t4 Ht.
    unfold AppSpec.scenario_AB. cbv zeta.
  set (eA := App.mark_assigned 1 t1 (AppSpec.fresh "A")).
  set (eB := App.mark_assigned 2 t2 (AppSpec.fresh "B")).
  assert (App.assign_number AppSpec.pool_AB "L" 1 None t1 =
            ({| App.lists := [("L", [eA; AppSpec.fresh "B"])];
                App.users := {[ Some 1 := {| App.u_list := "L"; App.u_number := "A";
                                  App.u_assigned_at := Some t1; App.username := None |} ]};
                App.ttl_seconds := 3600 |}, Some eA)) as E1.
  { unfold App.assign_number. rewrite _release_expired_noop.
    - vm_compute. reflexivity.
    - repeat constructor. }
  set (u1 := {| App.u_list := "L"; App.u_number := "A";
                App.u_assigned_at := Some t1; App.username := None |}) in *.
  set (u2 := {| App.u_list := "L"; App.u_number := "B";
                App.u_assigned_at := Some t2; App.username := None |}).
  set (s2 := {| App.lists := [("L", [eA; eB])];
                App.users := <[Some 2 := u2]> {[ Some 1 := u1 ]};
                App.ttl_seconds := 3600 |}).
  assert (∀ now, (t2 ≤ now ≤ t1 + 3600)%Z →
                 App._release_expired s2 now = s2) as Hs2.
  { intros now Hnow. apply _release_expired_noop.
    repeat constructor; simpl;
      first [ apply (stale_within _ _ t1); [done|lia]
            | apply (stale_within _ _ t2); [done|lia] ]. }
  rewrite E1. cbn [fst snd].
  assert (App.assign_number
            {| App.lists := [("L", [eA; AppSpec.fresh "B"])];
               App.users := {[ Some 1 := u1 ]};
               App.ttl_seconds := 3600 |} "L" 2 None t2 = (s2, Some eB)) as E2.
  { unfold App.assign_number. rewrite _release_expired_noop.
    - vm_compute. reflexivity.
    - repeat constructor; simpl.
      apply (stale_within _ _ t1); [done|lia]. }
  rewrite E2. cbn [fst snd].
  assert (App.assign_number s2 "L" 1 None t3 = (s2, Some eA)) as E3.
  { unfold App.assign_number. rewrite Hs2 by lia. vm_compute. reflexivity. }
  rewrite E3. cbn [fst snd].
  assert (App.assign_number s2 "L" 3 None t4 = (s2, None)) as E4.
  { unfold App.assign_number. rewrite Hs2 by lia. vm_compute. reflexivity. }
  rewrite E4. done.
  - intros s u now Hl. unfold Bot.assign_number. rewrite Hl. split.
    + intros i n Hi Ha Hfirst. unfold Bot.lease_first.
      erewrite first_available_Some by eauto. eauto.
    + intros Hnone. unfold Bot.lease_first.
      by rewrite first_available_none.
Qed.

(** C10.  When [change_number] reports exhaustion, the lease index is
    left as it was, no record of the pool is available, and the record
    that the requester's entry names has been released all the same: it
    carries an OTP, is now ["used"] and has neither holder nor
    timestamp, so that the entry names no live lease any more; if that
    record was the only one assigned to the requester, no record is
    assigned to the requester afterwards. *)
Theorem change_number_exhausted (s s' : Bot.StateManager) (u now : Z) :
  Bot.change_number s u now = (s', None) →
  Bot.assignments s' = Bot.assignments s ∧
  (∀ n, n ∈ Bot.numbers s' → ¬ Bot.is_available n) ∧
  Bot.live_lease s' u = None ∧
  ∀ a i n,
    Dict.get u (Bot.assignments s) = Some a →
    Bot._find_number (Bot.numbers s) (Bot.a_number a) = Some (i, n) →
    truthy_str (Bot.last_otp a) = true ∧
    Bot.numbers s' = <[i := Bot.drop "used" n]> (Bot.numbers s) ∧
    Bot._find_number (Bot.numbers s') (Bot.a_number a)
      = Some (i, Bot.drop "used" n) ∧
    ((∀ j m, Bot.numbers s !! j = Some m → Bot.assigned_to m = Some u →
             j = i) →
     ∀ m, m ∈ Bot.numbers s' → Bot.assigned_to m ≠ Some u).
Proof.
  unfold Bot.change_number. intros [-> Hnone]%lease_first_None.
  simpl in *. split; [done|]. split; [done|].
  destruct (Dict.get u (Bot.assignments s)) as [a|] eqn:Ha.
  - destruct (Bot._find_number (Bot.numbers s) (Bot.a_number a))
      as [[i n]|] eqn:Hf.
    + assert (i < length (Bot.numbers s))%nat as Hlen.
      { apply list_find_Some in Hf as [Hi _]. by eapply lookup_lt_Some. }
      destruct (truthy_str (Bot.last_otp a)) eqn:Ht.
      * assert (Bot._find_number
                  (<[i := Bot.drop "used" n]> (Bot.numbers s))
                  (Bot.a_number a) = Some (i, Bot.drop "used" n)) as Hf'
          by (by eapply _find_number_insert).
        split.
        { unfold Bot.live_lease. simpl. rewrite Ha, Hf'.
          by rewrite decide_False. }
        intros a' i' n' Ha' Hf''. simplify_eq.
        split; [done|]. split; [done|]. split; [done|].
        intros Hone m [j Hj]%list_elem_of_lookup Hm.
        destruct (decide (j = i)) as [->|Hne].
        -- rewrite list_lookup_insert_eq in Hj by done.
           by injection Hj as <-.
        -- rewrite list_lookup_insert_ne in Hj by done.
           by specialize (Hone j m Hj Hm).
      * exfalso. apply (Hnone (Bot.drop "available" n)); [|done].
        apply list_elem_of_lookup. exists i.
        by apply list_lookup_insert_eq.
    + split; [|intros ? ? ? [= <-] Hf2; congruence].
      unfold Bot.live_lease. simpl. by rewrite Ha, Hf.
  - split; [|done]. unfold Bot.live_lease. simpl. by rewrite Ha.
Qed.

Lemma change_number_exhausted_witness :
  let n :=
    {| Bot.number := "A"; Bot.status := Some "assigned";
       Bot.assigned_to := Some 1; Bot.assigned_at := Some 100;
       Bot.last_otp_at := Some 150 |} in
  let a :=
    {| Bot.a_number := "A"; Bot.a_assigned_at := 100;
       Bot.last_otp := Some "482913"; Bot.a_last_otp_at := Some 150;
       Bot.reassign_count := 0 |} in
  let s :=
    {| Bot.numbers := [n]; Bot.assignments := [(1, a)];
       Bot.otp_history := [] |} in
  let s' :=
    {| Bot.numbers := [Bot.drop "used" n]; Bot.assignments := [(1, a)];
       Bot.otp_history := [] |} in
  Bot.change_number s 1 200 = (s', None) ∧
  Bot.live_lease s' 1 = None.
Proof.
  intros n a s s'.
  assert (Bot.change_number s 1 200 = (s', None)) as E by reflexivity.
  split; [exact E|].
  exact (proj1 (proj2 (proj2 (change_number_exhausted s s' 1 200 E)))).
Defined.

Lemma assign_number_idempotent_witness :
  let s := (Bot.assign_number BotSpec.pool_AB 1 100).1 in
  ∃ a, Bot.a_number a = "A" ∧
       Bot.assign_number s 1 200 = (s, Some a) ∧
       Bot.assign_number (Bot.assign_number s 1 200).1 1 300 = (s, Some a).
Proof.
  intros s.
  exists {| Bot.a_number := "A"; Bot.a_assigned_at := 100;
            Bot.last_otp := None; Bot.a_last_otp_at := None;
            Bot.reassign_count := 0 |}.
  split; [reflexivity|].
  apply (assign_number_idempotent s 1 _ 200 300).
  split; [vm_compute; reflexivity|]. split; [reflexivity|].
  exists 0%nat, (Bot.take 1 100 (BotSpec.fresh "A")).
  split; vm_compute; reflexivity.
Defined.

Lemma assign_number_first_available_witness :
  Bot.assign_number BotSpec.pool_AB 7 100 =
    ({| Bot.numbers := [Bot.take 7 100 (BotSpec.fresh "A"); BotSpec.fresh "B"];
        Bot.assignments :=
          [(7, {| Bot.a_number := "A"; Bot.a_assigned_at := 100;
                  Bot.last_otp := None; Bot.a_last_otp_at := None;
                  Bot.reassign_count := 0 |})];
        Bot.otp_history := [] |},
     Some {| Bot.a_number := "A"; Bot.a_assigned_at := 100;
             Bot.last_otp := None; Bot.a_last_otp_at := None;
             Bot.reassign_count := 0 |}).
Proof.
  destruct assign_number_first_available as (_ & _ & H).
  assert (Bot.live_lease BotSpec.pool_AB 7 = None) as Hl
    by (vm_compute; reflexivity).
  destruct (H BotSpec.pool_AB 7 100 Hl) as [Hfirst _].
  assert (Bot.is_available (BotSpec.fresh "A")) as Hav
    by (vm_compute; reflexivity).
  destruct (Hfirst 0%nat (BotSpec.fresh "A") eq_refl Hav) as (a & E & Ha).
  - intros j m _ Hj. lia.
  - vm_compute. reflexivity.
Defined.

(** C5 (as the code has it).  [change_number] leases the first
    available record of the pool after the release.  When the requester
    holds N with no OTP recorded, N is released to ["available"]: it is
    handed back whenever no available record precedes it in pool order,
    whatever is available after it, and another number is returned only
    when an available record precedes N. *)
Theorem change_number_first_available (s : Bot.StateManager) (u now : Z)
    (a : Bot.Assignment) (i : nat) (n : Bot.Number) :
  Dict.get u (Bot.assignments s) = Some a →
  Bot._find_number (Bot.numbers s) (Bot.a_number a) = Some (i, n) →
  truthy_str (Bot.last_otp a) = false →
  ((∀ j m, Bot.numbers s !! j = Some m → (j < i)%nat →
           ¬ Bot.is_available m) →
   ∃ s' a', Bot.change_number s u now = (s', Some a') ∧
            Bot.a_number a' = Bot.number n ∧
            Bot.reassign_count a' = (Bot.reassign_count a + 1)%Z ∧
            Bot.numbers s' =
              <[i := Bot.take u now (Bot.drop "available" n)]> (Bot.numbers s)) ∧
  (∀ j m,
     Bot.numbers s !! j = Some m → (j < i)%nat → Bot.is_available m →
     (∀ k m', Bot.numbers s !! k = Some m' → (k < j)%nat →
              ¬ Bot.is_available m') →
     ∃ s' a', Bot.change_number s u now = (s', Some a') ∧
              Bot.a_number a' = Bot.number m ∧
              Bot.numbers s' =
                <[j := Bot.take u now m]>
                  (<[i := Bot.drop "available" n]> (Bot.numbers s))).
Proof.
  intros Ha Hf Ht.
  assert (i < length (Bot.numbers s))%nat as Hlen.
  { apply list_find_Some in Hf as [Hi _]. by eapply lookup_lt_Some. }
  unfold Bot.change_number, Bot.lease_first, Bot.old_count.
  rewrite Ha, Hf, Ht. simpl. split.
  - intros Hbefore.
    assert (Bot.first_available
              (<[i := Bot.drop "available" n]> (Bot.numbers s))
            = Some (i, Bot.drop "available" n)) as ->.
    { apply list_find_Some. split; [by apply list_lookup_insert_eq|].
      split; [done|]. intros j m Hj Hji.
      rewrite list_lookup_insert_ne in Hj by lia. eauto. }
    eexists _, _. split; [reflexivity|]. simpl.
    rewrite list_insert_insert_eq. by rewrite Ha.
  - intros j m Hj Hji Hm Hbefore.
    assert (Bot.first_available
              (<[i := Bot.drop "available" n]> (Bot.numbers s))
            = Some (j, m)) as ->.
    { apply list_find_Some. rewrite list_lookup_insert_ne by lia.
      split; [done|]. split; [done|]. intros k m' Hk Hkj.
      rewrite list_lookup_insert_ne in Hk by lia. eauto. }
    eexists _, _. split; [reflexivity|]. done.
Qed.

Lemma change_number_first_available_witness :
  let held :=
    {| Bot.number := "A"; Bot.status := Some "assigned";
       Bot.assigned_to := Some 1; Bot.assigned_at := Some 100;
       Bot.last_otp_at := None |} in
  let a :=
    {| Bot.a_number := "A"; Bot.a_assigned_at := 100;
       Bot.last_otp := None; Bot.a_last_otp_at := None;
       Bot.reassign_count := 0 |} in
  let s :=
    {| Bot.numbers := [held; BotSpec.fresh "B"];
       Bot.assignments := [(1, a)]; Bot.otp_history := [] |} in
  ∃ s' a', Bot.change_number s 1 200 = (s', Some a') ∧
           Bot.a_number a' = "A".
Proof.
  intros held a s.
  assert (Dict.get 1 (Bot.assignments s) = Some a) as H1
    by (vm_compute; reflexivity).
  assert (Bot._find_number (Bot.numbers s) (Bot.a_number a) = Some (0%nat, held))
    as H2 by (vm_compute; reflexivity).
  assert (truthy_str (Bot.last_otp a) = false) as H3 by reflexivity.
  destruct (change_number_first_available s 1 200 a 0 held H1 H2 H3)
    as [Hfirst _].
  destruct Hfirst as (s' & a' & E & Ha & _).
  - intros j m _ Hj. lia.
  - exists s', a'. split; [exact E | exact Ha].
Defined.

(** C5, the claim as stated, fails: R1 holds A, B is available, and
    [change_number] hands A back to R1. *)
Lemma change_number_hands_back_released :
  ¬ (∀ (s s' : Bot.StateManager) (u now : Z) (a a' : Bot.Assignment)
       (i j : nat) (n m : Bot.Number),
       Dict.get u (Bot.assignments s) = Some a →
       Bot._find_number (Bot.numbers s) (Bot.a_number a) = Some (i, n) →
       Bot.status n = Some "assigned" →
       Bot.numbers s !! j = Some m → j ≠ i → Bot.is_available m →
       Bot.change_number s u now = (s', Some a') →
       Bot.a_number a' ≠ Bot.number n).
Proof.
  intros H.
  set (held :=
    {| Bot.number := "A"; Bot.status := Some "assigned";
       Bot.assigned_to := Some 1; Bot.assigned_at := Some 100;
       Bot.last_otp_at := None |}).
  set (a :=
    {| Bot.a_number := "A"; Bot.a_assigned_at := 100;
       Bot.last_otp := None; Bot.a_last_otp_at := None;
       Bot.reassign_count := 0 |}).
  set (s :=
    {| Bot.numbers := [held; BotSpec.fresh "B"];
       Bot.assignments := [(1, a)]; Bot.otp_history := [] |}).
  refine (H s (Bot.change_number s 1 200).1 1 200 a
            {| Bot.a_number := "A"; Bot.a_assigned_at := 200;
               Bot.last_otp := None; Bot.a_last_otp_at := None;
               Bot.reassign_count := 1 |}
            0%nat 1%nat held (BotSpec.fresh "B") _ _ _ _ _ _ _ _);
    try (vm_compute; reflexivity); try reflexivity.
  lia.
Qed.

(** *** Delivery for a number outside the pool *)

Section unknown_number.
Import Bot BotSpec.

Lemma mark_assignments_none (num otp : string) (now : Z)
    (d : list (Z * Assignment)) (r : option Z) :
  (∀ u a, (u, a) ∈ d → a_number a ≠ num) →
  mark_assignments num otp now d r = (d, r).
Proof.
  induction d as [|[uid info] d IH]; intros Hd; [done|]. simpl.
  rewrite decide_False by (apply (Hd uid); left).
  rewrite IH; [done|]. intros u a Hin. apply (Hd u). by right.
Qed.

Lemma _find_number_None (nums : list Number) (num : string) :
  _find_number nums num = None → ∀ n, n ∈ nums → number n ≠ num.
Proof.
  intros Hf n Hn Heq. apply list_find_None in Hf.
  rewrite Forall_forall in Hf. apply (Hf n Hn). by left.
Qed.

Lemma _normalize_idemp (num : string) :
  App._normalize (App._normalize num) = App._normalize num.
Proof.
  induction num as [|c num IH]; [done|]. simpl.
  destruct (App.is_digit c) eqn:Hc; [|done]. simpl. by rewrite Hc, IH.
Qed.

End unknown_number.

(** C8.  Delivery for a number that the pool does not hold returns no
    holder and changes no record: [deliver_otp] of [app.py] returns the
    store as it is, and [track_otp] of [bot.py], on a store whose lease
    index names pool numbers only, leaves records and lease index as
    they are (it only logs the event). *)
Theorem deliver_unknown_number :
  (∀ (cfg : Bot.Config) (s : Bot.StateManager)
     (num otp service panel : string) (now : Z),
     BotSpec.index_in_pool s →
     Bot._find_number (Bot.numbers s) num = None →
     (Bot.track_otp cfg s num otp service panel now).2 = None ∧
     Bot.numbers (Bot.track_otp cfg s num otp service panel now).1
       = Bot.numbers s ∧
     Bot.assignments (Bot.track_otp cfg s num otp service panel now).1
       = Bot.assignments s) ∧
  (∀ (s : App.DataStore) (num code source : string) (now : Z),
     App.assign_by_number s num = None →
     App.deliver_otp s num code source now = (s, None)).
Proof.
  split.
  - intros cfg s num otp service panel now Hidx Hf.
    unfold Bot.track_otp. rewrite Hf.
    rewrite mark_assignments_none; [done|].
    intros u a Hin Heq. destruct (Hidx u a Hin) as (n & Hn & Hnum).
    eapply _find_number_None; [exact Hf|exact Hn|]. congruence.
  - intros s num code source now Hf. unfold App.deliver_otp.
    unfold App.assign_by_number in *. by rewrite _normalize_idemp, Hf.
Qed.


Lemma deliver_unknown_number_witness :
  let a :=
    {| Bot.a_number := "A"; Bot.a_assigned_at := 100;
       Bot.last_otp := None; Bot.a_last_otp_at := None;
       Bot.reassign_count := 0 |} in
  let s :=
    {| Bot.numbers := [Bot.take 1 100 (BotSpec.fresh "A"); BotSpec.fresh "B"];
       Bot.assignments := [(1, a)]; Bot.otp_history := [] |} in
  let cfg := {| Bot.release_timeout_minutes := 15;
                Bot.keep_used_locked := true |} in
  (Bot.track_otp cfg s "15550000009" "482913" "X" "cr" 150).2 = None ∧
  App.deliver_otp AppSpec.pool_AB "15550000009" "482913" "auto" 150
    = (AppSpec.pool_AB, None).
Proof.
  intros a s cfg. destruct deliver_unknown_number as [Hbot Happ]. split.
  - apply (Hbot cfg s "15550000009" "482913" "X" "cr" 150).
    + intros u a' Hin. exists (Bot.take 1 100 (BotSpec.fresh "A")).
      simpl in Hin. apply list_elem_of_singleton in Hin.
      injection Hin as -> ->. split; [left|reflexivity].
    + vm_compute. reflexivity.
  - apply Happ. vm_compute. reflexivity.
Defined.

(** *** Delivery on a leased number *)

Section deliver_lemmas.
Import Bot BotSpec.

Lemma mark_assignments_names (num otp : string) (now : Z)
    (d : list (Z * Assignment)) (r : option Z) :
  names_of (mark_assignments num otp now d r).1 = names_of d.
Proof.
  revert r. induction d as [|[uid info] d IH]; intros r; [done|]. simpl.
  case_decide.
  - specialize (IH (Some uid)).
    destruct (mark_assignments num otp now d (Some uid)) as [d' user].
    simpl in *. by rewrite IH.
  - specialize (IH r).
    destruct (mark_assignments num otp now d r) as [d' user].
    simpl in *. by rewrite IH.
Qed.

Lemma mark_assignments_keep (num otp : string) (now : Z)
    (d : list (Z * Assignment)) (H : Z) :
  (∀ u, (u, num) ∈ names_of d → u = H) →
  (mark_assignments num otp now d (Some H)).2 = Some H.
Proof.
  induction d as [|[uid info] d IH]; intros Hsole; [done|]. simpl.
  assert (∀ u, (u, num) ∈ names_of d → u = H) as Hsole'
    by (intros u Hu; apply Hsole; by right).
  case_decide as Hn.
  - assert (uid = H) as -> by (apply Hsole; simpl; rewrite Hn; left).
    specialize (IH Hsole').
    by destruct (mark_assignments num otp now d (Some H)) as [d' user].
  - specialize (IH Hsole').
    by destruct (mark_assignments num otp now d (Some H)) as [d' user].
Qed.

Lemma mark_assignments_user (num otp : string) (now : Z)
    (d : list (Z * Assignment)) (r : option Z) (H : Z) :
  (∀ u, (u, num) ∈ names_of d → u = H) →
  (H, num) ∈ names_of d →
  (mark_assignments num otp now d r).2 = Some H.
Proof.
  revert r. induction d as [|[uid info] d IH]; intros r Hsole Hin.
  { by apply elem_of_nil in Hin. }
  assert (∀ u, (u, num) ∈ names_of d → u = H) as Hsole'
    by (intros u Hu; apply Hsole; by right).
  simpl. case_decide as Hn.
  - assert (uid = H) as -> by (apply Hsole; simpl; rewrite Hn; left).
    pose proof (mark_assignments_keep num otp now d H Hsole') as Hk.
    by destruct (mark_assignments num otp now d (Some H)) as [d' user].
  - apply elem_of_cons in Hin as [Heq|Hin]; [simpl in Heq; congruence|].
    specialize (IH r Hsole' Hin).
    by destruct (mark_assignments num otp now d r) as [d' user].
Qed.

Lemma track_otp_found (cfg : Config) (s : StateManager)
    (num otp service panel : string) (now : Z) (i : nat) (n : Number) :
  _find_number (numbers s) num = Some (i, n) →
  track_otp cfg s num otp service panel now =
    let r := mark_assignments num otp now (assignments s) (holder_of n) in
    ({| numbers := <[i := stamp cfg now n]> (numbers s);
        assignments := r.1;
        otp_history :=
          otp_history s ++
          [{| e_number := num; e_otp := otp; e_service := service;
              e_panel := panel; e_timestamp := now;
              e_assigned_user := r.2 |}] |}, r.2).
Proof.
  intros Hf. unfold track_otp. rewrite Hf.
  by destruct (mark_assignments num otp now (assignments s) (holder_of n)).
Qed.

Lemma scan_lists_name (v : string)
    (ls : list (string * list App.NumberEntry)) (l : string)
    (e : App.NumberEntry) :
  App.scan_lists v ls = Some (l, e) → l ∈ ls.*1.
Proof.
  induction ls as [|[name es] ls IH]; [done|]. simpl.
  destruct (list_find (λ e0, App.value e0 = v) es) as [[idx e0]|].
  - intros [= <- <-]. left.
  - intros Hs. right. by apply IH.
Qed.

Lemma scan_lists_update (v : string)
    (ls : list (string * list App.NumberEntry)) (l : string)
    (e e' : App.NumberEntry) :
  NoDup (ls.*1) →
  App.scan_lists v ls = Some (l, e) → App.value e' = App.value e →
  App.scan_lists v (App.update_lists l e' ls) = Some (l, e').
Proof.
  induction ls as [|[name es] ls IH]; [done|]. simpl.
  intros [Hnot Hnd]%NoDup_cons Hs Hv.
  destruct (list_find (λ e0, App.value e0 = v) es) as [[idx e0]|] eqn:Hf.
  - injection Hs as <- <-. rewrite decide_True by done. simpl.
    assert (App.value e0 = v) as Hv0
      by (by apply list_find_Some in Hf as (_ & ? & _)).
    unfold App.update_in. rewrite Hv, Hv0, Hf.
    erewrite list_find_insert_same; [done|exact Hf|]. simpl. congruence.
  - rewrite decide_False.
    + simpl. rewrite Hf. by apply IH.
    + intros ->. apply Hnot. by eapply scan_lists_name.
Qed.

End deliver_lemmas.

(** C2 (as the code has it).  Delivery on a record assigned to a holder
    H (a nonzero id) returns H and retires the record to ["used"], the
    record keeping its holder.  [deliver_otp] of [app.py] removes H from
    the lease index; [track_otp] of [bot.py], with [keep_used_locked]
    and H the only requester whose entry names the number, keeps the
    lease index as it is.  In both variants a second delivery for the
    same number returns H again. *)
Theorem deliver_returns_holder :
  (∀ (cfg : Bot.Config) (s : Bot.StateManager)
     (num otp1 otp2 service panel : string) (t1 t2 : Z)
     (i : nat) (n : Bot.Number) (H : Z),
     Bot.keep_used_locked cfg = true →
     Bot._find_number (Bot.numbers s) num = Some (i, n) →
     Bot.status n = Some "assigned" →
     Bot.assigned_to n = Some H → H ≠ 0%Z →
     (H, num) ∈ BotSpec.lease_names s →
     (∀ u, (u, num) ∈ BotSpec.lease_names s → u = H) →
     let r1 := Bot.track_otp cfg s num otp1 service panel t1 in
     let r2 := Bot.track_otp cfg r1.1 num otp2 service panel t2 in
     r1.2 = Some H ∧
     Bot._find_number (Bot.numbers r1.1) num = Some (i, Bot.stamp cfg t1 n) ∧
     Bot.status (Bot.stamp cfg t1 n) = Some "used" ∧
     Bot.assigned_to (Bot.stamp cfg t1 n) = Some H ∧
     BotSpec.lease_names r1.1 = BotSpec.lease_names s ∧
     r2.2 = Some H) ∧
  (∀ (s : App.DataStore) (num code1 code2 source : string) (t1 t2 : Z)
     (l : string) (e : App.NumberEntry) (H : Z),
     Dict.wf (App.lists s) →
     App.assign_by_number s num = Some (l, e) →
     App.status e = "assigned" →
     App.assigned_to e = Some H → H ≠ 0%Z →
     let r1 := App.deliver_otp s num code1 source t1 in
     let r2 := App.deliver_otp r1.1 num code2 source t2 in
     r1.2 = Some H ∧
     App.assign_by_number r1.1 num
       = Some (l, App.mark_used code1 source t1 e) ∧
     App.status (App.mark_used code1 source t1 e) = "used" ∧
     App.users r1.1 !! Some H = None ∧
     r2.2 = Some H).
Proof.
  split.
  - intros cfg s num otp1 otp2 service panel t1 t2 i n H
      Hk Hf Hst Hto Hnz Hin Hsole r1 r2.
    assert (Bot.holder_of n = Some H) as Hho.
    { unfold Bot.holder_of. rewrite decide_True by done. rewrite Hto. simpl.
      by rewrite (proj2 (Z.eqb_neq H 0) Hnz). }
    assert (Bot._find_number (<[i := Bot.stamp cfg t1 n]> (Bot.numbers s)) num
            = Some (i, Bot.stamp cfg t1 n)) as Hf'
      by (by eapply _find_number_insert).
    assert (Bot.status (Bot.stamp cfg t1 n) = Some "used") as Hused
      by (simpl; by rewrite Hk).
    pose proof (mark_assignments_user num otp1 t1 (Bot.assignments s)
                  (Some H) H Hsole Hin) as Hu1.
    pose proof (mark_assignments_names num otp1 t1 (Bot.assignments s)
                  (Some H)) as Hn1.
    subst r2 r1.
    rewrite (track_otp_found cfg s num otp1 service panel t1 i n Hf), Hho.
    destruct (Bot.mark_assignments num otp1 t1 (Bot.assignments s) (Some H))
      as [d1 u1] eqn:Hm1.
    simpl in Hu1, Hn1. subst u1. cbn [fst snd].
    split; [done|]. split; [exact Hf'|]. split; [exact Hused|].
    split; [exact Hto|]. split; [exact Hn1|].
    match goal with
    | |- (Bot.track_otp cfg ?s1 _ _ _ _ _).2 = _ =>
        rewrite (track_otp_found cfg s1 num otp2 service panel t2 i
                   (Bot.stamp cfg t1 n) Hf')
    end.
    cbn [Bot.assignments].
    pose proof (mark_assignments_user num otp2 t2 d1
                  (Bot.holder_of (Bot.stamp cfg t1 n)) H) as Hu2.
    destruct (Bot.mark_assignments num otp2 t2 d1
                (Bot.holder_of (Bot.stamp cfg t1 n))) as [d2 u2].
    cbn [fst snd] in *. apply Hu2; by rewrite Hn1.
  - intros s num code1 code2 source t1 t2 l e H Hwf Hf Hst Hto Hnz r1 r2.
    unfold App.assign_by_number in Hf.
    assert (App.deliver_otp s num code1 source t1
            = ({| App.lists :=
                    App.update_lists l (App.mark_used code1 source t1 e)
                      (App.lists s);
                  App.users := delete (Some H) (App.users s);
                  App.ttl_seconds := App.ttl_seconds s |}, Some H)) as E1.
    { unfold App.deliver_otp, App.assign_by_number.
      rewrite _normalize_idemp, Hf. simpl. rewrite Hto. simpl.
      by rewrite (proj2 (Z.eqb_neq H 0) Hnz). }
    assert (App.scan_lists (App._normalize num)
              (App.update_lists l (App.mark_used code1 source t1 e)
                 (App.lists s))
            = Some (l, App.mark_used code1 source t1 e)) as Hf'
      by (by apply (scan_lists_update _ _ _ e)).
    subst r2 r1. rewrite E1. simpl.
    split; [done|]. split; [exact Hf'|]. split; [done|].
    split; [apply lookup_delete_eq|].
    unfold App.deliver_otp, App.assign_by_number. simpl.
    rewrite _normalize_idemp, Hf'. simpl. done.
Qed.

Lemma deliver_returns_holder_witness :
  let cfg := {| Bot.release_timeout_minutes := 15;
                Bot.keep_used_locked := true |} in
  let held := Bot.take 1 100 (BotSpec.fresh "15550000001") in
  let a :=
    {| Bot.a_number := "15550000001"; Bot.a_assigned_at := 100;
       Bot.last_otp := None; Bot.a_last_otp_at := None;
       Bot.reassign_count := 0 |} in
  let s :=
    {| Bot.numbers := [held]; Bot.assignments := [(1, a)];
       Bot.otp_history := [] |} in
  let r1 := Bot.track_otp cfg s "15550000001" "482913" "X" "cr" 150 in
  r1.2 = Some 1 ∧
  (Bot.track_otp cfg r1.1 "15550000001" "482913" "X" "cr" 160).2 = Some 1.
Proof.
  intros cfg held a s r1.
  destruct deliver_returns_holder as [Hbot _].
  destruct (Hbot cfg s "15550000001" "482913" "482913" "X" "cr" 150 160
              0%nat held 1) as (E1 & _ & _ & _ & _ & E2).
  - reflexivity.
  - vm_compute. reflexivity.
  - reflexivity.
  - reflexivity.
  - lia.
  - left.
  - intros u Hu. simpl in Hu. apply list_elem_of_singleton in Hu.
    by injection Hu.
  - split; [exact E1 | exact E2].
Defined.

(** C2, the claim as stated, fails: after the first delivery the lease
    index of [bot.py] still maps the holder to the number, and a second
    delivery for the same number returns the holder again. *)
Lemma deliver_twice_returns_holder_again :
  ¬ (∀ (cfg : Bot.Config) (s : Bot.StateManager)
       (num otp service panel : string) (t1 t2 : Z)
       (i : nat) (n : Bot.Number) (H : Z),
       Bot.keep_used_locked cfg = true →
       Bot._find_number (Bot.numbers s) num = Some (i, n) →
       Bot.status n = Some "assigned" →
       Bot.assigned_to n = Some H →
       BotSpec.lease_names s = [(H, num)] →
       let r1 := Bot.track_otp cfg s num otp service panel t1 in
       r1.2 = Some H ∧
       Dict.get H (Bot.assignments r1.1) = None ∧
       (Bot.track_otp cfg r1.1 num otp service panel t2).2 ≠ Some H).
Proof.
  intros Hclaim.
  set (cfg := {| Bot.release_timeout_minutes := 15;
                 Bot.keep_used_locked := true |}).
  set (s :=
    {| Bot.numbers := [Bot.take 1 100 (BotSpec.fresh "15550000001")];
       Bot.assignments :=
         [(1, {| Bot.a_number := "15550000001"; Bot.a_assigned_at := 100;
                 Bot.last_otp := None; Bot.a_last_otp_at := None;
                 Bot.reassign_count := 0 |})];
       Bot.otp_history := [] |}).
  destruct (Hclaim cfg s "15550000001" "482913" "X" "cr" 150 160 0%nat
              (Bot.take 1 100 (BotSpec.fresh "15550000001")) 1)
    as (_ & Hgone & Hagain);
    try reflexivity; try (vm_compute; reflexivity).
  apply Hagain. vm_compute. reflexivity.
Qed.

(** *** The record invariant *)

Section invariant_lemmas.
Import Bot BotSpec.

Lemma record_ok_take (u now : Z) (n : Number) : record_ok (take u now n).
Proof. split; [split; discriminate|]. simpl. congruence. Qed.

Lemma record_ok_drop (st : string) (n : Number) : record_ok (drop st n).
Proof. by split. Qed.

Lemma paired_stamp (cfg : Config) (now : Z) (n : Number) :
  paired n → paired (stamp cfg now n).
Proof. done. Qed.

Lemma lease_first_ok (s : StateManager) (u now bump : Z) :
  Forall record_ok (numbers s) →
  Forall record_ok (numbers (lease_first s u now bump).1).
Proof.
  intros Hs. unfold lease_first.
  destruct (first_available (numbers s)) as [[i n]|]; [|done].
  simpl. apply Forall_insert; [done|apply record_ok_take].
Qed.

Lemma release_expired_loop_ok (cfg : Config) (now : Z) (nums : list Number)
    (asg : list (Z * Assignment)) (acc : list string) :
  Forall record_ok nums →
  Forall record_ok (release_expired_loop cfg now nums asg acc).1.1.
Proof.
  revert asg acc. induction nums as [|num rest IH]; intros asg acc Hs;
    [done|].
  apply Forall_cons in Hs as [Hnum Hrest]. simpl.
  destruct (expired cfg now num).
  - specialize (IH (forget_number (number num) asg)
                  (acc ++ [number num])%list Hrest).
    destruct (release_expired_loop cfg now rest _ _) as [[rest' asg'] acc'].
    simpl in *. apply Forall_cons; split; [apply record_ok_drop|done].
  - specialize (IH asg acc Hrest).
    destruct (release_expired_loop cfg now rest _ _) as [[rest' asg'] acc'].
    simpl in *. by apply Forall_cons.
Qed.

Lemma add_numbers_loop_ok (existing new : list string) :
  Forall record_ok (add_numbers_loop existing new).
Proof.
  induction new as [|num rest IH]; [done|]. simpl.
  case_decide; [done|]. apply Forall_cons; split; [by split|done].
Qed.

End invariant_lemmas.

Section app_invariant_lemmas.
Import App AppSpec.

Lemma record_ok_mark_available (e : NumberEntry) : record_ok (mark_available e).
Proof. by split. Qed.

Lemma record_ok_mark_assigned (u now : Z) (e : NumberEntry) :
  record_ok (mark_assigned u now e).
Proof. split; [split; discriminate|]. simpl. congruence. Qed.

Lemma paired_mark_used (code source : string) (now : Z) (e : NumberEntry) :
  paired e → paired (mark_used code source now e).
Proof. done. Qed.

Lemma update_in_Forall (P : NumberEntry → Prop) (updated : NumberEntry)
    (es : list NumberEntry) :
  P updated → Forall P es → Forall P (update_in updated es).
Proof.
  intros Hu Hes. unfold update_in.
  destruct (list_find _ es) as [[idx e]|]; [|done]. by apply Forall_insert.
Qed.

Lemma update_lists_Forall (P : NumberEntry → Prop) (l : string)
    (updated : NumberEntry) (ls : list (string * list NumberEntry)) :
  P updated →
  Forall P (concat (snd <$> ls)) →
  Forall P (concat (snd <$> update_lists l updated ls)).
Proof.
  intros Hu. induction ls as [|[name es] ls IH]; [done|]. simpl.
  intros [Hes Hls]%Forall_app. case_decide; simpl; apply Forall_app.
  - split; [by apply update_in_Forall|done].
  - split; [done|by apply IH].
Qed.

Lemma reclaim_fst (e : NumberEntry) (us : gmap (option Z) UserEntry) :
  (reclaim e us).1 = mark_available e.
Proof.
  unfold reclaim.
  destruct (us !! assigned_to (mark_available e)); [case_decide|]; done.
Qed.

Lemma sweep_entries_ok (ttl now : Z) (es : list NumberEntry)
    (us : gmap (option Z) UserEntry) :
  Forall record_ok es → Forall record_ok (sweep_entries ttl now es us).1.
Proof.
  revert us. induction es as [|e rest IH]; intros us Hes; [done|].
  apply Forall_cons in Hes as [He Hrest]. simpl.
  destruct (stale ttl now e).
  - pose proof (reclaim_fst e us) as Hr.
    destruct (reclaim e us) as [e' us1]. simpl in Hr. subst e'.
    specialize (IH us1 Hrest).
    destruct (sweep_entries ttl now rest us1) as [rest' us'].
    simpl in *. apply Forall_cons; split;
      [apply record_ok_mark_available|done].
  - specialize (IH us Hrest).
    destruct (sweep_entries ttl now rest us) as [rest' us'].
    simpl in *. by apply Forall_cons.
Qed.

Lemma sweep_lists_ok (ttl now : Z) (ls : list (string * list NumberEntry))
    (us : gmap (option Z) UserEntry) :
  Forall record_ok (concat (snd <$> ls)) →
  Forall record_ok (concat (snd <$> (sweep_lists ttl now ls us).1)).
Proof.
  revert us. induction ls as [|[name es] ls IH]; intros us; [done|]. simpl.
  intros [Hes Hls]%Forall_app.
  pose proof (sweep_entries_ok ttl now es us Hes) as H1.
  destruct (sweep_entries ttl now es us) as [es' us'].
  specialize (IH us' Hls).
  destruct (sweep_lists ttl now ls us') as [ls' us''].
  simpl in *. by apply Forall_app.
Qed.

Lemma _release_expired_ok (s : DataStore) (now : Z) :
  Forall record_ok (entries s) →
  Forall record_ok (entries (_release_expired s now)).
Proof.
  intros Hs. unfold _release_expired, entries.
  pose proof (sweep_lists_ok (ttl_seconds s) now (lists s) (users s) Hs) as H.
  by destruct (sweep_lists (ttl_seconds s) now (lists s) (users s)).
Qed.

Lemma release_number_ok (s : DataStore) (u : Z) :
  Forall record_ok (entries s) →
  Forall record_ok (entries (release_number s u).1).
Proof.
  intros Hs. unfold release_number.
  destruct (user_assignment s u) as [current|]; [|done].
  destruct (_entry_by_value s (u_list current) (u_number current));
    [|done].
  unfold entries. simpl.
  apply update_lists_Forall; [apply record_ok_mark_available|done].
Qed.

Lemma assign_fresh_ok (s : DataStore) (l : string) (u : Z)
    (un : option string) (now : Z) :
  Forall record_ok (entries s) →
  Forall record_ok (entries (assign_fresh s l u un now).1).
Proof.
  intros Hs. unfold assign_fresh.
  destruct (list_find _ (numbers_of s l)) as [[idx e]|]; [|done].
  unfold entries. simpl.
  apply update_lists_Forall; [apply record_ok_mark_assigned|done].
Qed.

Lemma scan_lists_elem (v : string) (ls : list (string * list NumberEntry))
    (l : string) (e : NumberEntry) :
  scan_lists v ls = Some (l, e) → e ∈ concat (snd <$> ls).
Proof.
  induction ls as [|[name es] ls IH]; [done|]. simpl.
  destruct (list_find (λ e0, value e0 = v) es) as [[idx e0]|] eqn:Hf.
  - intros [= <- <-]. apply elem_of_app. left.
    apply list_find_Some in Hf as [Hi _]. by eapply list_elem_of_lookup_2.
  - intros Hs. apply elem_of_app. right. by apply IH.
Qed.

End app_invariant_lemmas.

(** C6 (as the code has it).  Assign, change, release, reclaim-expired,
    block and add keep the record invariant in both variants.  Delivery
    keeps holder and timestamp paired but does not clear them: the
    record it retires to ["used"] keeps both. *)
Theorem operations_keep_record_invariant :
  (∀ s : Bot.StateManager,
     Forall BotSpec.record_ok (Bot.numbers s) →
     (∀ u now, Forall BotSpec.record_ok
                 (Bot.numbers (Bot.assign_number s u now).1)) ∧
     (∀ u now, Forall BotSpec.record_ok
                 (Bot.numbers (Bot.change_number s u now).1)) ∧
     (∀ num mu, Forall BotSpec.record_ok
                  (Bot.numbers (Bot.release_number s num mu).1)) ∧
     (∀ cfg now, Forall BotSpec.record_ok
                   (Bot.numbers (Bot.release_expired cfg s now).1)) ∧
     (∀ num, Forall BotSpec.record_ok
               (Bot.numbers (Bot.block_number s num).1)) ∧
     (∀ new, Forall BotSpec.record_ok
               (Bot.numbers (Bot.add_numbers s new).1))) ∧
  (∀ (s : Bot.StateManager) cfg num otp service panel now,
     Forall BotSpec.paired (Bot.numbers s) →
     Forall BotSpec.paired
       (Bot.numbers (Bot.track_otp cfg s num otp service panel now).1)) ∧
  (∀ s : App.DataStore,
     Forall AppSpec.record_ok (AppSpec.entries s) →
     (∀ now, Forall AppSpec.record_ok
               (AppSpec.entries (App._release_expired s now))) ∧
     (∀ l u un now, Forall AppSpec.record_ok
                      (AppSpec.entries (App.assign_number s l u un now).1)) ∧
     (∀ u, Forall AppSpec.record_ok
             (AppSpec.entries (App.release_number s u).1))) ∧
  (∀ (s : App.DataStore) num code source now,
     Forall AppSpec.paired (AppSpec.entries s) →
     Forall AppSpec.paired
       (AppSpec.entries (App.deliver_otp s num code source now).1)).
Proof.
  split; [|split; [|split]].
  - intros s Hs. repeat split.
    + intros u now. unfold Bot.assign_number.
      destruct (Bot.live_lease s u); [done|]. by apply lease_first_ok.
    + intros u now. unfold Bot.change_number. apply lease_first_ok. simpl.
      destruct (Dict.get u (Bot.assignments s)) as [a|]; [|done].
      destruct (Bot._find_number _ _) as [[i n]|]; [|done].
      apply Forall_insert; [done|apply record_ok_drop].
    + intros num mu. unfold Bot.release_number.
      destruct (Bot._find_number _ _) as [[i n]|]; [|done]. simpl.
      apply Forall_insert; [done|apply record_ok_drop].
    + intros cfg now. unfold Bot.release_expired.
      pose proof (release_expired_loop_ok cfg now (Bot.numbers s)
                    (Bot.assignments s) [] Hs) as H.
      by destruct (Bot.release_expired_loop _ _ _ _ _) as [[nums asg] acc].
    + intros num. unfold Bot.block_number.
      destruct (Bot._find_number _ _) as [[i n]|]; [|done]. simpl.
      apply Forall_insert; [done|apply record_ok_drop].
    + intros new. simpl. apply Forall_app. split; [done|].
      apply add_numbers_loop_ok.
  - intros s cfg num otp service panel now Hs. unfold Bot.track_otp.
    destruct (Bot._find_number (Bot.numbers s) num) as [[i n]|] eqn:Hf.
    + destruct (Bot.mark_assignments _ _ _ _ _) as [asg user]. simpl.
      apply Forall_insert; [done|]. apply paired_stamp.
      apply list_find_Some in Hf as [Hi _].
      rewrite Forall_forall in Hs. apply Hs.
      by eapply list_elem_of_lookup_2.
    + by destruct (Bot.mark_assignments _ _ _ _ _) as [asg user].
  - intros s Hs. repeat split.
    + intros now. by apply _release_expired_ok.
    + intros l u un now. unfold App.assign_number.
      pose proof (_release_expired_ok s now Hs) as H1.
      destruct (Dict.get l (App.lists (App._release_expired s now)));
        [|done].
      destruct (App.user_assignment _ u) as [current|].
      * case_decide; [done|].
        apply assign_fresh_ok. by apply release_number_ok.
      * by apply assign_fresh_ok.
    + intros u. by apply release_number_ok.
  - intros s num code source now Hs. unfold App.deliver_otp.
    destruct (App.assign_by_number s (App._normalize num))
      as [[l e]|] eqn:Hf; [|done].
    unfold AppSpec.entries. simpl.
    apply update_lists_Forall; [|done]. apply paired_mark_used.
    rewrite Forall_forall in Hs. apply Hs.
    unfold App.assign_by_number in Hf. by eapply scan_lists_elem.
Qed.

Lemma operations_keep_record_invariant_witness :
  let s :=
    {| Bot.numbers := [Bot.take 1 100 (BotSpec.fresh "A"); BotSpec.fresh "B"];
       Bot.assignments :=
         [(1, {| Bot.a_number := "A"; Bot.a_assigned_at := 100;
                 Bot.last_otp := None; Bot.a_last_otp_at := None;
                 Bot.reassign_count := 0 |})];
       Bot.otp_history := [] |} in
  Forall BotSpec.record_ok (Bot.numbers (Bot.change_number s 1 200).1).
Proof.
  intros s. destruct operations_keep_record_invariant as [Hbot _].
  assert (Forall BotSpec.record_ok (Bot.numbers s)) as Hs.
  { apply Forall_cons; split; [apply record_ok_take|].
    apply Forall_cons; split; [by split|constructor]. }
  exact (proj1 (proj2 (Hbot s Hs)) 1 200).
Defined.

(** C6, the claim as stated, fails for delivery: the record that
    [track_otp] retires to ["used"] still carries its holder. *)
Lemma track_otp_breaks_record_invariant :
  ¬ (∀ (cfg : Bot.Config) (s : Bot.StateManager)
       (num otp service panel : string) (now : Z),
       Forall BotSpec.record_ok (Bot.numbers s) →
       Forall BotSpec.record_ok
         (Bot.numbers (Bot.track_otp cfg s num otp service panel now).1)).
Proof.
  intros Hclaim.
  set (cfg := {| Bot.release_timeout_minutes := 15;
                 Bot.keep_used_locked := true |}).
  set (s :=
    {| Bot.numbers := [Bot.take 1 100 (BotSpec.fresh "A")];
       Bot.assignments :=
         [(1, {| Bot.a_number := "A"; Bot.a_assigned_at := 100;
                 Bot.last_otp := None; Bot.a_last_otp_at := None;
                 Bot.reassign_count := 0 |})];
       Bot.otp_history := [] |}).
  assert (Forall BotSpec.record_ok (Bot.numbers s)) as Hs.
  { apply Forall_cons; split; [apply record_ok_take|constructor]. }
  specialize (Hclaim cfg s "A" "482913" "X" "cr" 150 Hs).
  assert (Bot.numbers (Bot.track_otp cfg s "A" "482913" "X" "cr" 150).1
          = [Bot.stamp cfg 150 (Bot.take 1 100 (BotSpec.fresh "A"))]) as E
    by (vm_compute; reflexivity).
  rewrite E in Hclaim. apply Forall_cons in Hclaim as [[_ Hclear] _].
  destruct Hclear as [Hto _]; [simpl; discriminate|]. discriminate Hto.
Qed.

(** The same in [app.py]: [deliver_otp] leaves the holder on the entry it
    marks ["used"]. *)
Lemma deliver_otp_breaks_record_invariant :
  let e := App.mark_assigned 1 100 (AppSpec.fresh "15550000001") in
  let s := {| App.lists := [("L", [e])]; App.users := ∅;
              App.ttl_seconds := 3600 |} in
  AppSpec.entries (App.deliver_otp s "15550000001" "482913" "auto" 150).1
    = [App.mark_used "482913" "auto" 150 e] ∧
  App.status (App.mark_used "482913" "auto" 150 e) = "used" ∧
  App.assigned_to (App.mark_used "482913" "auto" 150 e) = Some 1.
Proof. intros e s. split; [vm_compute; reflexivity|]. by split. Qed.

(** *** Loading the store *)

(** C9 fails in [app.py]: [DataStore._load] lets the decode error of
    unparseable content escape, so constructing the store fails. *)
Theorem app_load_unparseable_raises :
  App._load Unparseable App.empty_data = Raise JSONDecodeError.
Proof. reflexivity. Qed.

(** [load_json] of [bot.py] and [load_data_store] of the third variant
    fall back to the default on unparseable content, and leave the file
    as it is. *)
Lemma load_json_unparseable (default : json) :
  Bot.load_json Unparseable default = (Return default, Unparseable).
Proof. reflexivity. Qed.

Lemma load_data_store_unparseable :
  Part000.load_data_store Unparseable = Part000.load_data_store Missing ∧
  Part000.load_data_store Unparseable =
    Return (JObj [("users", JObj []); ("number_pools", JObj []);
                  ("assignments", JArr []); ("otp_deliveries", JArr [])]).
Proof. split; reflexivity. Qed.

(** *** Reclaiming expired leases *)

Section reclaim_lemmas.
Import Bot BotSpec.

Lemma expired_reclaimable (cfg : Config) (now : Z) (n : Number) :
  expired cfg now n = true ↔ reclaimable cfg now n.
Proof.
  unfold expired, reclaimable. split.
  - case_decide as Hs; [done|].
    destruct (assigned_at n) as [t|]; [|done].
    intros [Hle Hotp]%andb_prop. split; [done|]. exists t.
    split; [done|]. split; [by apply Z.leb_le|].
    by destruct (last_otp_at n).
  - intros (Hs & t & -> & Hle & ->). rewrite decide_False by (by intros []).
    apply andb_true_intro. split; [by apply Z.leb_le|done].
Qed.

Lemma release_expired_loop_spec (cfg : Config) (now : Z)
    (nums : list Number) (asg : list (Z * Assignment)) (acc : list string) :
  let r := release_expired_loop cfg now nums asg acc in
  r.1.1 = swept cfg now <$> nums ∧
  r.2 = (acc ++ reclaimed cfg now nums)%list ∧
  ∀ kv, kv ∈ r.1.2 ↔ kv ∈ asg ∧ a_number kv.2 ∉ reclaimed cfg now nums.
Proof.
  revert asg acc. induction nums as [|num rest IH]; intros asg acc.
  { simpl. split; [done|]. split; [by rewrite app_nil_r|].
    intros kv. unfold reclaimed. simpl. split; [|tauto].
    intros Hkv. split; [done|]. apply not_elem_of_nil. }
  simpl. unfold swept at 1, reclaimed.
  destruct (expired cfg now num) eqn:He.
  - rewrite filter_cons_True by done. simpl.
    destruct (IH (forget_number (number num) asg) (acc ++ [number num])%list)
      as (IH1 & IH2 & IH3).
    destruct (release_expired_loop cfg now rest _ _) as [[rest' asg'] acc'].
    simpl in *. subst. split; [done|].
    split; [by rewrite <- app_assoc|].
    intros kv. rewrite IH3. unfold forget_number.
    rewrite list_elem_of_filter, not_elem_of_cons. tauto.
  - rewrite filter_cons_False by (by rewrite He).
    destruct (IH asg acc) as (IH1 & IH2 & IH3).
    destruct (release_expired_loop cfg now rest asg acc)
      as [[rest' asg'] acc'].
    simpl in *. by subst.
Qed.

Lemma release_expired_numbers (cfg : Config) (s : StateManager) (now : Z) :
  numbers (release_expired cfg s now).1 = swept cfg now <$> numbers s.
Proof.
  unfold release_expired.
  destruct (release_expired_loop_spec cfg now (numbers s) (assignments s) [])
    as (H1 & _ & _).
  by destruct (release_expired_loop _ _ _ _ _) as [[nums asg] acc].
Qed.

Lemma release_expired_assignments (cfg : Config) (s : StateManager) (now : Z)
    (kv : Z * Assignment) :
  kv ∈ assignments (release_expired cfg s now).1 ↔
  kv ∈ assignments s ∧ a_number kv.2 ∉ reclaimed cfg now (numbers s).
Proof.
  unfold release_expired.
  destruct (release_expired_loop_spec cfg now (numbers s) (assignments s) [])
    as (_ & _ & H3).
  destruct (release_expired_loop _ _ _ _ _) as [[nums asg] acc].
  apply H3.
Qed.

Lemma release_expired_keeps (cfg : Config) (s : StateManager) (now : Z)
    (i : nat) (n : Number) :
  numbers s !! i = Some n → ¬ reclaimable cfg now n →
  numbers (release_expired cfg s now).1 !! i = Some n.
Proof.
  intros Hi Hnr. rewrite release_expired_numbers, list_lookup_fmap, Hi.
  simpl. unfold swept. destruct (expired cfg now n) eqn:He; [|done].
  by apply expired_reclaimable in He.
Qed.

End reclaim_lemmas.

(** [release_expired] of [bot.py] does what the specification asks of
    reclamation: a record that is assigned, past its TTL and without an
    OTP becomes available with holder and timestamp cleared, its number
    is reported and no lease entry names it any more; every other
    record is left as it is; nothing else is reported; and the lease
    index loses exactly the entries naming a reported number. *)
Theorem release_expired_reclaims (cfg : Bot.Config) (s : Bot.StateManager)
    (now : Z) :
  let r := Bot.release_expired cfg s now in
  (∀ i n, Bot.numbers s !! i = Some n → BotSpec.reclaimable cfg now n →
          Bot.numbers r.1 !! i = Some (Bot.drop "available" n) ∧
          Bot.number n ∈ r.2 ∧
          ∀ u a, (u, a) ∈ Bot.assignments r.1 →
                 Bot.a_number a ≠ Bot.number n) ∧
  (∀ i n, Bot.numbers s !! i = Some n → ¬ BotSpec.reclaimable cfg now n →
          Bot.numbers r.1 !! i = Some n) ∧
  (∀ x, x ∈ r.2 →
        ∃ n, n ∈ Bot.numbers s ∧ BotSpec.reclaimable cfg now n ∧
             Bot.number n = x) ∧
  (∀ kv, kv ∈ Bot.assignments r.1 ↔
         kv ∈ Bot.assignments s ∧ Bot.a_number kv.2 ∉ r.2).
Proof.
  intros r. subst r. unfold Bot.release_expired.
  destruct (release_expired_loop_spec cfg now (Bot.numbers s)
              (Bot.assignments s) []) as (H1 & H2 & H3).
  destruct (Bot.release_expired_loop cfg now (Bot.numbers s)
              (Bot.assignments s) []) as [[nums asg] acc].
  simpl in *. subst nums acc.
  assert (∀ n, n ∈ Bot.numbers s → BotSpec.reclaimable cfg now n →
               Bot.number n ∈ BotSpec.reclaimed cfg now (Bot.numbers s))
    as Hin.
  { intros n Hn Hr. apply list_elem_of_fmap_2, list_elem_of_filter.
    split; [by apply expired_reclaimable|done]. }
  split; [|split; [|split]].
  - intros i n Hi Hr. split; [|split].
    + rewrite list_lookup_fmap, Hi. simpl. unfold BotSpec.swept.
      by rewrite (proj2 (expired_reclaimable cfg now n) Hr).
    + apply Hin; [by eapply list_elem_of_lookup_2|done].
    + intros u a Hua Heq. apply H3 in Hua as [_ Hnot]. apply Hnot.
      simpl. rewrite Heq.
      apply Hin; [by eapply list_elem_of_lookup_2|done].
  - intros i n Hi Hnr. rewrite list_lookup_fmap, Hi. simpl.
    unfold BotSpec.swept. destruct (Bot.expired cfg now n) eqn:He; [|done].
    by apply expired_reclaimable in He.
  - intros x (n & -> & [He Hn]%list_elem_of_filter)%list_elem_of_fmap.
    exists n. split; [done|]. split; [by apply expired_reclaimable|done].
  - intros kv. apply H3.
Qed.

Lemma release_expired_reclaims_witness :
  let cfg := {| Bot.release_timeout_minutes := 60;
                Bot.keep_used_locked := true |} in
  let held := Bot.take 1 0 (BotSpec.fresh "15550000001") in
  let s :=
    {| Bot.numbers := [held];
       Bot.assignments :=
         [(1, {| Bot.a_number := "15550000001"; Bot.a_assigned_at := 0;
                 Bot.last_otp := None; Bot.a_last_otp_at := None;
                 Bot.reassign_count := 0 |})];
       Bot.otp_history := [] |} in
  let r := Bot.release_expired cfg s 3600000000 in
  Bot.numbers r.1 !! 0%nat = Some (Bot.drop "available" held) ∧
  "15550000001" ∈ r.2 ∧
  Bot.assignments r.1 = [].
Proof.
  intros cfg held s r.
  destruct (release_expired_reclaims cfg s 3600000000) as (Hrec & _ & _ & _).
  destruct (Hrec 0%nat held eq_refl) as (H1 & H2 & _).
  - split; [reflexivity|]. exists 0%Z.
    split; [reflexivity|]. split; [vm_compute; discriminate|reflexivity].
  - split; [exact H1|]. split; [exact H2|]. vm_compute. reflexivity.
Defined.

(** C1 fails in [app.py].  R1 holds 15550000001 since clock reading
    1000 with a TTL of 3600.  At reading 4600, when exactly the TTL has
    elapsed, [_release_expired] reclaims nothing.  At reading 5000 it
    makes the entry available but leaves R1 in the user index, which
    still names the number. *)
Theorem app_release_expired_keeps_index :
  let e := App.mark_assigned 1 1000 (AppSpec.fresh "15550000001") in
  let u := {| App.u_list := "L"; App.u_number := "15550000001";
              App.u_assigned_at := Some 1000; App.username := None |} in
  let s := {| App.lists := [("L", [e])]; App.users := {[ Some 1 := u ]};
              App.ttl_seconds := 3600 |} in
  App._release_expired s 4600 = s ∧
  App.lists (App._release_expired s 5000) = [("L", [App.mark_available e])] ∧
  App.users (App._release_expired s 5000) !! Some 1 = Some u.
Proof. intros e u s. repeat split; vm_compute; reflexivity. Qed.

(** *** The OTP matcher *)

Section regex_lemmas.
Context {C : Type} `{EqDecision C}.
Variables isdigit isword : C → bool.
Variable hyphen : C.
Import Regex RegexSpec.

Lemma last_or_cons (prev : option C) (c : C) (d : list C) :
  last_or prev (c :: d) = last_or (Some c) d.
Proof.
  unfold last_or. destruct d as [|c0 d]; [done|].
  change (last (c :: c0 :: d)) with (last (c0 :: d)).
  destruct (last (c0 :: d)) eqn:E; [done|]. by apply last_None in E.
Qed.

Lemma last_or_app (prev : option C) (a b : list C) :
  last_or prev (a ++ b)%list = last_or (last_or prev a) b.
Proof.
  revert prev. induction a as [|c a IH]; intros prev; [done|].
  simpl. rewrite !last_or_cons. apply IH.
Qed.

Lemma last_or_None (m : list C) : last_or None m = last m.
Proof. unfold last_or. by destruct (last m). Qed.

Lemma match_digits (k : nat) (pat : list atom) (prev : option C)
    (s m : list C) :
  match_here isdigit isword (digits k ++ pat)%list prev s = Some m ↔
  ∃ d s' m', s = (d ++ s')%list ∧ length d = k ∧ all_digits isdigit d ∧
             match_here isdigit isword pat (last_or prev d) s' = Some m' ∧
             m = (d ++ m')%list.
Proof.
  revert prev s m. induction k as [|k IH]; intros prev s m.
  - simpl. split.
    + intros Hm. exists [], s, m. repeat split; [constructor|done].
    + intros (d & s' & m' & -> & Hd & _ & Hm & ->).
      apply nil_length_inv in Hd as ->. done.
  - simpl. destruct s as [|c s].
    + split; [done|]. intros (d & s' & m' & Hs & Hd & _).
      destruct d; [done|]. discriminate Hs.
    + destruct (isdigit c) eqn:Hc.
      * rewrite fmap_Some. split.
        -- intros (m1 & (d & s' & m' & -> & Hd & Hall & Hm & ->)%IH & ->).
           exists (c :: d), s', m'. rewrite last_or_cons.
           repeat split; [by simpl; rewrite Hd|by constructor|done].
        -- intros (d & s' & m' & Hs & Hd & Hall & Hm & ->).
           destruct d as [|c' d]; [done|]. simpl in Hs, Hd.
           injection Hs as <- ->. injection Hd as Hd.
           apply Forall_cons in Hall as [_ Hall]. rewrite last_or_cons in Hm.
           exists (d ++ m')%list. split; [|done]. apply IH.
           by exists d, s', m'.
      * split; [done|]. intros (d & s' & m' & Hs & Hd & Hall & _).
        destruct d as [|c' d]; [done|]. simpl in Hs. injection Hs as <- ->.
        apply Forall_cons in Hall as [Hc' _]. congruence.
Qed.

Lemma match_boundary (pat : list atom) (prev : option C) (s : list C) :
  match_here isdigit isword (Boundary :: pat) prev s =
    if xorb (word isword prev) (word isword (head s))
    then match_here isdigit isword pat prev s else None.
Proof. done. Qed.

Lemma match_lit (a : C) (pat : list atom) (prev : option C) (s m : list C) :
  match_here isdigit isword (Lit a :: pat) prev s = Some m ↔
  ∃ s' m', s = a :: s' ∧
           match_here isdigit isword pat (Some a) s' = Some m' ∧
           m = a :: m'.
Proof.
  simpl. destruct s as [|c s].
  - split; [done|]. by intros (s' & m' & Hs & _).
  - case_decide as Hc.
    + subst c. rewrite fmap_Some. split.
      * intros (m' & Hm & ->). by exists s, m'.
      * intros (s' & m' & [= <-] & Hm & ->). by exists m'.
    + split; [done|]. intros (s' & m' & [= Hca _] & _). done.
Qed.

Lemma match_run (k : nat) (prev : option C) (s m : list C) :
  match_here isdigit isword (Boundary :: digits k ++ [Boundary])%list prev s
    = Some m ↔
  ∃ post, s = (m ++ post)%list ∧ run isdigit isword k prev m post.
Proof.
  rewrite match_boundary. unfold run, boundary. split.
  - destruct (xorb _ _) eqn:Hb; [|done].
    intros (d & s' & m' & -> & Hd & Hall & Hm & ->)%match_digits.
    rewrite match_boundary in Hm.
    destruct (xorb _ _) eqn:Hb' in Hm; [|done]. injection Hm as <-.
    rewrite app_nil_r. by exists s'.
  - intros (post & -> & Hd & Hall & Hb & Hb'). rewrite Hb.
    apply match_digits. exists m, post, []. rewrite app_nil_r.
    repeat split; [done..|]. rewrite match_boundary. by rewrite Hb'.
Qed.

Lemma match_hyphenated (prev : option C) (s m : list C) :
  match_here isdigit isword
    (Boundary :: digits 3 ++ Lit hyphen :: digits 3 ++ [Boundary])%list
    prev s = Some m ↔
  ∃ post, s = (m ++ post)%list ∧ hyphenated isdigit isword hyphen prev m post.
Proof.
  rewrite match_boundary. unfold hyphenated, boundary. split.
  - destruct (xorb _ _) eqn:Hb; [|done].
    intros (a & s1 & m1 & -> & Ha & Halla & Hm & ->)%match_digits.
    apply match_lit in Hm as (s2 & m2 & -> & Hm & ->).
    apply match_digits in Hm as (b & s3 & m3 & -> & Hlb & Hallb & Hm & ->).
    rewrite match_boundary in Hm.
    destruct (xorb _ _) eqn:Hb' in Hm; [|done]. injection Hm as <-.
    rewrite app_nil_r. exists s3. split; [by rewrite <- app_assoc|].
    exists a, b. rewrite <- app_assoc. simpl.
    repeat split; [done..|].
    by rewrite last_or_app, last_or_cons.
  - intros (post & -> & a & b & -> & Ha & Hlb & Halla & Hallb & Hb & Hb').
    rewrite Hb. apply match_digits.
    exists a, (hyphen :: b ++ post)%list, (hyphen :: b)%list.
    split; [by rewrite <- app_assoc|]. repeat split; [done..|].
    apply match_lit. exists (b ++ post)%list, b.
    split; [done|]. split; [|done]. apply match_digits.
    exists b, post, []. rewrite app_nil_r. repeat split; [done..|].
    rewrite match_boundary.
    rewrite last_or_app, last_or_cons in Hb'. by rewrite Hb'.
Qed.

(** [search] returns the leftmost occurrence, and nothing when there is
    none, for any pattern whose match at a position is described by
    [P]. *)
Section search.
Variable pat : list (@atom C).
Variable P : option C → list C → list C → Prop.
Hypothesis Hpat : ∀ prev s m,
  match_here isdigit isword pat prev s = Some m ↔
  ∃ post, s = (m ++ post)%list ∧ P prev m post.

Lemma search_from_spec (s : list C) (prev0 : option C) :
  (∀ m pre post,
     s = (pre ++ m ++ post)%list → P (last_or prev0 pre) m post →
     (∀ pre' m' post', s = (pre' ++ m' ++ post')%list →
        (length pre' < length pre)%nat → ¬ P (last_or prev0 pre') m' post') →
     search_from isdigit isword pat prev0 s = Some m) ∧
  ((∀ pre m post, s = (pre ++ m ++ post)%list →
                  ¬ P (last_or prev0 pre) m post) →
   search_from isdigit isword pat prev0 s = None).
Proof.
  revert prev0. induction s as [|c s IH]; intros prev0.
  - split.
    + intros m pre post Hs HP _.
      destruct pre; [|done]. simpl in Hs. simpl.
      assert (match_here isdigit isword pat prev0 [] = Some m) as ->; [|done].
      apply Hpat. by exists post.
    + intros Hno. simpl.
      destruct (match_here isdigit isword pat prev0 []) as [m|] eqn:Hm;
        [|done].
      apply Hpat in Hm as (post & Hs & HP).
      by destruct (Hno [] m post).
  - split.
    + intros m pre post Hs HP Hleft. simpl.
      destruct pre as [|c' pre].
      * assert (match_here isdigit isword pat prev0 (c :: s) = Some m) as ->;
          [|done].
        apply Hpat. by exists post.
      * simpl in Hs. injection Hs as <- ->.
        destruct (match_here isdigit isword pat prev0 (c :: pre ++ m ++ post))
          as [m0|] eqn:Hm0.
        { apply Hpat in Hm0 as (post0 & Hs0 & HP0).
          destruct (Hleft [] m0 post0); [by subst|simpl; lia|done]. }
        rewrite last_or_cons in HP.
        apply (proj1 (IH (Some c)) m pre post); [done|done|].
        intros pre' m' post' Hs' Hlt HP'.
        apply (Hleft (c :: pre') m' post'); [by simpl; rewrite Hs'|simpl; lia|].
        by rewrite last_or_cons.
    + intros Hno. simpl.
      destruct (match_here isdigit isword pat prev0 (c :: s)) as [m|] eqn:Hm.
      { apply Hpat in Hm as (post & Hs & HP). by destruct (Hno [] m post). }
      apply (proj2 (IH (Some c))). intros pre m post Hs HP.
      apply (Hno (c :: pre) m post); [by simpl; rewrite Hs|].
      by rewrite last_or_cons.
Qed.

Lemma search_leftmost (msg m : list C) :
  leftmost P msg m → search isdigit isword pat msg = Some m.
Proof.
  intros (pre & post & Hs & HP & Hleft). unfold search.
  apply (proj1 (search_from_spec msg None) m pre post);
    [done|by rewrite last_or_None|].
  intros pre' m' post' Hs' Hlt. rewrite last_or_None. by apply Hleft.
Qed.

Lemma search_nowhere (msg : list C) :
  nowhere P msg → search isdigit isword pat msg = None.
Proof.
  intros Hno. unfold search. apply (proj2 (search_from_spec msg None)).
  intros pre m post Hs. rewrite last_or_None. by apply Hno.
Qed.

End search.

End regex_lemmas.

Section extract_lemmas.
Context {C : Type} `{EqDecision C}.
Variables isdigit isword : C → bool.
Variable hyphen : C.
Hypothesis digit_hyphen : isdigit hyphen = false.
Import RegexSpec.

Lemma strip_hyphen_digits (m : list C) :
  all_digits isdigit m → Bot.strip_hyphen hyphen m = m.
Proof.
  intros Hm. unfold Bot.strip_hyphen.
  induction Hm as [|c m Hc Hm IH]; [done|].
  rewrite filter_cons_True by congruence. by rewrite IH.
Qed.

Lemma strip_hyphen_hyphenated (a b : list C) :
  all_digits isdigit a → all_digits isdigit b →
  Bot.strip_hyphen hyphen (a ++ hyphen :: b)%list = (a ++ b)%list.
Proof.
  intros Ha Hb. unfold Bot.strip_hyphen. rewrite filter_app.
  rewrite filter_cons_False by (by intros []).
  pose proof (strip_hyphen_digits a Ha) as Ea.
  pose proof (strip_hyphen_digits b Hb) as Eb.
  unfold Bot.strip_hyphen in Ea, Eb. by rewrite Ea, Eb.
Qed.

End extract_lemmas.

(** C7 (as the code has it).  On an alphabet whose hyphen is no digit,
    [extract_otp] of [bot.py] tries four patterns in order, the first
    one that occurs winning with its leftmost occurrence: a run of
    exactly six digits between word boundaries, then such a run of four
    digits, then three digits, a hyphen and three digits between word
    boundaries (returned without the hyphen), then such a run of eight
    digits; it returns nothing when none of the four occurs. *)
Theorem extract_otp_ordered {C : Type} `{EqDecision C}
    (isdigit isword : C → bool) (hyphen : C) (msg : list C) :
  isdigit hyphen = false →
  let extract := Bot.extract_otp isdigit isword hyphen in
  let run := RegexSpec.run isdigit isword in
  let hyph := RegexSpec.hyphenated isdigit isword hyphen in
  (∀ m, RegexSpec.leftmost (run 6%nat) msg m → extract msg = Some m) ∧
  (RegexSpec.nowhere (run 6%nat) msg →
   ∀ m, RegexSpec.leftmost (run 4%nat) msg m → extract msg = Some m) ∧
  (RegexSpec.nowhere (run 6%nat) msg → RegexSpec.nowhere (run 4%nat) msg →
   ∀ m, RegexSpec.leftmost hyph msg m →
        ∃ a b, m = (a ++ hyphen :: b)%list ∧
               extract msg = Some (a ++ b)%list) ∧
  (RegexSpec.nowhere (run 6%nat) msg → RegexSpec.nowhere (run 4%nat) msg →
   RegexSpec.nowhere hyph msg →
   ∀ m, RegexSpec.leftmost (run 8%nat) msg m → extract msg = Some m) ∧
  (RegexSpec.nowhere (run 6%nat) msg → RegexSpec.nowhere (run 4%nat) msg →
   RegexSpec.nowhere hyph msg → RegexSpec.nowhere (run 8%nat) msg →
   extract msg = None).
Proof.
  intros Hh extract run hyph. subst extract run hyph.
  pose proof (λ k m, search_leftmost isdigit isword _ _
                       (match_run isdigit isword k) msg m) as Hfound.
  pose proof (λ k, search_nowhere isdigit isword _ _
                     (match_run isdigit isword k) msg) as Hnone.
  pose proof (search_leftmost isdigit isword _ _
                (match_hyphenated isdigit isword hyphen) msg) as Hhfound.
  pose proof (search_nowhere isdigit isword _ _
                (match_hyphenated isdigit isword hyphen) msg) as Hhnone.
  assert (∀ k m, RegexSpec.leftmost (RegexSpec.run isdigit isword k) msg m →
                 Bot.strip_hyphen hyphen m = m) as Hstrip.
  { intros k m (pre & post & _ & (_ & Hd & _) & _).
    by apply (strip_hyphen_digits isdigit). }
  unfold Bot.extract_otp, Bot.patterns, Bot.first_match.
  split; [|split; [|split; [|split]]].
  - intros m Hm. rewrite (Hfound 6%nat m Hm). by rewrite (Hstrip 6%nat).
  - intros H6 m Hm. rewrite (Hnone 6%nat H6), (Hfound 4%nat m Hm).
    by rewrite (Hstrip 4%nat).
  - intros H6 H4 m Hm.
    rewrite (Hnone 6%nat H6), (Hnone 4%nat H4), (Hhfound m Hm).
    destruct Hm as (pre & post & _ & (a & b & -> & _ & _ & Ha & Hb & _) & _).
    exists a, b. split; [done|].
    by rewrite (strip_hyphen_hyphenated isdigit).
  - intros H6 H4 Hy m Hm.
    rewrite (Hnone 6%nat H6), (Hnone 4%nat H4), (Hhnone Hy),
      (Hfound 8%nat m Hm).
    by rewrite (Hstrip 8%nat).
  - intros H6 H4 Hy H8.
    by rewrite (Hnone 6%nat H6), (Hnone 4%nat H4), (Hhnone Hy),
         (Hnone 8%nat H8).
Qed.

Lemma extract_otp_ordered_witness :
  ascii_digit "-"%char = false ∧ bot_extract "482913" = Some (text "482913").
Proof.
  split; [reflexivity|].
  destruct (extract_otp_ordered ascii_digit ascii_word "-"%char
              (text "482913") eq_refl) as [H6 _].
  apply H6. exists [], []. split; [reflexivity|]. split.
  - split; [reflexivity|]. split; [by repeat constructor|].
    split; reflexivity.
  - intros pre' m' post' _ Hlt. simpl in Hlt. lia.
Defined.

(** C7, the claim as stated, fails: the fourth pattern makes
    [extract_otp] return the eight digits of a message in which none of
    the three patterns of the claim, read with the word boundaries of
    the code, occurs. *)
Lemma extract_otp_eight_digits :
  bot_extract "12345678" = Some (text "12345678") ∧
  ¬ (∀ msg c, bot_extract msg = Some c →
              length c = 6%nat ∨ length c = 4%nat).
Proof.
  assert (bot_extract "12345678" = Some (text "12345678")) as E
    by (vm_compute; reflexivity).
  split; [exact E|]. intros Hclaim.
  destruct (Hclaim "12345678" _ E) as [Hl|Hl]; discriminate Hl.
Qed.

(** The third variant returns the match as it is: its hyphen stays. *)
Lemma part000_extract_keeps_hyphen :
  part000_extract "code 123-456" = Some (text "123-456") ∧
  bot_extract "code 123-456" = Some (text "123456").
Proof. split; vm_compute; reflexivity. Qed.

(** *** Further properties of the lease engine of [bot.py] *)

Section bot_engine.
Import Bot BotSpec.

Lemma names_insert (nums : list Number) (i : nat) (n n' : Number) :
  nums !! i = Some n → number n' = number n →
  number <$> <[i := n']> nums = number <$> nums.
Proof.
  intros Hi Hn. rewrite list_fmap_insert. apply list_insert_id.
  by rewrite list_lookup_fmap, Hi, Hn.
Qed.

Lemma _find_number_lookup (nums : list Number) (num : string) (i : nat)
    (n : Number) :
  _find_number nums num = Some (i, n) → nums !! i = Some n.
Proof. by intros [Hi _]%list_find_Some. Qed.

Lemma lease_first_names (s : StateManager) (u now bump : Z) :
  number <$> numbers (lease_first s u now bump).1 = number <$> numbers s.
Proof.
  unfold lease_first.
  destruct (first_available (numbers s)) as [[i n]|] eqn:Hf; [|done].
  simpl. apply (names_insert _ _ n); [|done].
  by apply list_find_Some in Hf as [Hi _].
Qed.

Lemma lease_first_keeps (s : StateManager) (u now bump : Z) (i : nat)
    (n : Number) :
  numbers s !! i = Some n → ¬ is_available n →
  numbers (lease_first s u now bump).1 !! i = Some n.
Proof.
  intros Hi Hn. unfold lease_first.
  destruct (first_available (numbers s)) as [[j m]|] eqn:Hf; [|done].
  simpl. apply list_find_Some in Hf as (Hj & Hm & _).
  rewrite list_lookup_insert_ne; [done|]. intros ->. congruence.
Qed.

End bot_engine.

(** [assign_number] changes no record that is not available: what is
    assigned, used or blocked stays as it is, whoever asks. *)
Theorem assign_number_keeps_unavailable (s : Bot.StateManager) (u now : Z)
    (i : nat) (n : Bot.Number) :
  Bot.numbers s !! i = Some n → ¬ Bot.is_available n →
  Bot.numbers (Bot.assign_number s u now).1 !! i = Some n.
Proof.
  intros Hi Hn. unfold Bot.assign_number.
  destruct (Bot.live_lease s u); [done|]. by apply lease_first_keeps.
Qed.

Lemma assign_number_keeps_unavailable_witness :
  let held := Bot.take 1 100 (BotSpec.fresh "A") in
  let s :=
    {| Bot.numbers := [held; BotSpec.fresh "B"];
       Bot.assignments :=
         [(1, {| Bot.a_number := "A"; Bot.a_assigned_at := 100;
                 Bot.last_otp := None; Bot.a_last_otp_at := None;
                 Bot.reassign_count := 0 |})];
       Bot.otp_history := [] |} in
  Bot.numbers (Bot.assign_number s 2 200).1 !! 0%nat = Some held.
Proof.
  intros held s.
  apply (assign_number_keeps_unavailable s 2 200 0 held); [reflexivity|].
  unfold Bot.is_available. simpl. discriminate.
Defined.

Section bot_names.
Import Bot BotSpec.

Lemma assign_number_names (s : StateManager) (u now : Z) :
  number <$> numbers (assign_number s u now).1 = number <$> numbers s.
Proof.
  unfold assign_number.
  destruct (live_lease s u); [done|]. apply lease_first_names.
Qed.

Lemma change_number_names (s : StateManager) (u now : Z) :
  number <$> numbers (change_number s u now).1 = number <$> numbers s.
Proof.
  unfold change_number. rewrite lease_first_names.
  simpl. destruct (Dict.get u (assignments s)) as [a|]; [|done].
  destruct (_find_number _ _) as [[i n]|] eqn:Hf; [|done].
  apply (names_insert _ _ n); [by eapply _find_number_lookup|done].
Qed.

Lemma release_number_names (s : StateManager) (num : string) (mu : bool) :
  number <$> numbers (release_number s num mu).1 = number <$> numbers s.
Proof.
  unfold release_number.
  destruct (_find_number _ _) as [[i n]|] eqn:Hf; [|done]. simpl.
  apply (names_insert _ _ n); [by eapply _find_number_lookup|done].
Qed.

Lemma release_expired_names (cfg : Config) (s : StateManager) (now : Z) :
  number <$> numbers (release_expired cfg s now).1 = number <$> numbers s.
Proof.
  rewrite release_expired_numbers, <- list_fmap_compose.
  apply list_fmap_ext. intros j n _. simpl. unfold swept.
  by destruct (expired cfg now n).
Qed.

Lemma block_number_names (s : StateManager) (num : string) :
  number <$> numbers (block_number s num).1 = number <$> numbers s.
Proof.
  unfold block_number.
  destruct (_find_number _ _) as [[i n]|] eqn:Hf; [|done]. simpl.
  apply (names_insert _ _ n); [by eapply _find_number_lookup|done].
Qed.

Lemma track_otp_names (cfg : Config) (s : StateManager)
    (num otp service panel : string) (now : Z) :
  number <$> numbers (track_otp cfg s num otp service panel now).1
  = number <$> numbers s.
Proof.
  unfold track_otp.
  destruct (_find_number _ _) as [[i n]|] eqn:Hf;
    destruct (mark_assignments _ _ _ _ _) as [asg user]; [|done].
  simpl. apply (names_insert _ _ n); [by eapply _find_number_lookup|done].
Qed.

End bot_names.

(** No operation of the engine adds, removes, renames or reorders pool
    records; only [add_numbers] extends the pool, at its end. *)
Theorem operations_keep_pool_numbers (s : Bot.StateManager) :
  (∀ u now, Bot.number <$> Bot.numbers (Bot.assign_number s u now).1
            = Bot.number <$> Bot.numbers s) ∧
  (∀ u now, Bot.number <$> Bot.numbers (Bot.change_number s u now).1
            = Bot.number <$> Bot.numbers s) ∧
  (∀ num mu, Bot.number <$> Bot.numbers (Bot.release_number s num mu).1
             = Bot.number <$> Bot.numbers s) ∧
  (∀ cfg now, Bot.number <$> Bot.numbers (Bot.release_expired cfg s now).1
              = Bot.number <$> Bot.numbers s) ∧
  (∀ num, Bot.number <$> Bot.numbers (Bot.block_number s num).1
          = Bot.number <$> Bot.numbers s) ∧
  (∀ cfg num otp service panel now,
     Bot.number <$> Bot.numbers (Bot.track_otp cfg s num otp service panel now).1
     = Bot.number <$> Bot.numbers s) ∧
  (∀ new, ∃ added,
     Bot.numbers (Bot.add_numbers s new).1 = (Bot.numbers s ++ added)%list).
Proof.
  split; [intros; apply assign_number_names|].
  split; [intros; apply change_number_names|].
  split; [intros; apply release_number_names|].
  split; [intros; apply release_expired_names|].
  split; [intros; apply block_number_names|].
  split; [intros; apply track_otp_names|].
  intros new. by eexists.
Qed.

Section bot_index.
Import Bot BotSpec.

Lemma index_in_pool_names (s : StateManager) :
  index_in_pool s ↔
  ∀ u a, (u, a) ∈ assignments s → a_number a ∈ number <$> numbers s.
Proof.
  unfold index_in_pool. split; intros H u a Hin.
  - destruct (H u a Hin) as (n & Hn & <-). by apply list_elem_of_fmap_2.
  - pose proof (H u a Hin) as Hx.
    apply list_elem_of_fmap in Hx as (n & -> & Hn). by exists n.
Qed.

Lemma elem_of_dict_set (u : Z) (e : Assignment) (d : list (Z * Assignment))
    (kv : Z * Assignment) :
  kv ∈ Dict.set u e d → kv = (u, e) ∨ kv ∈ d.
Proof.
  induction d as [|[k v] d IH]; simpl.
  - intros ->%list_elem_of_singleton. by left.
  - case_decide.
    + intros [->|Hin]%elem_of_cons; [by left|]. right. by right.
    + intros [->|Hin]%elem_of_cons; [right; left|].
      destruct (IH Hin) as [->|Hd]; [by left|]. right. by right.
Qed.

Lemma lease_first_index (s : StateManager) (u now bump : Z) :
  index_in_pool s → index_in_pool (lease_first s u now bump).1.
Proof.
  rewrite !index_in_pool_names. intros Hs v a.
  rewrite lease_first_names. unfold lease_first.
  destruct (first_available (numbers s)) as [[i n]|] eqn:Hf; [|apply Hs].
  simpl. intros [[= -> ->]|Hin]%elem_of_dict_set; [|by eapply Hs].
  simpl. apply list_elem_of_fmap_2.
  apply list_find_Some in Hf as [Hi _]. by eapply list_elem_of_lookup_2.
Qed.

Lemma names_of_elem (d : list (Z * Assignment)) (u : Z) (a : Assignment) :
  (u, a) ∈ d → (u, a_number a) ∈ names_of d.
Proof.
  intros Hin. unfold names_of.
  by apply (list_elem_of_fmap_2
              (λ kv : Z * Assignment, (kv.1, a_number kv.2)) d (u, a)).
Qed.

Lemma names_of_elem_inv (d : list (Z * Assignment)) (u : Z) (x : string) :
  (u, x) ∈ names_of d → ∃ a, (u, a) ∈ d ∧ a_number a = x.
Proof.
  intros ([v a] & [= -> ->] & Hin)%list_elem_of_fmap. by exists a.
Qed.

End bot_index.

(** Every operation of the engine keeps the lease index inside the
    pool: when each lease entry names a number some record carries, the
    same holds afterwards. *)
Theorem operations_keep_index_in_pool (s : Bot.StateManager) :
  BotSpec.index_in_pool s →
  (∀ u now, BotSpec.index_in_pool (Bot.assign_number s u now).1) ∧
  (∀ u now, BotSpec.index_in_pool (Bot.change_number s u now).1) ∧
  (∀ num mu, BotSpec.index_in_pool (Bot.release_number s num mu).1) ∧
  (∀ cfg now, BotSpec.index_in_pool (Bot.release_expired cfg s now).1) ∧
  (∀ num, BotSpec.index_in_pool (Bot.block_number s num).1) ∧
  (∀ cfg num otp service panel now,
     BotSpec.index_in_pool
       (Bot.track_otp cfg s num otp service panel now).1) ∧
  (∀ new, BotSpec.index_in_pool (Bot.add_numbers s new).1).
Proof.
  intros Hs. pose proof (proj1 (index_in_pool_names s) Hs) as Hp.
  split; [|split; [|split; [|split; [|split; [|split]]]]].
  - intros u now. unfold Bot.assign_number.
    destruct (Bot.live_lease s u); [done|]. by apply lease_first_index.
  - intros u now. unfold Bot.change_number. apply lease_first_index.
    apply index_in_pool_names. simpl. intros v a Hin.
    specialize (Hp v a Hin).
    destruct (Dict.get u (Bot.assignments s)) as [c|]; [|done].
    destruct (Bot._find_number _ _) as [[i n]|] eqn:Hf; [|done].
    rewrite (names_insert _ _ n); [done|by eapply _find_number_lookup|done].
  - intros num mu. apply index_in_pool_names. rewrite release_number_names.
    intros v a Hin. apply (Hp v).
    unfold Bot.release_number in Hin.
    destruct (Bot._find_number _ _) as [[i n]|]; [|done].
    simpl in Hin. by apply list_elem_of_filter in Hin as [_ Hin].
  - intros cfg now. apply index_in_pool_names.
    rewrite release_expired_names.
    intros v a Hin. apply (Hp v).
    by apply release_expired_assignments in Hin as [Hin _].
  - intros num. apply index_in_pool_names. rewrite block_number_names.
    intros v a Hin. apply (Hp v).
    unfold Bot.block_number in Hin.
    destruct (Bot._find_number _ _) as [[i n]|]; [|done].
    simpl in Hin. by apply list_elem_of_filter in Hin as [_ Hin].
  - intros cfg num otp service panel now. apply index_in_pool_names.
    rewrite track_otp_names. intros v a Hin.
    assert ((v, Bot.a_number a) ∈ BotSpec.names_of (Bot.assignments s))
      as Hn.
    { apply names_of_elem in Hin. revert Hin. unfold Bot.track_otp.
      destruct (Bot._find_number _ _) as [[i n]|].
      - pose proof (mark_assignments_names num otp now (Bot.assignments s)
                      (Bot.holder_of n)) as E.
        destruct (Bot.mark_assignments _ _ _ _ _) as [asg user].
        simpl in *. by rewrite E.
      - pose proof (mark_assignments_names num otp now (Bot.assignments s)
                      None) as E.
        destruct (Bot.mark_assignments _ _ _ _ _) as [asg user].
        simpl in *. by rewrite E. }
    apply names_of_elem_inv in Hn as (a0 & Hin0 & <-). by apply (Hp v).
  - intros new u a Hin. simpl in Hin.
    destruct (Hs u a Hin) as (n & Hn & Heq). exists n.
    split; [|done]. simpl. apply elem_of_app. by left.
Qed.

Lemma operations_keep_index_in_pool_witness :
  let s :=
    {| Bot.numbers := [Bot.take 1 100 (BotSpec.fresh "A"); BotSpec.fresh "B"];
       Bot.assignments :=
         [(1, {| Bot.a_number := "A"; Bot.a_assigned_at := 100;
                 Bot.last_otp := None; Bot.a_last_otp_at := None;
                 Bot.reassign_count := 0 |})];
       Bot.otp_history := [] |} in
  BotSpec.index_in_pool (Bot.change_number s 1 200).1.
Proof.
  intros s.
  assert (BotSpec.index_in_pool s) as Hs.
  { intros u a Hin. simpl in Hin. apply list_elem_of_singleton in Hin.
    injection Hin as -> ->.
    exists (Bot.take 1 100 (BotSpec.fresh "A")). split; [left|done]. }
  exact (proj1 (proj2 (operations_keep_index_in_pool s Hs)) 1 200).
Defined.

Section bot_release.
Import Bot BotSpec.

Lemma forget_number_idemp (num : string) (d : list (Z * Assignment)) :
  forget_number num (forget_number num d) = forget_number num d.
Proof.
  unfold forget_number. induction d as [|kv d IH]; [done|].
  destruct (decide (a_number kv.2 ≠ num)) as [Hn|Hn].
  - rewrite (filter_cons_True _ kv d) by done.
    rewrite filter_cons_True by done. by rewrite IH.
  - by rewrite (filter_cons_False _ kv d) by done.
Qed.

Lemma add_numbers_loop_names (existing new : list string) :
  number <$> add_numbers_loop existing new
  = filter (λ x, x ∉ existing) new.
Proof.
  induction new as [|x new IH]; [done|]. simpl. case_decide as Hx.
  - by rewrite filter_cons_False by (by intros ?).
  - rewrite filter_cons_True by done. by rewrite fmap_cons, IH.
Qed.

End bot_release.

(** Blocking and releasing are idempotent: doing either a second time
    with the same argument gives the same store and the same answer
    (also when the number is unknown and the answer is [False]). *)
Theorem block_release_idempotent (s : Bot.StateManager) (num : string)
    (mu : bool) :
  Bot.block_number (Bot.block_number s num).1 num = Bot.block_number s num ∧
  Bot.release_number (Bot.release_number s num mu).1 num mu
    = Bot.release_number s num mu.
Proof.
  split.
  - unfold Bot.block_number at 2 3.
    destruct (Bot._find_number (Bot.numbers s) num) as [[i n]|] eqn:Hf.
    + cbn [fst]. unfold Bot.block_number. cbn [Bot.numbers Bot.assignments
        Bot.otp_history].
      rewrite (_find_number_insert _ _ _ n (Bot.drop "blocked" n) Hf eq_refl).
      by rewrite list_insert_insert_eq, forget_number_idemp.
    + cbn [fst]. unfold Bot.block_number. by rewrite Hf.
  - unfold Bot.release_number at 2 3.
    destruct (Bot._find_number (Bot.numbers s) num) as [[i n]|] eqn:Hf.
    + cbn [fst]. unfold Bot.release_number. cbn [Bot.numbers Bot.assignments
        Bot.otp_history].
      rewrite (_find_number_insert _ _ _ n
                 (Bot.drop (if mu then "used" else "available") n) Hf eq_refl).
      by rewrite list_insert_insert_eq, forget_number_idemp.
    + cbn [fst]. unfold Bot.release_number. by rewrite Hf.
Qed.

(** When [release_number] is given a pool number in the spelling of its
    record, it answers [True], the record loses holder and timestamp and
    takes the requested status, and no lease entry names the record any
    more, while every lease entry for another number stays. *)
Theorem release_number_frees (s : Bot.StateManager) (num : string)
    (mu : bool) (i : nat) (n : Bot.Number) :
  Bot._find_number (Bot.numbers s) num = Some (i, n) →
  Bot.number n = num →
  let r := Bot.release_number s num mu in
  r.2 = true ∧
  Bot._find_number (Bot.numbers r.1) num
    = Some (i, Bot.drop (if mu then "used" else "available") n) ∧
  (∀ u a, (u, a) ∈ Bot.assignments r.1 → Bot.a_number a ≠ Bot.number n) ∧
  (∀ u a, (u, a) ∈ Bot.assignments s → Bot.a_number a ≠ num →
          (u, a) ∈ Bot.assignments r.1) ∧
  (∀ u, Bot.live_lease r.1 u = None ∨
        ∃ a, Bot.live_lease r.1 u = Some a ∧ Bot.a_number a ≠ num).
Proof.
  intros Hf Hn r. subst r. unfold Bot.release_number. rewrite Hf.
  cbn [fst snd Bot.numbers Bot.assignments].
  split; [done|]. split; [by apply (_find_number_insert _ _ _ n)|].
  split; [|split].
  - intros u a [Hne _]%list_elem_of_filter. simpl in Hne. congruence.
  - intros u a Hin Hne. by apply list_elem_of_filter.
  - intros u. unfold Bot.live_lease. cbn [Bot.numbers Bot.assignments].
    destruct (Dict.get u _) as [a|] eqn:Ha; [|by left].
    destruct (Bot._find_number _ (Bot.a_number a)) as [[j m]|]; [|by left].
    case_decide; [|by left].
    destruct (truthy_str (Bot.last_otp a)); [by left|]. right.
    exists a. split; [done|].
    assert ((u, a) ∈ Bot.forget_number num (Bot.assignments s)) as Hin.
    { clear -Ha. induction (Bot.forget_number num (Bot.assignments s))
        as [|[k v] d IH]; [done|].
      simpl in Ha. case_decide; [|right; by apply IH].
      injection Ha as ->. subst. left. }
    by apply list_elem_of_filter in Hin as [Hne _].
Qed.

Lemma release_number_frees_witness :
  let held := Bot.take 1 100 (BotSpec.fresh "A") in
  let s :=
    {| Bot.numbers := [held; BotSpec.fresh "B"];
       Bot.assignments :=
         [(1, {| Bot.a_number := "A"; Bot.a_assigned_at := 100;
                 Bot.last_otp := None; Bot.a_last_otp_at := None;
                 Bot.reassign_count := 0 |})];
       Bot.otp_history := [] |} in
  (Bot.release_number s "A" false).2 = true ∧
  Bot._find_number (Bot.numbers (Bot.release_number s "A" false).1) "A"
    = Some (0%nat, Bot.drop "available" held).
Proof.
  intros held s.
  assert (Bot._find_number (Bot.numbers s) "A" = Some (0%nat, held)) as Hf
    by (vm_compute; reflexivity).
  destruct (release_number_frees s "A" false 0 held Hf eq_refl)
    as (H1 & H2 & _).
  split; [exact H1 | exact H2].
Defined.

(** [add_numbers] appends, in the order given, the numbers of the batch
    that the pool did not hold before the call, as available records,
    and returns how many it appended; the test is made against the pool
    as it was, so a number repeated inside the batch is appended each
    time.  A duplicate-free batch keeps a duplicate-free pool
    duplicate-free. *)
Theorem add_numbers_appends_new (s : Bot.StateManager) (new : list string) :
  let r := Bot.add_numbers s new in
  let existing := Bot.number <$> Bot.numbers s in
  Bot.number <$> Bot.numbers r.1
    = (existing ++ filter (λ x, x ∉ existing) new)%list ∧
  r.2 = Z.of_nat (length (filter (λ x, x ∉ existing) new)) ∧
  (∃ added, Bot.numbers r.1 = (Bot.numbers s ++ added)%list ∧
            Forall (λ n, Bot.status n = Some "available" ∧
                         Bot.assigned_to n = None ∧
                         Bot.assigned_at n = None) added) ∧
  Bot.assignments r.1 = Bot.assignments s ∧
  (NoDup existing → NoDup new → NoDup (Bot.number <$> Bot.numbers r.1)).
Proof.
  intros r existing. subst r existing. unfold Bot.add_numbers.
  cbn [fst snd Bot.numbers Bot.assignments].
  rewrite fmap_app, add_numbers_loop_names.
  split; [done|]. split.
  { by rewrite <- (add_numbers_loop_names (Bot.number <$> Bot.numbers s)),
      length_fmap. }
  split.
  { eexists. split; [done|].
    induction new as [|x new IH]; [constructor|]. simpl.
    case_decide; [done|]. by constructor. }
  split; [done|]. intros Hex Hnew. apply NoDup_app. split; [done|].
  split; [|by apply NoDup_filter].
  intros x Hx [Hnot _]%list_elem_of_filter. done.
Qed.

Lemma add_numbers_repeats_in_batch :
  Bot.number <$> Bot.numbers (Bot.add_numbers BotSpec.pool_AB ["C"; "A"; "C"]).1
  = ["A"; "B"; "C"; "C"].
Proof. vm_compute. reflexivity. Qed.

(** *** Sweeps of [app.py] *)

Section app_sweep.
Import App AppSpec.

Lemma reclaim_users (e : NumberEntry) (us : gmap (option Z) UserEntry)
    (u : Z) :
  (reclaim e us).2 !! Some u = us !! Some u.
Proof.
  unfold reclaim. simpl. destruct (us !! None) as [ue|]; [|done].
  case_decide; [|done]. simpl. by rewrite lookup_delete_ne.
Qed.

Lemma sweep_entries_users (ttl now : Z) (es : list NumberEntry)
    (us : gmap (option Z) UserEntry) (u : Z) :
  (sweep_entries ttl now es us).2 !! Some u = us !! Some u.
Proof.
  revert us. induction es as [|e es IH]; intros us; [done|]. simpl.
  destruct (stale ttl now e).
  - pose proof (reclaim_users e us u) as Hr.
    destruct (reclaim e us) as [e' us1]. specialize (IH us1).
    destruct (sweep_entries ttl now es us1) as [es' us2].
    simpl in *. by rewrite IH.
  - specialize (IH us).
    by destruct (sweep_entries ttl now es us) as [es' us2].
Qed.

Lemma sweep_lists_users (ttl now : Z) (ls : list (string * list NumberEntry))
    (us : gmap (option Z) UserEntry) (u : Z) :
  (sweep_lists ttl now ls us).2 !! Some u = us !! Some u.
Proof.
  revert us. induction ls as [|[name es] ls IH]; intros us; [done|]. simpl.
  pose proof (sweep_entries_users ttl now es us u) as He.
  destruct (sweep_entries ttl now es us) as [es' us1]. specialize (IH us1).
  destruct (sweep_lists ttl now ls us1) as [ls' us2].
  simpl in *. by rewrite IH.
Qed.

Lemma stale_mark_available (ttl now : Z) (e : NumberEntry) :
  stale ttl now (mark_available e) = false.
Proof. done. Qed.

Lemma sweep_entries_fresh (ttl now : Z) (es : list NumberEntry)
    (us : gmap (option Z) UserEntry) :
  Forall (λ e, stale ttl now e = false) (sweep_entries ttl now es us).1.
Proof.
  revert us. induction es as [|e es IH]; intros us; [constructor|]. simpl.
  destruct (stale ttl now e) eqn:He.
  - pose proof (reclaim_fst e us) as Hr.
    destruct (reclaim e us) as [e' us1]. simpl in Hr. subst e'.
    specialize (IH us1).
    destruct (sweep_entries ttl now es us1) as [es' us2].
    simpl in *. by constructor.
  - specialize (IH us).
    destruct (sweep_entries ttl now es us) as [es' us2].
    simpl in *. by constructor.
Qed.

Lemma sweep_lists_fresh (ttl now : Z) (ls : list (string * list NumberEntry))
    (us : gmap (option Z) UserEntry) :
  Forall (λ e, stale ttl now e = false)
    (concat (snd <$> (sweep_lists ttl now ls us).1)).
Proof.
  revert us. induction ls as [|[name es] ls IH]; intros us; [constructor|].
  simpl. pose proof (sweep_entries_fresh ttl now es us) as He.
  destruct (sweep_entries ttl now es us) as [es' us1]. specialize (IH us1).
  destruct (sweep_lists ttl now ls us1) as [ls' us2].
  simpl in *. by apply Forall_app.
Qed.

Lemma _release_expired_users (s : DataStore) (now u : Z) :
  users (_release_expired s now) !! Some u = users s !! Some u.
Proof.
  unfold _release_expired.
  pose proof (sweep_lists_users (ttl_seconds s) now (lists s) (users s) u)
    as H.
  by destruct (sweep_lists _ _ _ _) as [ls us].
Qed.

Lemma _release_expired_fresh (s : DataStore) (now : Z) :
  Forall (λ e, stale (ttl_seconds (_release_expired s now)) now e = false)
    (entries (_release_expired s now)).
Proof.
  unfold _release_expired, entries.
  pose proof (sweep_lists_fresh (ttl_seconds s) now (lists s) (users s))
    as H.
  by destruct (sweep_lists _ _ _ _) as [ls us].
Qed.

End app_sweep.

(** The sweep of [app.py] never removes a requester from the user
    index: whatever it reclaims, every key [str(user_id)] keeps its
    entry (the only key it can delete is ["None"]); so a requester whose
    lease was reclaimed is still reported as holding it. *)
Theorem app_release_expired_keeps_users (s : App.DataStore) (now : Z) :
  (∀ u, App.users (App._release_expired s now) !! Some u
        = App.users s !! Some u) ∧
  (∀ u, App.user_assignment (App._release_expired s now) u
        = App.user_assignment s u) ∧
  App.ttl_seconds (App._release_expired s now) = App.ttl_seconds s.
Proof.
  split; [intros u; apply _release_expired_users|].
  split; [intros u; apply _release_expired_users|].
  unfold App._release_expired. by destruct (App.sweep_lists _ _ _ _).
Qed.

(** A second sweep at the same clock reading changes nothing. *)
Theorem app_release_expired_idempotent (s : App.DataStore) (now : Z) :
  App._release_expired (App._release_expired s now) now
  = App._release_expired s now.
Proof.
  apply _release_expired_noop, _release_expired_fresh.
Qed.

(** *** Loading in [bot.py] and in the third variant *)

(** [load_json] creates a missing file with the default, so a later load
    of the same path returns that value whatever default it is given;
    an existing file is never rewritten by a load. *)
Theorem load_json_creates_default (d d' : json) (f : file) :
  Bot.load_json (Bot.load_json Missing d).2 d' = (Return d, Holds d) ∧
  (f ≠ Missing → (Bot.load_json f d).2 = f).
Proof. split; [done|]. by destruct f. Qed.

Section defaults.
Import Part000.

Lemma setdefault_get (key k : string) (v : json) (d : list (string * json)) :
  Dict.get k (setdefault key v d) =
    match Dict.get k d with
    | Some x => Some x
    | None => if decide (k = key) then Some v else None
    end.
Proof.
  unfold setdefault. destruct (Dict.get key d) as [x|] eqn:Hkey.
  - destruct (Dict.get k d) eqn:Hk; [done|].
    case_decide; [congruence|done].
  - induction d as [|[k0 v0] d IH]; simpl.
    + by destruct (decide (k = key)).
    + simpl in Hkey. destruct (decide (key = k0)); [done|].
      destruct (decide (k = k0)); [done|]. by apply IH.
Qed.

End defaults.

(** [ensure_data_defaults] never overwrites: every key of the dict keeps
    its value, and the four keys of the store are present afterwards,
    with empty defaults where they were missing.  Anything else than a
    dict makes it fail. *)
Theorem ensure_data_defaults_keeps (d : list (string * json)) :
  ∃ d', Part000.ensure_data_defaults (JObj d) = Return (JObj d') ∧
        (∀ k x, Dict.get k d = Some x → Dict.get k d' = Some x) ∧
        Dict.get "users" d' = Some (default (JObj []) (Dict.get "users" d)) ∧
        Dict.get "number_pools" d'
          = Some (default (JObj []) (Dict.get "number_pools" d)) ∧
        Dict.get "assignments" d'
          = Some (default (JArr []) (Dict.get "assignments" d)) ∧
        Dict.get "otp_deliveries" d'
          = Some (default (JArr []) (Dict.get "otp_deliveries" d)).
Proof.
  eexists. split; [reflexivity|]. split.
  - intros k x Hk. rewrite !setdefault_get. by rewrite Hk.
  - repeat split; rewrite !setdefault_get;
      repeat (case_decide; try discriminate);
      by destruct (Dict.get _ d).
Qed.

(** *** Normalising and masking numbers in [bot.py] *)

Section bot_text.
Import Bot BotSpec.

Lemma all_kept_cleaned (num : string) : all_kept (cleaned num) = true.
Proof.
  induction num as [|c num IH]; [done|]. simpl.
  destruct (keeps c) eqn:Hc; [|done]. simpl. by rewrite Hc, IH.
Qed.

Lemma cleaned_all_kept (num : string) :
  all_kept num = true → cleaned num = num.
Proof.
  induction num as [|c num IH]; [done|]. simpl.
  intros [Hc Hk]%andb_prop. by rewrite Hc, IH.
Qed.

Lemma all_kept_lstrip (num : string) :
  all_kept num = true → all_kept (lstrip_plus num) = true.
Proof.
  induction num as [|c num IH]; [done|]. intros Hk.
  pose proof Hk as Hk'. simpl in Hk'. apply andb_prop in Hk' as [Hc Hr].
  simpl. destruct c as [[] [] [] [] [] [] [] []]; try exact Hk; by apply IH.
Qed.

Lemma lstrip_plus_idemp (num : string) :
  lstrip_plus (lstrip_plus num) = lstrip_plus num.
Proof.
  induction num as [|c num IH]; [done|]. simpl.
  destruct c as [[] [] [] [] [] [] [] []]; try done.
Qed.

End bot_text.

(** [normalize_number] is idempotent, its result carries no leading
    plus sign and consists of digits and plus signs only; so the lookup
    of a normalised number matches exactly the records that carry it as
    it is or with one plus sign in front. *)
Theorem normalize_number_idempotent (raw : string) :
  let num := Bot.normalize_number raw in
  Bot.normalize_number num = num ∧
  Bot.lstrip_plus num = num ∧
  BotSpec.all_kept num = true ∧
  ∀ n, Bot.number_matches num n ↔
       Bot.number n = num ∨ Bot.number n = String "+"%char num.
Proof.
  intros num. subst num. unfold Bot.normalize_number.
  assert (BotSpec.all_kept (Bot.lstrip_plus (Bot.cleaned raw)) = true) as Hk
    by apply all_kept_lstrip, all_kept_cleaned.
  split; [|split; [|split]].
  - by rewrite (cleaned_all_kept _ Hk), lstrip_plus_idemp.
  - apply lstrip_plus_idemp.
  - exact Hk.
  - intros n. unfold Bot.number_matches. by rewrite lstrip_plus_idemp.
Qed.

Section bot_mask.

Lemma lookup_repeat {A} (x : A) (n k : nat) :
  (k < n)%nat → repeat x n !! k = Some x.
Proof.
  revert k. induction n as [|n IH]; intros k Hk; [lia|].
  destruct k; [done|]. simpl. apply IH. lia.
Qed.

End bot_mask.

(** [mask_number] shows the first three and the last two characters of
    a number of more than four and replaces every character between
    them by a star, so the masked text is one character longer than the
    number (the plus sign in front); a number of five characters is
    therefore shown whole.  A number of at most four characters is
    replaced by four stars. *)
Theorem mask_number_hides_middle (number_str : string) :
  let chars := list_ascii_of_string (Bot.lstrip_plus number_str) in
  let out := list_ascii_of_string (Bot.mask_number number_str) in
  ((length chars ≤ 4)%nat → Bot.mask_number number_str = "****") ∧
  ((4 < length chars)%nat →
   length out = S (length chars) ∧
   out !! 0%nat = Some "+"%char ∧
   (∀ k, (k < 3)%nat → out !! S k = chars !! k) ∧
   (∀ k, (3 ≤ k < length chars - 2)%nat → out !! S k = Some "*"%char) ∧
   (∀ k, (length chars - 2 ≤ k < length chars)%nat →
         out !! S k = chars !! k)).
Proof.
  intros chars out. subst out. unfold Bot.mask_number. fold chars.
  split.
  - intros Hle. by rewrite (proj2 (Nat.leb_le _ _) Hle).
  - intros Hlt. rewrite (proj2 (Nat.leb_gt _ _) Hlt).
    rewrite list_ascii_of_string_of_list_ascii.
    assert (length (firstn 3 chars) = 3%nat) as Hl3
      by (rewrite length_take; lia).
    assert (length (repeat "*"%char (length chars - 3 - 2))
            = (length chars - 5)%nat) as Hls
      by (rewrite repeat_length; lia).
    split; [|split; [done|split; [|split]]].
    + simpl. rewrite !length_app, Hl3, Hls, length_drop. lia.
    + intros k Hk. simpl. rewrite lookup_app_l by lia.
      by apply lookup_take_lt.
    + intros k Hk. simpl. rewrite lookup_app_r by lia.
      rewrite lookup_app_l by lia. apply lookup_repeat. lia.
    + intros k Hk. simpl. rewrite lookup_app_r by lia.
      rewrite lookup_app_r by lia. rewrite lookup_drop. f_equal. lia.
Qed.

Lemma mask_number_hides_middle_witness :
  Bot.mask_number "+15550000001" = "+155******01" ∧
  Bot.mask_number "12345" = "+12345" ∧
  Bot.mask_number "+1234" = "****".
Proof.
  destruct (mask_number_hides_middle "+1234") as [Hshort _].
  split; [reflexivity|]. split; [reflexivity|].
  apply Hshort. simpl. lia.
Defined.

(** *** Insertion-ordered dictionaries *)

Section dict_lemmas.
Context {K V : Type} `{EqDecision K}.

Lemma get_set_eq (k : K) (v : V) (d : list (K * V)) :
  Dict.get k (Dict.set k v d) = Some v.
Proof.
  induction d as [|[k' v'] d IH]; simpl.
  - by rewrite decide_True.
  - destruct (decide (k = k')) as [->|Hne]; simpl.
    + by rewrite decide_True.
    + by rewrite decide_False.
Qed.

Lemma get_set_ne (k k0 : K) (v : V) (d : list (K * V)) :
  k ≠ k0 → Dict.get k (Dict.set k0 v d) = Dict.get k d.
Proof.
  intros Hne. induction d as [|[k' v'] d IH]; simpl.
  - by rewrite decide_False.
  - destruct (decide (k0 = k')) as [->|Hne']; simpl.
    + by rewrite !decide_False.
    + destruct (decide (k = k')); [done|]. apply IH.
Qed.

Lemma get_None (k : K) (d : list (K * V)) :
  k ∉ d.*1 → Dict.get k d = None.
Proof.
  induction d as [|[k' v'] d IH]; [done|]. simpl.
  intros [Hne Hnot]%not_elem_of_cons. rewrite decide_False by done.
  by apply IH.
Qed.

Lemma set_keys_in (k : K) (v : V) (d : list (K * V)) :
  k ∈ d.*1 → (Dict.set k v d).*1 = d.*1.
Proof.
  induction d as [|[k' v'] d IH]; intros Hin.
  - by apply elem_of_nil in Hin.
  - simpl. destruct (decide (k = k')) as [->|Hne]; [done|].
    simpl. f_equal. apply IH.
    by apply elem_of_cons in Hin as [?|?].
Qed.

Lemma set_keys_notin (k : K) (v : V) (d : list (K * V)) :
  k ∉ d.*1 → (Dict.set k v d).*1 = (d.*1 ++ [k])%list.
Proof.
  induction d as [|[k' v'] d IH]; intros Hnot; [done|].
  simpl in Hnot. apply not_elem_of_cons in Hnot as [Hne Hnot].
  simpl. rewrite decide_False by done. simpl. f_equal. by apply IH.
Qed.

Lemma set_wf (k : K) (v : V) (d : list (K * V)) :
  Dict.wf d → Dict.wf (Dict.set k v d).
Proof.
  unfold Dict.wf. intros Hd. destruct (decide (k ∈ d.*1)) as [Hin|Hnot].
  - by rewrite set_keys_in.
  - rewrite set_keys_notin by done.
    apply NoDup_app. split; [done|]. split; [|apply NoDup_singleton].
    intros x Hx ->%list_elem_of_singleton. done.
Qed.

(** Merging [l] into [d0] key by key, as [{**d0, **l}] does. *)
Lemma get_merge (k : K) (l d0 : list (K * V)) :
  Dict.wf l →
  Dict.get k (fold_left (λ d kv, Dict.set kv.1 kv.2 d) l d0) =
    match Dict.get k l with
    | Some v => Some v
    | None => Dict.get k d0
    end.
Proof.
  revert d0. induction l as [|[k1 v1] l IH]; intros d0 Hwf; [done|].
  apply NoDup_cons in Hwf as [Hnot Hwf]. simpl. rewrite IH by done.
  destruct (decide (k = k1)) as [->|Hne].
  - by rewrite (get_None k1 l Hnot), get_set_eq.
  - destruct (Dict.get k l); [done|]. by apply get_set_ne.
Qed.

End dict_lemmas.

Section bot_summary.
Import Bot BotSpec.

Lemma count_statuses_wf (nums : list Number) (d : list (string * Z)) :
  Dict.wf d → Dict.wf (count_statuses nums d).
Proof.
  revert d. induction nums as [|n nums IH]; intros d Hd; [done|].
  simpl. by apply IH, set_wf.
Qed.

Lemma count_statuses_get (st : string) (nums : list Number)
    (d : list (string * Z)) (v : Z) :
  Dict.get st d = Some v →
  Dict.get st (count_statuses nums d) = Some (v + tally st nums)%Z.
Proof.
  unfold tally. revert d v. induction nums as [|n nums IH]; intros d v Hd.
  - simpl. rewrite Hd. f_equal. lia.
  - simpl. destruct (decide (default "available" (status n) = st)) as [E|E].
    + rewrite filter_cons_True by done. rewrite E.
      erewrite IH; [|by rewrite get_set_eq]. rewrite Hd. simpl.
      f_equal. lia.
    + rewrite filter_cons_False by done.
      erewrite IH; [done|]. by rewrite get_set_ne.
Qed.

Lemma count_statuses_absent (st : string) (nums : list Number)
    (d : list (string * Z)) :
  Dict.get st d = None → tally st nums = 0%Z →
  Dict.get st (count_statuses nums d) = None.
Proof.
  unfold tally. revert d. induction nums as [|n nums IH]; intros d Hd Ht;
    [done|].
  simpl. destruct (decide (default "available" (status n) = st)) as [E|E].
  - rewrite filter_cons_True in Ht by done. simpl in Ht. lia.
  - rewrite filter_cons_False in Ht by done.
    apply IH; [|done]. by rewrite get_set_ne.
Qed.

End bot_summary.

(** [stock_summary] reports, for each of the four statuses, how many
    records count under it (a record without a status counts as
    available), and under ["total"] the size of the pool, as long as no
    record carries the status ["total"]. *)
Theorem stock_summary_counts (s : Bot.StateManager) :
  (∀ st, st ∈ ["available"; "assigned"; "used"; "blocked"] →
         Dict.get st (Bot.stock_summary s)
         = Some (BotSpec.tally st (Bot.numbers s))) ∧
  (BotSpec.tally "total" (Bot.numbers s) = 0%Z →
   Dict.get "total" (Bot.stock_summary s)
   = Some (Z.of_nat (length (Bot.numbers s)))).
Proof.
  unfold Bot.stock_summary.
  set (init := [("available", 0%Z); ("assigned", 0%Z); ("used", 0%Z);
                ("blocked", 0%Z)]).
  assert (Dict.wf (Bot.count_statuses (Bot.numbers s) init)) as Hwf.
  { apply count_statuses_wf. unfold Dict.wf.
    apply (bool_decide_unpack (NoDup (init.*1))). vm_compute. exact I. }
  split.
  - intros st Hst. rewrite get_merge by done.
    assert (Dict.get st init = Some 0%Z) as Hi.
    { rewrite !elem_of_cons in Hst.
      repeat destruct Hst as [->|Hst]; try reflexivity.
      by apply elem_of_nil in Hst. }
    by rewrite (count_statuses_get st _ init 0 Hi).
  - intros Ht. rewrite get_merge by done.
    by rewrite (count_statuses_absent "total" _ init eq_refl Ht).
Qed.

Lemma stock_summary_counts_witness :
  Dict.get "total" (Bot.stock_summary BotSpec.pool_AB) = Some 2%Z ∧
  Dict.get "available" (Bot.stock_summary BotSpec.pool_AB) = Some 2%Z.
Proof.
  destruct (stock_summary_counts BotSpec.pool_AB) as [Hst Htot]. split.
  - apply Htot. reflexivity.
  - rewrite Hst by left. reflexivity.
Defined.

(** *** Lists of [app.py] *)

Section app_lists.
Import App AppSpec.





Lemma dict_get_update_lists (l l' : string) (e' : NumberEntry)
    (ls : list (string * list NumberEntry)) :
  Dict.get l' (update_lists l e' ls) =
    if decide (l' = l) then update_in e' <$> Dict.get l ls
    else Dict.get l' ls.
Proof.
  induction ls as [|[name es] ls IH]; simpl.
  - by case_decide.
  - destruct (decide (l = name)) as [->|Hne]; simpl.
    + destruct (decide (l' = name)) as [->|Hne']; [done|done].
    + destruct (decide (l' = name)) as [->|Hne'].
      * by rewrite decide_False by done.
      * apply IH.
Qed.

End app_lists.


(** *** The matcher of the third variant *)

Section part000_lemmas.
Context {C : Type} `{EqDecision C}.
Variables isdigit isword : C → bool.
Variable hyphen : C.
Import Regex RegexSpec.

Lemma match_plain (k : nat) (prev : option C) (s m : list C) :
  match_here isdigit isword (digits k) prev s = Some m ↔
  ∃ post, s = (m ++ post)%list ∧ plain isdigit k prev m post.
Proof.
  rewrite <- (app_nil_r (digits k)), match_digits. unfold plain. split.
  - intros (d & s' & m' & -> & Hd & Hall & [= <-] & ->).
    rewrite app_nil_r. by exists s'.
  - intros (post & -> & Hd & Hall). exists m, post, [].
    by rewrite app_nil_r.
Qed.

Lemma match_plain_hyphenated (prev : option C) (s m : list C) :
  match_here isdigit isword (digits 3 ++ Lit hyphen :: digits 3)%list prev s
    = Some m ↔
  ∃ post, s = (m ++ post)%list ∧
          plain_hyphenated isdigit hyphen prev m post.
Proof.
  rewrite match_digits. unfold plain_hyphenated. split.
  - intros (a & s1 & m1 & -> & Ha & Halla & Hm & ->).
    apply match_lit in Hm as (s2 & m2 & -> & Hm & ->).
    apply match_plain in Hm as (post & -> & Hb & Hallb).
    exists post. split; [by rewrite <- app_assoc|]. by exists a, m2.
  - intros (post & -> & a & b & -> & Ha & Hb & Halla & Hallb).
    exists a, (hyphen :: b ++ post)%list, (hyphen :: b)%list.
    split; [by rewrite <- app_assoc|]. repeat split; [done..|].
    apply match_lit. exists (b ++ post)%list, b.
    split; [done|]. split; [|done]. apply match_plain. by exists post.
Qed.

End part000_lemmas.

(** [extract_otp] of the third variant tries three patterns in order,
    the first one that occurs winning with its leftmost occurrence: six
    digits in a row, then four digits in a row, then three digits, a
    hyphen and three digits, wherever they stand (inside a longer run of
    digits too); the match is returned as it is, hyphen included; it
    returns nothing when none of the three occurs. *)
Theorem part000_extract_otp_ordered {C : Type} `{EqDecision C}
    (isdigit isword : C → bool) (hyphen : C) (msg : list C) :
  let extract := Part000.extract_otp isdigit isword hyphen in
  let plain := RegexSpec.plain isdigit in
  let hyph := RegexSpec.plain_hyphenated isdigit hyphen in
  (∀ m, RegexSpec.leftmost (plain 6%nat) msg m → extract msg = Some m) ∧
  (RegexSpec.nowhere (plain 6%nat) msg →
   ∀ m, RegexSpec.leftmost (plain 4%nat) msg m → extract msg = Some m) ∧
  (RegexSpec.nowhere (plain 6%nat) msg → RegexSpec.nowhere (plain 4%nat) msg →
   ∀ m, RegexSpec.leftmost hyph msg m → extract msg = Some m) ∧
  (RegexSpec.nowhere (plain 6%nat) msg → RegexSpec.nowhere (plain 4%nat) msg →
   RegexSpec.nowhere hyph msg → extract msg = None).
Proof.
  intros extract plain hyph. subst extract plain hyph.
  pose proof (λ k m, search_leftmost isdigit isword _ _
                       (match_plain isdigit isword k) msg m) as Hfound.
  pose proof (λ k, search_nowhere isdigit isword _ _
                     (match_plain isdigit isword k) msg) as Hnone.
  pose proof (search_leftmost isdigit isword _ _
                (match_plain_hyphenated isdigit isword hyphen) msg)
    as Hhfound.
  pose proof (search_nowhere isdigit isword _ _
                (match_plain_hyphenated isdigit isword hyphen) msg)
    as Hhnone.
  unfold Part000.extract_otp, Part000.patterns, Part000.first_match.
  split; [|split; [|split]].
  - intros m Hm. by rewrite (Hfound 6%nat m Hm).
  - intros H6 m Hm. by rewrite (Hnone 6%nat H6), (Hfound 4%nat m Hm).
  - intros H6 H4 m Hm.
    by rewrite (Hnone 6%nat H6), (Hnone 4%nat H4), (Hhfound m Hm).
  - intros H6 H4 Hy.
    by rewrite (Hnone 6%nat H6), (Hnone 4%nat H4), (Hhnone Hy).
Qed.

(** *** Composition of operations *)

(** Two calls of [assign_number] in a row return the same lease and the
    second changes nothing, from any store, provided the lookup of the
    leased number finds the leased record (no other record of the pool
    answers to its name). *)
Theorem assign_number_twice (s : Bot.StateManager) (u t1 t2 : Z)
    (i : nat) (n : Bot.Number) :
  Bot.live_lease s u = None →
  Bot.first_available (Bot.numbers s) = Some (i, n) →
  Bot._find_number (Bot.numbers s) (Bot.number n) = Some (i, n) →
  Bot.assign_number (Bot.assign_number s u t1).1 u t2
  = Bot.assign_number s u t1.
Proof.
  intros Hl Hf Hfind.
  assert (Bot.assign_number s u t1 = Bot.lease_first s u t1 0) as E1
    by (unfold Bot.assign_number; by rewrite Hl).
  rewrite E1. unfold Bot.lease_first. rewrite Hf. cbn [fst].
  set (entry := {| Bot.a_number := Bot.number n; Bot.a_assigned_at := t1;
                   Bot.last_otp := None; Bot.a_last_otp_at := None;
                   Bot.reassign_count := Bot.old_count s u + 0 |}).
  unfold Bot.assign_number, Bot.live_lease.
  cbn [Bot.numbers Bot.assignments]. rewrite get_set_eq.
  cbn [Bot.a_number entry].
  rewrite (_find_number_insert _ _ _ n (Bot.take u t1 n) Hfind eq_refl).
  by rewrite decide_True.
Qed.

Lemma assign_number_twice_witness :
  Bot.assign_number (Bot.assign_number BotSpec.pool_AB 1 100).1 1 200
  = Bot.assign_number BotSpec.pool_AB 1 100.
Proof.
  apply (assign_number_twice BotSpec.pool_AB 1 100 200 0 (BotSpec.fresh "A"));
    vm_compute; reflexivity.
Defined.

(** Once [track_otp] has stamped a record, the sweep leaves it alone at
    every later clock reading, whether the record was retired to
    ["used"] or, without [keep_used_locked], stays assigned. *)
Theorem track_otp_shields_from_sweep (cfg : Bot.Config)
    (s : Bot.StateManager) (num otp service panel : string) (now : Z)
    (i : nat) (n : Bot.Number) :
  Bot._find_number (Bot.numbers s) num = Some (i, n) →
  let s1 := (Bot.track_otp cfg s num otp service panel now).1 in
  Bot.numbers s1 !! i = Some (Bot.stamp cfg now n) ∧
  ∀ later, Bot.numbers (Bot.release_expired cfg s1 later).1 !! i
           = Some (Bot.stamp cfg now n).
Proof.
  intros Hf s1.
  assert (Bot.numbers s1 !! i = Some (Bot.stamp cfg now n)) as Hi.
  { subst s1.
    rewrite (track_otp_found cfg s num otp service panel now i n Hf).
    cbn [fst Bot.numbers]. apply list_lookup_insert_eq.
    apply _find_number_lookup in Hf. by eapply lookup_lt_Some. }
  split; [exact Hi|]. intros later.
  apply release_expired_keeps; [exact Hi|].
  intros (_ & t & _ & _ & Hotp). discriminate Hotp.
Qed.

Lemma track_otp_shields_from_sweep_witness :
  let cfg := {| Bot.release_timeout_minutes := 15;
                Bot.keep_used_locked := false |} in
  let held := Bot.take 1 100 (BotSpec.fresh "A") in
  let s :=
    {| Bot.numbers := [held]; Bot.assignments := [];
       Bot.otp_history := [] |} in
  Bot.numbers
    (Bot.release_expired cfg
       (Bot.track_otp cfg s "A" "482913" "X" "cr" 150).1 9000000000).1
    !! 0%nat
  = Some (Bot.stamp cfg 150 held).
Proof.
  intros cfg held s.
  assert (Bot._find_number (Bot.numbers s) "A" = Some (0%nat, held)) as Hf
    by (vm_compute; reflexivity).
  exact (proj2 (track_otp_shields_from_sweep cfg s "A" "482913" "X" "cr"
                  150 0 held Hf) 9000000000).
Defined.

(** *** Further properties of [app.py] *)

Section app_more.
Import App AppSpec.

Lemma _entry_by_value_update (s : DataStore) (l : string)
    (e0 e' : NumberEntry) :
  _entry_by_value s l (value e') = Some e0 →
  _entry_by_value (_update_entry s l e') l (value e') = Some e'.
Proof.
  unfold _entry_by_value, numbers_of, _update_entry. cbn [lists].
  rewrite dict_get_update_lists, decide_True by done.
  destruct (Dict.get l (lists s)) as [es|]; [|done]. simpl.
  destruct (list_find (λ e, value e = value e') es) as [[idx e1]|] eqn:Hf;
    [|done].
  intros _. unfold update_in. rewrite Hf.
  by erewrite list_find_insert_same.
Qed.

Lemma _entry_by_value_value (s : DataStore) (l v : string) (e : NumberEntry) :
  _entry_by_value s l v = Some e → value e = v.
Proof.
  unfold _entry_by_value.
  destruct (list_find _ _) as [[idx e1]|] eqn:Hf; [|done].
  intros [= <-]. by apply list_find_Some in Hf as (_ & ? & _).
Qed.

End app_more.

(** [release_number] of [app.py]: a requester without an index entry, or
    whose entry names a number its list does not hold, gets [False] and
    nothing changes; otherwise the answer is [True], the requester
    leaves the index, the named entry becomes available with holder and
    timestamp cleared, and no other requester's entry changes. *)
Theorem app_release_number_frees (s : App.DataStore) (u : Z) :
  match App.users s !! Some u with
  | None => App.release_number s u = (s, false)
  | Some cur =>
      match App._entry_by_value s (App.u_list cur) (App.u_number cur) with
      | None => App.release_number s u = (s, false)
      | Some e =>
          let r := App.release_number s u in
          r.2 = true ∧
          App.users r.1 !! Some u = None ∧
          (∀ v, v ≠ u → App.users r.1 !! Some v = App.users s !! Some v) ∧
          App._entry_by_value r.1 (App.u_list cur) (App.u_number cur)
            = Some (App.mark_available e)
      end
  end.
Proof.
  unfold App.release_number, App.user_assignment.
  destruct (App.users s !! Some u) as [cur|]; [|done].
  destruct (App._entry_by_value s (App.u_list cur) (App.u_number cur))
    as [e|] eqn:He; [|done].
  cbn [fst snd App.users App._update_entry].
  split; [done|]. split; [apply lookup_delete_eq|].
  split; [intros v Hv; apply lookup_delete_ne; congruence|].
  pose proof (_entry_by_value_value _ _ _ _ He) as Hv.
  pose proof (_entry_by_value_update s (App.u_list cur) e
                (App.mark_available e)) as Hu.
  simpl in Hu. rewrite Hv in Hu. by apply Hu.
Qed.

(** For a requester whose index entry is in the list asked for,
    [assign_number] is idempotent at a given clock reading: a second
    call returns the same entry and leaves the store as the first call
    left it. *)
Theorem app_assign_number_idempotent (s : App.DataStore) (l : string)
    (u : Z) (un un' : option string) (now : Z) (cur : App.UserEntry) :
  App.users s !! Some u = Some cur → App.u_list cur = l →
  App.assign_number (App.assign_number s l u un now).1 l u un' now
  = App.assign_number s l u un now.
Proof.
  intros Hu Hl.
  assert (∀ name, App.assign_number s l u name now =
            (App._release_expired s now,
             match Dict.get l (App.lists (App._release_expired s now)) with
             | None => None
             | Some _ => App._entry_by_value (App._release_expired s now) l
                           (App.u_number cur)
             end)) as E.
  { intros name. unfold App.assign_number, App.user_assignment.
    rewrite _release_expired_users, Hu.
    destruct (Dict.get l _); [|done]. by rewrite decide_True. }
  rewrite (E un). cbn [fst].
  unfold App.assign_number, App.user_assignment.
  rewrite (_release_expired_noop _ _ (_release_expired_fresh s now)).
  rewrite _release_expired_users, Hu.
  destruct (Dict.get l _); [|done]. by rewrite decide_True.
Qed.

Lemma app_assign_number_idempotent_witness :
  let s := (App.assign_number AppSpec.pool_AB "L" 1 None 100).1 in
  App.assign_number (App.assign_number s "L" 1 None 200).1 "L" 1 None 200
  = App.assign_number s "L" 1 None 200.
Proof.
  intros s.
  apply (app_assign_number_idempotent s "L" 1 None None 200
           {| App.u_list := "L"; App.u_number := "A";
              App.u_assigned_at := Some 100; App.username := None |});
    [vm_compute; reflexivity|reflexivity].
Defined.

(** [deliver_otp] retires every entry it finds, whatever its status: the
    entry becomes ["used"], records the code and one more history item,
    and keeps its holder; the call returns that holder, so an OTP for a
    number nobody holds returns nothing and still retires the number. *)
Theorem deliver_otp_retires_entry (s : App.DataStore)
    (num code source : string) (now : Z) (l : string) (e : App.NumberEntry) :
  Dict.wf (App.lists s) →
  App.assign_by_number s num = Some (l, e) →
  let r := App.deliver_otp s num code source now in
  r.2 = App.assigned_to e ∧
  App.assign_by_number r.1 num
    = Some (l, App.mark_used code source now e) ∧
  App.status (App.mark_used code source now e) = "used" ∧
  App.last_otp (App.mark_used code source now e) = Some code ∧
  length (App.otp_history (App.mark_used code source now e))
    = S (length (App.otp_history e)).
Proof.
  intros Hwf Hf r. subst r. unfold App.assign_by_number in Hf.
  unfold App.deliver_otp, App.assign_by_number.
  rewrite _normalize_idemp, Hf. cbn [fst snd App.lists App._update_entry].
  split; [done|]. split.
  - by apply (scan_lists_update _ _ _ e).
  - split; [done|]. split; [done|]. simpl. rewrite length_app. simpl. lia.
Qed.

Lemma deliver_otp_retires_entry_witness :
  let s :=
    {| App.lists := [("L", [AppSpec.fresh "15550000001"])];
       App.users := ∅; App.ttl_seconds := 3600 |} in
  let r := App.deliver_otp s "+1 555 000 0001" "482913" "auto" 150 in
  r.2 = None ∧
  App.assign_by_number r.1 "+1 555 000 0001"
    = Some ("L", App.mark_used "482913" "auto" 150
                   (AppSpec.fresh "15550000001")).
Proof.
  intros s r.
  assert (Dict.wf (App.lists s)) as Hwf.
  { unfold Dict.wf. simpl. apply NoDup_singleton. }
  assert (App.assign_by_number s "+1 555 000 0001"
          = Some ("L", AppSpec.fresh "15550000001")) as Hf
    by (vm_compute; reflexivity).
  destruct (deliver_otp_retires_entry s "+1 555 000 0001" "482913" "auto"
              150 "L" (AppSpec.fresh "15550000001") Hwf Hf) as (H1 & H2 & _).
  split; [exact H1 | exact H2].
Defined.

(** *** The lease engine of the third variant *)

Section part000_recycle.
Import Part000 Part000Spec.

Lemma is_assigned_active (a : Assignment) : is_assigned a = true ↔ active a.
Proof. unfold is_assigned, active. apply bool_decide_eq_true. Qed.

Lemma due_test (now : Z) (a : Assignment) :
  is_assigned a && (RECYCLE_AFTER <=? now - assigned_at a)%Z = true
  ↔ due now a.
Proof.
  unfold due. rewrite andb_true_iff, is_assigned_active, Z.leb_le. tauto.
Qed.

Lemma recycle_one_spec (now : Z) (a : Assignment) (pools : gmap string Pool) :
  let r := recycle_one now a pools in
  r.1.1 = recycled now a ∧
  r.2 = bool_decide (due now a) ∧
  ∀ pid, r.1.2 !! pid =
         (λ pool, with_available
                    (offer_after now pid [a] (available pool)) pool)
           <$> pools !! pid.
Proof.
  unfold recycle_one, recycled, offer_after. simpl.
  destruct (is_assigned a && _) eqn:Ht.
  - apply due_test in Ht. rewrite decide_True by done. simpl.
    split; [done|]. split; [by rewrite bool_decide_eq_true_2|].
    intros pid. destruct (decide (pool_id a = pid)) as [<-|Hne].
    + destruct (pools !! pool_id a) as [pool|] eqn:Hp; simpl.
      * destruct (decide (number a ∈ available pool)) as [Hin|Hnot].
        -- rewrite Hp. simpl. rewrite decide_False by tauto.
           by destruct pool.
        -- rewrite lookup_insert_eq. by rewrite decide_True.
      * by rewrite Hp.
    + assert (r : ∀ p : Pool, with_available
                (if decide (due now a ∧ pool_id a = pid ∧
                            number a ∉ available p)
                 then (available p ++ [number a])%list else available p) p
              = p).
      { intros p. rewrite decide_False by tauto. by destruct p. }
      destruct (pools !! pool_id a) as [pool|] eqn:Hp.
      * destruct (decide (number a ∈ available pool)).
        -- destruct (pools !! pid); simpl; [by rewrite r|done].
        -- rewrite lookup_insert_ne by done.
           destruct (pools !! pid); simpl; [by rewrite r|done].
      * destruct (pools !! pid); simpl; [by rewrite r|done].
  - assert (¬ due now a) as Hn.
    { intros Hd. apply due_test in Hd. congruence. }
    rewrite decide_False by done. simpl.
    split; [done|]. split; [by rewrite bool_decide_eq_false_2|].
    intros pid. destruct (pools !! pid) as [p|]; simpl; [|done].
    rewrite decide_False by tauto. by destruct p.
Qed.

Lemma recycle_loop_spec (now : Z) (asg : list Assignment)
    (pools : gmap string Pool) :
  let r := recycle_loop now asg pools in
  r.1.1 = recycled now <$> asg ∧
  r.2 = bool_decide (Exists (due now) asg) ∧
  ∀ pid, r.1.2 !! pid =
         (λ pool, with_available
                    (offer_after now pid asg (available pool)) pool)
           <$> pools !! pid.
Proof.
  revert pools. induction asg as [|a rest IH]; intros pools.
  - split; [done|]. split.
    + cbn [recycle_loop snd]. symmetry. apply bool_decide_eq_false_2.
      by intros ?%Exists_nil.
    + cbn [recycle_loop fst snd]. intros pid. destruct (pools !! pid) as [p|]; simpl; [|done].
      by destruct p.
  - simpl. destruct (recycle_one_spec now a pools) as (H1 & H2 & H3).
    destruct (recycle_one now a pools) as [[a' pools1] c1].
    destruct (IH pools1) as (I1 & I2 & I3).
    destruct (recycle_loop now rest pools1) as [[rest' pools2] c2].
    simpl in *. subst. split; [done|]. split.
    + destruct (decide (due now a)) as [Hd|Hd].
      * rewrite (bool_decide_eq_true_2 (due now a)) by done. simpl.
        rewrite bool_decide_eq_true_2; [done|]. by apply Exists_cons_hd.
      * rewrite (bool_decide_eq_false_2 (due now a)) by done. simpl.
        apply bool_decide_ext. rewrite Exists_cons. tauto.
    + intros pid. rewrite I3, H3.
      destruct (pools !! pid) as [p|]; simpl; [|done]. done.
Qed.

Lemma recycle_assignments (d : Data) (now : Z) :
  assignments (recycle_expired_assignments d now).1
  = recycled now <$> assignments d.
Proof.
  unfold recycle_expired_assignments.
  destruct (recycle_loop_spec now (assignments d) (number_pools d))
    as (H1 & _ & _).
  by destruct (recycle_loop _ _ _) as [[asg pools] c].
Qed.

Lemma recycle_pools (d : Data) (now : Z) (pid : string) :
  number_pools (recycle_expired_assignments d now).1 !! pid
  = (λ pool, with_available
               (offer_after now pid (assignments d) (available pool)) pool)
      <$> number_pools d !! pid.
Proof.
  unfold recycle_expired_assignments.
  destruct (recycle_loop_spec now (assignments d) (number_pools d))
    as (_ & _ & H3).
  destruct (recycle_loop _ _ _) as [[asg pools] c]. apply H3.
Qed.

Lemma recycle_changed (d : Data) (now : Z) :
  (recycle_expired_assignments d now).2
  = bool_decide (Exists (due now) (assignments d)).
Proof.
  unfold recycle_expired_assignments.
  destruct (recycle_loop_spec now (assignments d) (number_pools d))
    as (_ & H2 & _).
  by destruct (recycle_loop _ _ _) as [[asg pools] c].
Qed.

Lemma recycle_rest (d : Data) (now : Z) :
  users (recycle_expired_assignments d now).1 = users d ∧
  otp_deliveries (recycle_expired_assignments d now).1 = otp_deliveries d.
Proof.
  unfold recycle_expired_assignments.
  by destruct (recycle_loop _ _ _) as [[asg pools] c].
Qed.

Lemma offer_after_app (now : Z) (pid : string) (asg : list Assignment)
    (av : list string) :
  ∃ back, offer_after now pid asg av = (av ++ back)%list ∧
          ∀ x, x ∈ back ↔
               (x ∉ av) ∧ ∃ a, a ∈ asg ∧ due now a ∧ pool_id a = pid ∧
                                number a = x.
Proof.
  revert av. induction asg as [|a rest IH]; intros av.
  - exists []. simpl. split; [by rewrite app_nil_r|].
    intros x. split; [by intros ?%elem_of_nil|].
    by intros (_ & a & ?%elem_of_nil & _).
  - unfold offer_after. simpl. case_decide as Hc.
    + destruct Hc as (Hd & Hp & Hnot).
      destruct (IH (av ++ [number a])%list) as (back & E & Hb).
      exists (number a :: back). unfold offer_after in E. rewrite E.
      split; [by rewrite <- app_assoc|].
      intros x. rewrite elem_of_cons, Hb. split.
      * intros [->|(Hx & b & Hin & Hdb & Hpb & Hnb)].
        -- split; [done|]. exists a. split; [left|done].
        -- split; [intros ?; apply Hx, elem_of_app; by left|].
           exists b. split; [by right|done].
      * intros (Hx & b & Hin & Hdb & Hpb & Hnb).
        destruct (decide (x = number a)) as [->|Hne]; [by left|].
        right. split.
        -- intros [?|?%list_elem_of_singleton]%elem_of_app; done.
        -- apply elem_of_cons in Hin as [->|Hin]; [done|]. by exists b.
    + destruct (IH av) as (back & E & Hb).
      exists back. unfold offer_after in E. rewrite E. split; [done|].
      intros x. rewrite Hb. split.
      * intros (Hx & b & Hin & Hrest). split; [done|].
        exists b. split; [by right|done].
      * intros (Hx & b & Hin & Hdb & Hpb & Hnb). split; [done|].
        apply elem_of_cons in Hin as [->|Hin]; [|by exists b].
        exfalso. apply Hc. by subst.
Qed.

Lemma offer_after_NoDup (now : Z) (pid : string) (asg : list Assignment)
    (av : list string) :
  NoDup av → NoDup (offer_after now pid asg av).
Proof.
  revert av. induction asg as [|a rest IH]; intros av Hav; [done|].
  unfold offer_after. simpl. case_decide as Hc; [|by apply IH].
  apply IH. apply NoDup_app. split; [done|].
  split; [|apply NoDup_singleton].
  intros x Hx ->%list_elem_of_singleton. tauto.
Qed.

Lemma recycled_active (now : Z) (a : Assignment) :
  active (recycled now a) ↔ active a ∧ ¬ due now a.
Proof.
  unfold recycled. case_decide as Hd.
  - split; [done|]. tauto.
  - split; [tauto|]. tauto.
Qed.

Lemma recycled_not_due (now : Z) (a : Assignment) : ¬ due now (recycled now a).
Proof.
  intros [Ha Hd]. apply recycled_active in Ha as [Ha Hn].
  apply Hn. split; [done|]. unfold recycled in Hd.
  by rewrite decide_False in Hd.
Qed.

Lemma recycled_fields (now : Z) (a : Assignment) :
  user_id (recycled now a) = user_id a ∧
  number (recycled now a) = number a ∧
  pool_id (recycled now a) = pool_id a ∧
  assigned_at (recycled now a) = assigned_at a.
Proof. unfold recycled. by case_decide. Qed.

End part000_recycle.

Section part000_sort.
Import Part000 Part000Spec.

Lemma insert_desc_perm (x : nat * Assignment) (l : list (nat * Assignment)) :
  insert_desc x l ≡ₚ x :: l.
Proof.
  induction l as [|y l IH]; simpl; [done|].
  destruct (_ <=? _)%Z; [done|]. rewrite IH. apply Permutation_swap.
Qed.

Lemma insert_desc_sorted (x : nat * Assignment)
    (l : list (nat * Assignment)) :
  StronglySorted precedes l → Forall (λ z, (x.1 < z.1)%nat) l →
  StronglySorted precedes (insert_desc x l).
Proof.
  induction 1 as [|y l Hs IH Hall]; intros Hidx; simpl.
  - repeat constructor.
  - apply Forall_cons in Hidx as [Hy Hidx].
    destruct (Z.leb_spec (assigned_at y.2) (assigned_at x.2)) as [Hle|Hlt].
    + constructor; [by constructor|]. constructor.
      * unfold precedes. lia.
      * rewrite Forall_forall in Hall, Hidx. apply Forall_forall.
        intros z Hz. specialize (Hall z Hz). specialize (Hidx z Hz).
        unfold precedes in *. lia.
    + constructor; [by apply IH|].
      rewrite insert_desc_perm. constructor; [|done]. by left.
Qed.

Lemma sorted_desc_from (k : nat) (l : list Assignment) :
  let L := foldr insert_desc [] (imap (λ i a, ((k + i)%nat, a)) l) in
  StronglySorted precedes L ∧
  Forall (λ z, (k ≤ z.1)%nat) L ∧
  L ≡ₚ imap (λ i a, ((k + i)%nat, a)) l.
Proof.
  revert k. induction l as [|a l IH]; intros k.
  - simpl. split; [constructor|]. split; [constructor|done].
  - cbv zeta. rewrite imap_cons. cbn [foldr].
    assert (imap ((λ i b, ((k + i)%nat, b)) ∘ S) l
            = imap (λ i b, ((S k + i)%nat, b)) l) as E.
    { apply imap_ext. intros i b _. simpl. f_equal. lia. }
    rewrite E. destruct (IH (S k)) as (Hs & Hk & Hp).
    set (L := foldr insert_desc [] (imap (λ i b, ((S k + i)%nat, b)) l))
      in *.
    split; [|split].
    + apply insert_desc_sorted; [done|].
      eapply Forall_impl; [exact Hk|]. simpl. intros z Hz. lia.
    + rewrite insert_desc_perm. constructor; [simpl; lia|].
      eapply Forall_impl; [exact Hk|]. simpl. intros z Hz. lia.
    + rewrite insert_desc_perm. by rewrite Hp.
Qed.

Lemma sorted_desc_sorted (l : list Assignment) :
  StronglySorted precedes (sorted_desc l).
Proof. apply (sorted_desc_from 0 l). Qed.

Lemma sorted_desc_elem (l : list Assignment) (i : nat) (a : Assignment) :
  (i, a) ∈ sorted_desc l ↔ l !! i = Some a.
Proof.
  destruct (sorted_desc_from 0 l) as (_ & _ & Hp).
  unfold sorted_desc.
  assert (imap pair l = imap (λ i a, ((0 + i)%nat, a)) l) as E
    by (by apply imap_ext).
  rewrite E, Hp, elem_of_lookup_imap. split.
  - by intros (j & b & [= -> ->] & Hl).
  - intros Hl. by exists i, a.
Qed.

Lemma latest_assigned_Some (num : string) (asg : list Assignment) (i : nat)
    (a : Assignment) :
  latest_assigned num asg = Some (i, a) → latest num asg i a.
Proof.
  unfold latest_assigned, latest.
  destruct (list_find _ _) as [[idx x]|] eqn:Hf; [|done].
  simpl. intros [= ->]. apply list_find_Some in Hf as (Hidx & [Hn Ha] & Hb).
  simpl in *.
  split; [by eapply sorted_desc_elem, list_elem_of_lookup_2|].
  split; [done|]. split; [done|].
  intros j b Hj Hnb Hab Hne.
  apply sorted_desc_elem, list_elem_of_lookup_1 in Hj as [idx' Hj].
  pose proof (sorted_desc_sorted asg) as Hs.
  rewrite <- (take_drop_middle _ _ _ Hidx) in Hs, Hj.
  apply StronglySorted_app in Hs as (_ & _ & Hs).
  apply StronglySorted_cons in Hs as [Hall _].
  rewrite Forall_forall in Hall.
  assert ((j, b) ∈ (take idx (sorted_desc asg)
                      ++ (i, a) :: drop (S idx) (sorted_desc asg))%list)
    as Hin by (by eapply list_elem_of_lookup_2).
  apply elem_of_app in Hin as [Hin|Hin].
  - apply list_elem_of_lookup_1 in Hin as [m Hm].
    pose proof (lookup_lt_Some _ _ _ Hm) as Hlt.
    rewrite lookup_take_lt in Hm
      by (rewrite length_take in Hlt; lia).
    rewrite length_take in Hlt.
    exfalso. apply (Hb m (j, b)); [done|lia|]. by split.
  - apply elem_of_cons in Hin as [[= -> ->]|Hin]; [done|].
    specialize (Hall _ Hin). unfold precedes in Hall. simpl in Hall. lia.
Qed.

Lemma latest_assigned_None (num : string) (asg : list Assignment) :
  latest_assigned num asg = None →
  ∀ b, b ∈ asg → number b = num → ¬ active b.
Proof.
  unfold latest_assigned.
  destruct (list_find _ _) as [[idx x]|] eqn:Hf; [done|]. intros _.
  apply list_find_None in Hf. rewrite Forall_forall in Hf.
  intros b [j Hj]%list_elem_of_lookup_1 Hn Ha.
  apply sorted_desc_elem in Hj. apply (Hf _ Hj). by split.
Qed.

Lemma latest_unique (num : string) (asg : list Assignment) (i j : nat)
    (a b : Assignment) :
  latest num asg i a → latest num asg j b → i = j ∧ a = b.
Proof.
  intros (Hi & Hna & Haa & Ha) (Hj & Hnb & Hab & Hb).
  destruct (decide (i = j)) as [->|Hne]; [split; congruence|].
  specialize (Ha j b Hj Hnb Hab ltac:(congruence)).
  specialize (Hb i a Hi Hna Haa ltac:(congruence)). lia.
Qed.

End part000_sort.

Section part000_consistent.
Import Part000 Part000Spec.

Lemma data_eq (d d' : Data) :
  users d = users d' → number_pools d = number_pools d' →
  assignments d = assignments d' → otp_deliveries d = otp_deliveries d' →
  d = d'.
Proof. destruct d, d'. simpl. congruence. Qed.

Lemma filter_sublist_mono {A} (P : A → Prop) `{∀ x, Decision (P x)}
    (l1 l2 : list A) :
  l1 `sublist_of` l2 → filter P l1 `sublist_of` filter P l2.
Proof.
  induction 1 as [|x l1 l2 Hs IH|x l1 l2 Hs IH]; [done| |].
  - rewrite !filter_cons. destruct (decide (P x)); [by constructor|done].
  - rewrite filter_cons. destruct (decide (P x)); [by constructor|done].
Qed.

Lemma active_sublist (l' l : list Assignment) :
  length l' = length l →
  (∀ j a', l' !! j = Some a' → active a' → l !! j = Some a') →
  filter active l' `sublist_of` filter active l.
Proof.
  revert l. induction l' as [|x l' IH]; intros [|y l] Hlen Hact;
    try done.
  injection Hlen as Hlen.
  assert (filter active l' `sublist_of` filter active l) as Hs.
  { apply IH; [done|]. intros j a' Hj. apply (Hact (S j) a' Hj). }
  rewrite !filter_cons. destruct (decide (active x)) as [Hx|Hx].
  - specialize (Hact 0%nat x eq_refl Hx). injection Hact as <-.
    rewrite decide_True by done. by constructor.
  - destruct (decide (active y)); [by constructor|done].
Qed.

Lemma nodup_key_index {B} (f : Assignment → B) (l : list Assignment)
    (i j : nat) (a b : Assignment) :
  NoDup (f <$> filter active l) →
  l !! i = Some a → l !! j = Some b → active a → active b → f a = f b →
  i = j.
Proof.
  revert i j. induction l as [|x l IH]; intros i j Hnd Hi Hj Ha Hb Hf;
    [done|].
  assert (NoDup (f <$> filter active l)) as Hnd'.
  { rewrite filter_cons in Hnd. destruct (decide (active x)); [|done].
    by apply NoDup_cons in Hnd as [_ ?]. }
  assert (∀ k c, l !! k = Some c → active c → f c = f x → active x → False)
    as Hhead.
  { intros k c Hk Hc Hfc Hx. rewrite filter_cons, decide_True in Hnd by done.
    apply NoDup_cons in Hnd as [Hnot _]. apply Hnot. rewrite <- Hfc.
    apply list_elem_of_fmap_2, list_elem_of_filter. split; [done|].
    by eapply list_elem_of_lookup_2. }
  destruct i as [|i], j as [|j]; simpl in *.
  - done.
  - injection Hi as ->. exfalso. by eapply (Hhead j b).
  - injection Hj as ->. exfalso. by eapply (Hhead i a).
  - f_equal. by apply IH.
Qed.

Lemma consistent_same_offer (d d' : Data) :
  consistent d →
  (∀ pid pool', number_pools d' !! pid = Some pool' →
                ∃ pool, number_pools d !! pid = Some pool ∧
                        available pool' = available pool) →
  length (assignments d') = length (assignments d) →
  (∀ j a', assignments d' !! j = Some a' → active a' →
           assignments d !! j = Some a') →
  consistent d'.
Proof.
  intros [H1 H2 H3 H4] Hp Hlen Hact.
  pose proof (active_sublist _ _ Hlen Hact) as Hs. split.
  - intros pid pool' (pool & Hpool & ->)%Hp. by eapply H1.
  - intros a' pool' [j Hj]%list_elem_of_lookup_1 Ha (pool & Hpool & ->)%Hp.
    apply Hact in Hj; [|done]. apply (H2 a'); [|done|done].
    by eapply list_elem_of_lookup_2.
  - unfold leases. eapply sublist_NoDup; [exact H3|]. by apply fmap_sublist.
  - unfold holders. eapply sublist_NoDup; [exact H4|]. by apply fmap_sublist.
Qed.

Lemma recycle_consistent (d : Data) (now : Z) :
  consistent d → consistent (recycle_expired_assignments d now).1.
Proof.
  intros Hd. pose proof Hd as [H1 H2 H3 H4].
  assert (∀ j a', assignments (recycle_expired_assignments d now).1 !! j
                  = Some a' → active a' →
                  assignments d !! j = Some a' ∧ ¬ due now a') as Hact.
  { intros j a'. rewrite recycle_assignments, list_lookup_fmap.
    destruct (assignments d !! j) as [a|]; [|done]. simpl.
    intros [= <-] [Ha Hn]%recycled_active. unfold recycled.
    by rewrite decide_False. }
  assert (filter active (assignments (recycle_expired_assignments d now).1)
            `sublist_of` filter active (assignments d)) as Hs.
  { apply active_sublist.
    - by rewrite recycle_assignments, length_fmap.
    - intros j a' Hj Ha. by apply Hact. }
  split.
  - intros pid pool'. rewrite recycle_pools.
    destruct (number_pools d !! pid) as [pool|] eqn:Hp; [|done].
    simpl. intros [= <-]. simpl. apply offer_after_NoDup. by eapply H1.
  - intros a' pool' [j Hj]%list_elem_of_lookup_1 Ha.
    destruct (Hact j a' Hj Ha) as [Hj' Hnd].
    rewrite recycle_pools.
    destruct (number_pools d !! pool_id a') as [pool|] eqn:Hp; [|done].
    simpl. intros [= <-]. simpl.
    destruct (offer_after_app now (pool_id a') (assignments d)
                (available pool)) as (back & -> & Hback).
    intros [Hin|Hin]%elem_of_app.
    + revert Hin. apply (H2 a'); [by eapply list_elem_of_lookup_2|done..].
    + apply Hback in Hin
        as (_ & b & [k Hk]%list_elem_of_lookup_1 & Hdb & Hpb & Hnb).
      assert (k = j) as ->.
      { apply (nodup_key_index (λ a, (pool_id a, number a)) (assignments d)
                 k j b a' H3 Hk Hj'); [by destruct Hdb|done|].
        by rewrite Hpb, Hnb. }
      simplify_eq. done.
  - unfold leases. eapply sublist_NoDup; [exact H3|]. by apply fmap_sublist.
  - unfold holders. eapply sublist_NoDup; [exact H4|]. by apply fmap_sublist.
Qed.

Lemma assign_consistent (d0 : Data) (uid : Z) (uname pid : string)
    (now stamp : Z) :
  consistent d0 →
  consistent (assign_number_to_user d0 uid uname pid now stamp).1.
Proof.
  intros Hd0. unfold assign_number_to_user.
  pose proof (recycle_consistent d0 now Hd0) as Hd.
  set (d := (recycle_expired_assignments d0 now).1) in *.
  destruct (number_pools d !! pid) as [pool|] eqn:Hp; [|done].
  destruct (list_find _ _) as [[k a]|] eqn:Hf; [done|].
  destruct (available pool) as [|num rest] eqn:Hav; [done|].
  cbn [fst]. destruct Hd as [H1 H2 H3 H4].
  apply list_find_None in Hf. rewrite Forall_forall in Hf.
  pose proof (H1 pid pool Hp) as Hnd. rewrite Hav in Hnd.
  apply NoDup_cons in Hnd as [Hnum Hrest].
  assert (filter active (assignments d
                           ++ [new_assignment uid uname num pid stamp])%list
          = (filter active (assignments d)
               ++ [new_assignment uid uname num pid stamp])%list) as Efil.
  { rewrite filter_app. f_equal. }
  split; cbn [number_pools assignments].
  - intros pid' pool' [ [? ?] | [Hne Hp'] ]%lookup_insert_Some;
      [by subst|]. by eapply H1.
  - intros a pool' [Hin | ->%list_elem_of_singleton]%elem_of_app Ha.
    + intros [ [He ?] | [Hne Hp'] ]%lookup_insert_Some.
      * subst pool'. simpl. rewrite He in Hp.
        pose proof (H2 a pool Hin Ha Hp) as Hnot. rewrite Hav in Hnot.
        by apply not_elem_of_cons in Hnot as [_ ?].
      * by apply (H2 a).
    + simpl. rewrite lookup_insert_eq. by intros [= <-].
  - unfold leases. cbn [assignments]. rewrite Efil, fmap_app.
    apply NoDup_app. split; [exact H3|]. split; [|apply NoDup_singleton].
    intros x Hx ->%list_elem_of_singleton.
    apply list_elem_of_fmap in Hx as (b & [= Hpb Hnb] & [Hb Hin]%list_elem_of_filter).
    simpl in *. rewrite Hpb in Hp.
    pose proof (H2 b pool Hin Hb Hp) as Hnot. rewrite Hav, <- Hnb in Hnot.
    apply Hnot. left.
  - unfold holders. cbn [assignments]. rewrite Efil, fmap_app.
    apply NoDup_app. split; [exact H4|]. split; [|apply NoDup_singleton].
    intros x Hx ->%list_elem_of_singleton.
    apply list_elem_of_fmap in Hx as (b & Hub & [Hb Hin]%list_elem_of_filter).
    simpl in Hub. apply (Hf b Hin). by split.
Qed.

Lemma mark_consistent (d : Data) (num otp panel message : string) (now : Z) :
  consistent d → consistent (mark_assignment_used d num otp panel message now).
Proof.
  intros Hd. unfold mark_assignment_used.
  destruct (latest_assigned num (assignments d)) as [[i a]|] eqn:Hl.
  - apply latest_assigned_Some in Hl as (Hi & _).
    apply (consistent_same_offer d); [done| | |]; cbn [number_pools assignments].
    + intros pid pool'.
      destruct (number_pools d !! pool_id a) as [pool|] eqn:Hp;
        [|by eexists].
      destruct (decide (num ∈ used pool)); [by eexists|].
      intros [ [? ?] | [Hne Hp'] ]%lookup_insert_Some;
        [subst; by eexists|by eexists].
    + by rewrite length_insert.
    + intros j a' [ (? & ? & _) | [_ ?] ]%list_lookup_insert_Some;
        [by subst|done].
  - apply (consistent_same_offer d); [done|by eexists|done|done].
Qed.

Lemma remove_consistent (d : Data) (country_code label : string) :
  consistent d → consistent (remove_number_list d country_code label).1.
Proof.
  intros [H1 H2 H3 H4]. unfold remove_number_list.
  destruct (number_pools d !! _) as [pool|] eqn:Hp; [|done].
  cbn [fst]. split; cbn [number_pools assignments].
  - intros pid pool' [_ Hp']%lookup_delete_Some. by eapply H1.
  - intros a pool' [Hne Hin]%list_elem_of_filter Ha
      [_ Hp']%lookup_delete_Some.
    by apply (H2 a).
  - unfold leases. cbn [assignments]. eapply sublist_NoDup; [exact H3|].
    apply fmap_sublist, filter_sublist_mono, sublist_filter.
  - unfold holders. cbn [assignments]. eapply sublist_NoDup; [exact H4|].
    apply fmap_sublist, filter_sublist_mono, sublist_filter.
Qed.

End part000_consistent.

Section part000_more.
Import Part000 Part000Spec.

Lemma offer_after_none (now : Z) (pid : string) (asg : list Assignment)
    (av : list string) :
  Forall (λ a, ¬ due now a) asg → offer_after now pid asg av = av.
Proof.
  induction 1 as [|a rest Ha Hrest IH]; [done|].
  unfold offer_after. simpl. rewrite decide_False by tauto. apply IH.
Qed.

Lemma with_available_same (pool : Pool) :
  with_available (available pool) pool = pool.
Proof. by destruct pool. Qed.

Lemma recycled_recycled (now : Z) (a : Assignment) :
  recycled now (recycled now a) = recycled now a.
Proof.
  unfold recycled at 1. rewrite decide_False; [done|].
  apply recycled_not_due.
Qed.

Lemma upper_char_idemp (c : ascii) : upper_char (upper_char c) = upper_char c.
Proof.
  destruct c as [[] [] [] [] [] [] [] []]; vm_compute; reflexivity.
Qed.

Lemma upper_idemp (s : string) : upper (upper s) = upper s.
Proof.
  induction s as [|c s IH]; [done|]. simpl. by rewrite upper_char_idemp, IH.
Qed.

Lemma store_US_consistent : consistent store_US.
Proof.
  split.
  - intros pid pool. unfold store_US. cbn [number_pools].
    intros [<- <-]%lookup_singleton_Some. simpl.
    apply (bool_decide_unpack _). vm_compute. exact I.
  - intros a pool Hin. by apply elem_of_nil in Hin.
  - constructor.
  - constructor.
Defined.

Lemma store_leased_assignments :
  assignments store_leased
  = [new_assignment 1 "ann" "15550000001" "US::main" 5].
Proof. vm_compute. reflexivity. Defined.

End part000_more.

(** [recycle_expired_assignments] of the third variant: an assignment
    in force for at least [RECYCLE_AFTER] (the bound included) becomes
    ["expired"], stamped with the clock reading, and its number is on
    offer in its pool afterwards; every other assignment is left as it
    is.  A pool keeps the numbers it offered, in their order, and gets
    the recycled ones behind them; nothing else of the store changes.
    The answer is [True] exactly when some assignment was recycled. *)
Theorem recycle_expired_assignments_returns (d : Part000.Data) (now : Z) :
  let r := Part000.recycle_expired_assignments d now in
  (∀ i a, Part000.assignments d !! i = Some a → Part000Spec.due now a →
          Part000.assignments r.1 !! i = Some (Part000.expire now a)) ∧
  (∀ i a, Part000.assignments d !! i = Some a → ¬ Part000Spec.due now a →
          Part000.assignments r.1 !! i = Some a) ∧
  length (Part000.assignments r.1) = length (Part000.assignments d) ∧
  (∀ pid pool,
     Part000.number_pools d !! pid = Some pool →
     ∃ back,
       Part000.number_pools r.1 !! pid
         = Some (Part000Spec.with_available
                   (Part000.available pool ++ back)%list pool) ∧
       ∀ x, x ∈ back ↔
            (x ∉ Part000.available pool) ∧
            ∃ a, a ∈ Part000.assignments d ∧ Part000Spec.due now a ∧
                 Part000.pool_id a = pid ∧ Part000.number a = x) ∧
  (∀ pid, Part000.number_pools d !! pid = None →
          Part000.number_pools r.1 !! pid = None) ∧
  (r.2 = true ↔ ∃ a, a ∈ Part000.assignments d ∧ Part000Spec.due now a) ∧
  Part000.users r.1 = Part000.users d ∧
  Part000.otp_deliveries r.1 = Part000.otp_deliveries d.
Proof.
  intros r. subst r.
  split; [|split; [|split; [|split; [|split; [|split]]]]].
  - intros i a Hi Hd. rewrite recycle_assignments, list_lookup_fmap, Hi.
    simpl. unfold Part000Spec.recycled. by rewrite decide_True.
  - intros i a Hi Hd. rewrite recycle_assignments, list_lookup_fmap, Hi.
    simpl. unfold Part000Spec.recycled. by rewrite decide_False.
  - by rewrite recycle_assignments, length_fmap.
  - intros pid pool Hp. rewrite recycle_pools, Hp. simpl.
    destruct (offer_after_app now pid (Part000.assignments d)
                (Part000.available pool)) as (back & -> & Hback).
    by exists back.
  - intros pid Hp. by rewrite recycle_pools, Hp.
  - rewrite recycle_changed, bool_decide_eq_true. apply Exists_exists.
  - apply recycle_rest.
Qed.

(** A second sweep at the same clock reading finds nothing to recycle:
    it answers [False] and leaves the store as the first sweep left
    it. *)
Theorem recycle_expired_assignments_idempotent (d : Part000.Data) (now : Z) :
  Part000.recycle_expired_assignments
    (Part000.recycle_expired_assignments d now).1 now
  = ((Part000.recycle_expired_assignments d now).1, false).
Proof.
  assert (Forall (λ a, ¬ Part000Spec.due now a)
            (Part000.assignments
               (Part000.recycle_expired_assignments d now).1)) as Hnone.
  { rewrite recycle_assignments. apply Forall_fmap, Forall_forall.
    intros a _. apply recycled_not_due. }
  apply injective_projections; cbn [fst snd].
  - apply data_eq.
    + rewrite (proj1 (recycle_rest _ now)). done.
    + apply map_eq. intros pid. rewrite recycle_pools.
      destruct (Part000.number_pools _ !! pid) as [pool|]; [|done].
      simpl. by rewrite offer_after_none, with_available_same.
    + rewrite recycle_assignments. rewrite recycle_assignments.
      rewrite <- list_fmap_compose. apply list_fmap_ext.
      intros i a _. apply recycled_recycled.
    + rewrite (proj2 (recycle_rest _ now)). done.
  - rewrite recycle_changed. apply bool_decide_eq_false_2.
    intros (a & Ha & Hd)%Exists_exists.
    rewrite Forall_forall in Hnone. by apply (Hnone a).
Qed.

(** The operations of the third variant keep the store consistent: no
    pool offers a number twice or offers a number that is under lease
    in it, no number of a pool is under two leases, and no requester
    holds two leases. *)
Theorem part000_engine_keeps_consistent (d : Part000.Data) :
  Part000Spec.consistent d →
  (∀ now,
     Part000Spec.consistent (Part000.recycle_expired_assignments d now).1) ∧
  (∀ uid uname pid now stamp,
     Part000Spec.consistent
       (Part000.assign_number_to_user d uid uname pid now stamp).1) ∧
  (∀ num otp panel message now,
     Part000Spec.consistent
       (Part000.mark_assignment_used d num otp panel message now)) ∧
  (∀ country_code label,
     Part000Spec.consistent
       (Part000.remove_number_list d country_code label).1).
Proof.
  intros Hd. split; [|split; [|split]].
  - intros now. by apply recycle_consistent.
  - intros uid uname pid now stamp. by apply assign_consistent.
  - intros num otp panel message now. by apply mark_consistent.
  - intros country_code label. by apply remove_consistent.
Qed.

Lemma part000_engine_keeps_consistent_witness :
  let d := Part000Spec.store_US in
  Part000Spec.consistent
    (Part000.assign_number_to_user d 1 "ann" "US::main" 0 5).1 ∧
  Part000Spec.consistent
    (Part000.mark_assignment_used d "15550000001" "482913" "p" "m" 9).
Proof.
  intros d.
  destruct (part000_engine_keeps_consistent d store_US_consistent)
    as (_ & Ha & Hm & _).
  split; [apply Ha | apply Hm].
Defined.

(** A requester with a lease in force that the sweep does not recycle
    gets the number of that lease again, whichever existing list it
    asks for, and nothing but the sweep happens to the store; when the
    list asked for does not exist the answer is "List not found" even
    then. *)
Theorem assign_number_to_user_returns_lease (d : Part000.Data) (uid : Z)
    (uname pid : string) (now stamp : Z) (a : Part000.Assignment) :
  NoDup (Part000Spec.holders d) →
  a ∈ Part000.assignments d → Part000.user_id a = uid →
  Part000Spec.active a → (now - Part000.assigned_at a < Part000.RECYCLE_AFTER)%Z →
  let r := Part000.assign_number_to_user d uid uname pid now stamp in
  r.1 = (Part000.recycle_expired_assignments d now).1 ∧
  (is_Some (Part000.number_pools d !! pid) →
   r.2 = (Some (Part000.number a), Part000.AlreadyActive)) ∧
  (Part000.number_pools d !! pid = None →
   r.2 = (None, Part000.ListNotFound)).
Proof.
  intros Hnd [i Hi]%list_elem_of_lookup_1 Hu Ha Hnow r. subst r.
  unfold Part000.assign_number_to_user.
  set (d' := (Part000.recycle_expired_assignments d now).1).
  assert (¬ Part000Spec.due now a) as Hnd' by (intros [_ ?]; lia).
  assert (Part000.number_pools d' !! pid = None ↔
          Part000.number_pools d !! pid = None) as Hpool.
  { subst d'. rewrite recycle_pools.
    by destruct (Part000.number_pools d !! pid). }
  destruct (Part000.number_pools d' !! pid) as [pool'|] eqn:Hp'.
  - destruct (list_find _ (Part000.assignments d')) as [[k b]|] eqn:Hf.
    + cbn [fst snd]. split; [done|]. split; [|intros Hn; apply Hpool in Hn; done].
      intros _. apply list_find_Some in Hf as (Hk & [Hub Hab] & _).
      subst d'. rewrite recycle_assignments, list_lookup_fmap in Hk.
      destruct (Part000.assignments d !! k) as [b0|] eqn:Hk0; [|done].
      injection Hk as <-.
      assert (Part000Spec.active (Part000Spec.recycled now b0)) as Hact
        by exact Hab.
      apply recycled_active in Hact as [Hb0 Hnb0].
      unfold Part000Spec.recycled in *.
      rewrite decide_False in * by done.
      assert (k = i) as ->.
      { apply (nodup_key_index Part000.user_id (Part000.assignments d)
                 k i b0 a Hnd Hk0 Hi Hb0 Ha). congruence. }
      by simplify_eq.
    + exfalso. apply list_find_None in Hf. rewrite Forall_forall in Hf.
      apply (Hf a).
      * subst d'. rewrite recycle_assignments.
        apply list_elem_of_fmap. exists a. split.
        -- unfold Part000Spec.recycled. by rewrite decide_False.
        -- by eapply list_elem_of_lookup_2.
      * by split.
  - cbn [fst snd]. split; [done|]. split; [|done].
    intros [p Hp]. assert (Part000.number_pools d !! pid = None) as Hn
      by (by apply Hpool). congruence.
Qed.

Lemma assign_number_to_user_returns_lease_witness :
  (Part000.assign_number_to_user Part000Spec.store_leased
     1 "ann" "US::main" 100 200).2
  = (Some "15550000001", Part000.AlreadyActive).
Proof.
  destruct (assign_number_to_user_returns_lease Part000Spec.store_leased
              1 "ann" "US::main" 100 200
              (Part000.new_assignment 1 "ann" "15550000001" "US::main" 5))
    as (_ & H & _).
  - unfold Part000Spec.holders. rewrite store_leased_assignments.
    vm_compute. apply NoDup_singleton.
  - rewrite store_leased_assignments. left.
  - reflexivity.
  - reflexivity.
  - vm_compute. reflexivity.
  - apply H. eexists. vm_compute. reflexivity.
Defined.

(** A requester without a lease is given the first number on offer in
    the list it asks for: the number leaves the offer, a lease in force
    for it is appended to the assignments, and the requester's counter
    goes up by one.  Numbers recycled by the sweep the call starts with
    queue behind those already on offer. *)
Theorem assign_number_to_user_first_on_offer (d : Part000.Data) (uid : Z)
    (uname pid : string) (now stamp : Z) (pool : Part000.Pool)
    (num : string) (rest : list string) :
  Part000.number_pools d !! pid = Some pool →
  Part000.available pool = num :: rest →
  (∀ a, a ∈ Part000.assignments d → Part000.user_id a = uid →
        ¬ Part000Spec.active a) →
  let r := Part000.assign_number_to_user d uid uname pid now stamp in
  r.2 = (Some num, Part000.Assigned) ∧
  (∃ back,
     Part000.number_pools r.1 !! pid
       = Some (Part000Spec.with_available (rest ++ back)%list pool) ∧
     ∀ x, x ∈ back →
          ∃ a, a ∈ Part000.assignments d ∧ Part000Spec.due now a ∧
               Part000.pool_id a = pid ∧ Part000.number a = x) ∧
  Part000.assignments r.1
    = ((Part000Spec.recycled now <$> Part000.assignments d)
         ++ [Part000.new_assignment uid uname num pid stamp])%list ∧
  Part000.users r.1 !! uid
    = Some (Part000.count_assignment pid
              (default (Part000.new_user uid uname)
                 (Part000.users d !! uid))) ∧
  (∀ v, v ≠ uid → Part000.users r.1 !! v = Part000.users d !! v).
Proof.
  intros Hp Hav Hnone r. subst r. unfold Part000.assign_number_to_user.
  set (d' := (Part000.recycle_expired_assignments d now).1).
  destruct (offer_after_app now pid (Part000.assignments d)
              (Part000.available pool)) as (back & Eoff & Hback).
  assert (Part000.number_pools d' !! pid
          = Some (Part000Spec.with_available (num :: rest ++ back) pool))
    as Hp'.
  { subst d'. rewrite recycle_pools, Hp. simpl. by rewrite Eoff, Hav. }
  rewrite Hp'.
  assert (list_find (λ a, Part000.user_id a = uid
                          ∧ Part000.status a = Some "assigned")
            (Part000.assignments d') = None) as Hf.
  { apply list_find_None, Forall_forall. intros b Hb [Hub Hab].
    subst d'. rewrite recycle_assignments in Hb.
    apply list_elem_of_fmap in Hb as (b0 & -> & Hb0).
    assert (Part000Spec.active (Part000Spec.recycled now b0)) as Hact
      by exact Hab.
    apply recycled_active in Hact as [Hact _].
    apply (Hnone b0 Hb0); [|done].
    by rewrite <- (proj1 (recycled_fields now b0)). }
  rewrite Hf. cbn [Part000.available Part000Spec.with_available fst snd
                   Part000.number_pools Part000.assignments Part000.users].
  split; [done|]. split.
  { exists back. split; [by rewrite lookup_insert_eq|].
    intros x Hx. by apply Hback in Hx as [_ ?]. }
  split; [by subst d'; rewrite recycle_assignments|].
  subst d'. rewrite (proj1 (recycle_rest d now)).
  split; [by rewrite lookup_insert_eq|].
  intros v Hv. by rewrite lookup_insert_ne.
Qed.

Lemma assign_number_to_user_first_on_offer_witness :
  (Part000.assign_number_to_user Part000Spec.store_US
     1 "ann" "US::main" 0 5).2
  = (Some "15550000001", Part000.Assigned).
Proof.
  destruct (assign_number_to_user_first_on_offer Part000Spec.store_US
              1 "ann" "US::main" 0 5
              {| Part000.country := "US"; Part000.label := "main";
                 Part000.numbers := ["15550000001"; "15550000002"];
                 Part000.available := ["15550000001"; "15550000002"];
                 Part000.used := [] |}
              "15550000001" ["15550000002"]) as (H & _).
  - vm_compute. reflexivity.
  - reflexivity.
  - intros a Hin. by apply elem_of_nil in Hin.
  - exact H.
Defined.

(** [mark_assignment_used] always records the delivery.  When no lease
    in force names the number nothing else changes.  Otherwise exactly
    one assignment changes: the latest lease in force naming the number
    (the earlier one in the list among equally old ones) becomes
    ["used"], stamped with the clock reading; its holder's counter of
    used numbers goes up by one, and the number is in the used list of
    its pool, whose offer is untouched. *)
Theorem mark_assignment_used_latest (d : Part000.Data)
    (num otp panel message : string) (now : Z) :
  let d' := Part000.mark_assignment_used d num otp panel message now in
  Part000.otp_deliveries d'
    = (Part000.otp_deliveries d
         ++ [{| Part000.d_number := num; Part000.d_otp := otp;
                Part000.d_panel := panel; Part000.d_message := message;
                Part000.delivered_at := now |}])%list ∧
  ((∀ b, b ∈ Part000.assignments d → Part000.number b = num →
         ¬ Part000Spec.active b) →
   Part000.users d' = Part000.users d ∧
   Part000.number_pools d' = Part000.number_pools d ∧
   Part000.assignments d' = Part000.assignments d) ∧
  (∀ i a, Part000Spec.latest num (Part000.assignments d) i a →
     Part000.assignments d' = <[i := Part000.use now a]> (Part000.assignments d) ∧
     Part000.users d' !! Part000.user_id a
       = Part000.count_used <$> Part000.users d !! Part000.user_id a ∧
     (∀ v, v ≠ Part000.user_id a →
           Part000.users d' !! v = Part000.users d !! v) ∧
     (∀ pool, Part000.number_pools d !! Part000.pool_id a = Some pool →
        ∃ pool', Part000.number_pools d' !! Part000.pool_id a = Some pool' ∧
                 num ∈ Part000.used pool' ∧
                 Part000.available pool' = Part000.available pool) ∧
     (∀ pid, pid ≠ Part000.pool_id a →
             Part000.number_pools d' !! pid = Part000.number_pools d !! pid)).
Proof.
  intros d'. subst d'. unfold Part000.mark_assignment_used.
  destruct (Part000.latest_assigned num (Part000.assignments d))
    as [[i0 a0]|] eqn:Hl.
  - apply latest_assigned_Some in Hl.
    cbn [Part000.otp_deliveries Part000.users Part000.number_pools
         Part000.assignments].
    split; [done|]. split.
    { intros Hnone. exfalso. destruct Hl as (Hi & Hn & Ha & _).
      apply (Hnone a0); [by eapply list_elem_of_lookup_2|done..]. }
    intros i a Hia. destruct (latest_unique _ _ _ _ _ _ Hl Hia) as [-> ->].
    split; [done|]. split; [|split; [|split]].
    + destruct (Part000.users d !! Part000.user_id a) as [ue|] eqn:Hu.
      * by rewrite lookup_insert_eq.
      * by rewrite Hu.
    + intros v Hv.
      destruct (Part000.users d !! Part000.user_id a) as [ue|]; [|done].
      by rewrite lookup_insert_ne.
    + intros pool Hp. rewrite Hp.
      destruct (decide (num ∈ Part000.used pool)) as [Hin|Hnot].
      * by exists pool.
      * exists (Part000.retire num pool). rewrite lookup_insert_eq.
        split; [done|]. split; [|done]. simpl. apply elem_of_app. right. left.
    + intros pid Hpid.
      destruct (Part000.number_pools d !! Part000.pool_id a) as [pool|];
        [|done].
      destruct (decide (num ∈ Part000.used pool)); [done|].
      by rewrite lookup_insert_ne.
  - cbn [Part000.otp_deliveries Part000.users Part000.number_pools
         Part000.assignments].
    split; [done|]. split; [done|].
    intros i a (Hi & Hn & Ha & _). exfalso.
    apply (latest_assigned_None num _ Hl a);
      [by eapply list_elem_of_lookup_2|done..].
Qed.

(** [remove_number_list] answers [False] and changes nothing when the
    list does not exist.  Otherwise the pool is gone and so is every
    assignment of it, leases in force included, while the other pools,
    the other assignments (in their order) and the users' counters stay.
    The country code is taken without regard to case. *)
Theorem remove_number_list_drops_pool (d : Part000.Data)
    (country_code label : string) :
  let pid := Part000.get_pool_id country_code label in
  let r := Part000.remove_number_list d country_code label in
  (Part000.number_pools d !! pid = None → r = (d, false)) ∧
  (is_Some (Part000.number_pools d !! pid) →
   r.2 = true ∧
   Part000.number_pools r.1 !! pid = None ∧
   (∀ q, q ≠ pid →
         Part000.number_pools r.1 !! q = Part000.number_pools d !! q) ∧
   (∀ a, a ∈ Part000.assignments r.1 ↔
         a ∈ Part000.assignments d ∧ Part000.pool_id a ≠ pid) ∧
   Part000.assignments r.1 `sublist_of` Part000.assignments d ∧
   Part000.users r.1 = Part000.users d) ∧
  Part000.remove_number_list d (Part000.upper country_code) label = r.
Proof.
  intros pid r. subst pid r. unfold Part000.remove_number_list.
  split; [|split].
  - by intros ->.
  - intros [pool Hp]. rewrite Hp.
    cbn [fst snd Part000.number_pools Part000.assignments Part000.users].
    split; [done|]. split; [apply lookup_delete_eq|].
    split; [intros q Hq; by apply lookup_delete_ne|].
    split; [|split; [apply sublist_filter|done]].
    intros a. rewrite list_elem_of_filter. tauto.
  - unfold Part000.get_pool_id. by rewrite upper_idemp.
Qed.

(** Once an OTP was delivered for a leased number, no later sweep puts
    the number back on offer in its pool: the lease is ["used"], which
    the sweep never recycles, and in a consistent store no other lease
    in force names the number. *)
Theorem delivered_number_stays_off_offer (d : Part000.Data)
    (num otp panel message : string) (now : Z) (i : nat)
    (a : Part000.Assignment) (pool : Part000.Pool) :
  Part000Spec.consistent d →
  Part000Spec.latest num (Part000.assignments d) i a →
  Part000.number_pools d !! Part000.pool_id a = Some pool →
  let d1 := Part000.mark_assignment_used d num otp panel message now in
  ∀ later,
    ∃ pool',
      Part000.number_pools
        (Part000.recycle_expired_assignments d1 later).1
        !! Part000.pool_id a = Some pool' ∧
      (num ∉ Part000.available pool') ∧ num ∈ Part000.used pool'.
Proof.
  intros [H1 H2 H3 H4] Hl Hp d1 later.
  pose proof Hl as (Hi & Hn & Ha & _).
  assert (Part000.assignments d1 = <[i := Part000.use now a]> (Part000.assignments d)
          ∧ ∃ pool1, Part000.number_pools d1 !! Part000.pool_id a = Some pool1
                     ∧ num ∈ Part000.used pool1
                     ∧ Part000.available pool1 = Part000.available pool)
    as (Hasg & pool1 & Hp1 & Hused & Hav).
  { subst d1. unfold Part000.mark_assignment_used.
    destruct (Part000.latest_assigned num (Part000.assignments d))
      as [[i0 a0]|] eqn:Hl0.
    - apply latest_assigned_Some in Hl0.
      destruct (latest_unique _ _ _ _ _ _ Hl0 Hl) as [-> ->].
      cbn [Part000.number_pools Part000.assignments]. split; [done|].
      rewrite Hp. destruct (decide (num ∈ Part000.used pool)).
      + by exists pool.
      + exists (Part000.retire num pool). rewrite lookup_insert_eq.
        split; [done|]. split; [|done]. simpl. apply elem_of_app. right. left.
    - exfalso. apply (latest_assigned_None num _ Hl0 a);
        [by eapply list_elem_of_lookup_2|done..]. }
  rewrite recycle_pools, Hp1. cbn [fmap option_fmap option_map].
  eexists. split; [reflexivity|].
  cbn [Part000.available Part000.used Part000Spec.with_available].
  split; [|done].
  destruct (offer_after_app later (Part000.pool_id a)
              (Part000.assignments d1) (Part000.available pool1))
    as (back & -> & Hback).
  rewrite Hav. intros [Hin|Hin]%elem_of_app.
  - revert Hin. rewrite <- Hn.
    apply (H2 a); [by eapply list_elem_of_lookup_2|done..].
  - apply Hback in Hin
      as (_ & b & [j Hj]%list_elem_of_lookup_1 & [Hb _] & Hpb & Hnb).
    rewrite Hasg in Hj.
    apply list_lookup_insert_Some in Hj as [ (? & ? & _) | [Hne Hj] ].
    + subst b. done.
    + apply Hne.
      apply (nodup_key_index (λ a, (Part000.pool_id a, Part000.number a))
               (Part000.assignments d) i j a b H3 Hi Hj Ha Hb).
      by rewrite Hpb, Hnb, Hn.
Qed.

Lemma delivered_number_stays_off_offer_witness :
  ∃ pool',
    Part000.number_pools
      (Part000.recycle_expired_assignments
         (Part000.mark_assignment_used Part000Spec.store_leased
            "15550000001" "482913" "p" "m" 9) 9000000000).1
      !! "US::main" = Some pool' ∧
    ("15550000001" ∉ Part000.available pool') ∧
    "15550000001" ∈ Part000.used pool'.
Proof.
  apply (delivered_number_stays_off_offer Part000Spec.store_leased
           "15550000001" "482913" "p" "m" 9 0
           (Part000.new_assignment 1 "ann" "15550000001" "US::main" 5)
           {| Part000.country := "US"; Part000.label := "main";
              Part000.numbers := ["15550000001"; "15550000002"];
              Part000.available := ["15550000002"];
              Part000.used := [] |}).
  - apply assign_consistent, store_US_consistent.
  - unfold Part000Spec.latest. rewrite store_leased_assignments.
    split; [reflexivity|]. split; [reflexivity|]. split; [reflexivity|].
    intros [|j] b Hj _ _ Hne; [done|]. discriminate Hj.
  - vm_compute. reflexivity.
Defined.

(** [add_number_list] installs under the pool id a pool whose numbers
    are the distinct non-empty digit strings of the batch in ascending
    order, all of them on offer and none used; it returns the pool id
    and their count.  A pool that was there under this id is replaced,
    while the assignments are left as they are: a lease in force for a
    number of the batch then names a number on offer, so the store is
    no longer consistent. *)
Theorem add_number_list_resets_pool (d : Part000.Data)
    (country_code label : string) (nums : list string) :
  let pid := Part000.get_pool_id country_code label in
  let r := Part000.add_number_list d country_code label nums in
  r.2.1 = pid ∧
  (∃ L,
     Part000.number_pools r.1 !! pid
       = Some {| Part000.country := Part000.upper country_code;
                 Part000.label := label; Part000.numbers := L;
                 Part000.available := L; Part000.used := [] |} ∧
     NoDup L ∧ Sorted Part000.str_le L ∧
     (∀ x, x ∈ L ↔ x ≠ "" ∧ x ∈ Part000.clean <$> nums) ∧
     r.2.2 = Z.of_nat (length L) ∧
     (∀ a, a ∈ Part000.assignments d → Part000Spec.active a →
           Part000.pool_id a = pid → Part000.number a ∈ L →
           ¬ Part000Spec.consistent r.1)) ∧
  (∀ q, q ≠ pid →
        Part000.number_pools r.1 !! q = Part000.number_pools d !! q) ∧
  Part000.assignments r.1 = Part000.assignments d ∧
  Part000.users r.1 = Part000.users d.
Proof.
  intros pid r. subst pid r. unfold Part000.add_number_list.
  cbn [fst snd Part000.number_pools Part000.assignments Part000.users].
  split; [done|]. split.
  - eexists. split; [apply lookup_insert_eq|].
    split; [|split; [|split; [|split; [done|]]]].
    + rewrite merge_sort_Permutation. apply NoDup_remove_dups.
    + apply Sorted_merge_sort. intros x y. apply String.leb_total.
    + intros x. rewrite merge_sort_Permutation, elem_of_remove_dups,
        list_elem_of_filter. done.
    + intros a Hin Ha Hp Hn [_ H2 _ _].
      cbn [Part000.number_pools Part000.assignments] in H2.
      rewrite <- Hp in H2.
      exact (H2 a _ Hin Ha (lookup_insert_eq _ _ _) Hn).
  - split; [|done]. intros q Hq. by apply lookup_insert_ne.
Qed.

(** [mask_number] of the third variant works on the number with a plus
    sign put in front.  From ten characters on it shows the first five
    and the last four and stars the rest; from six to nine characters
    it shows the first four and the last two.  Below six characters it
    hides nothing: every character of the text is in the result, which
    for five characters is longer than the text. *)
Theorem part000_mask_number_shows (number_str : string) :
  let chars := ("+"%char :: list_ascii_of_string number_str) in
  let n := length chars in
  let out := list_ascii_of_string (Part000.mask_number number_str) in
  ((10 ≤ n)%nat →
   length out = n ∧
   (∀ k, (k < 5)%nat → out !! k = chars !! k) ∧
   (∀ k, (5 ≤ k < n - 4)%nat → out !! k = Some "*"%char) ∧
   (∀ k, (n - 4 ≤ k < n)%nat → out !! k = chars !! k)) ∧
  ((6 ≤ n < 10)%nat →
   length out = n ∧
   (∀ k, (k < 4)%nat → out !! k = chars !! k) ∧
   (∀ k, (4 ≤ k < n - 2)%nat → out !! k = Some "*"%char) ∧
   (∀ k, (n - 2 ≤ k < n)%nat → out !! k = chars !! k)) ∧
  ((n < 6)%nat →
   out = (firstn 4 chars ++ skipn (n - 2) chars)%list ∧
   (∀ c, c ∈ chars → c ∈ out) ∧
   (n = 5%nat → length out = 6%nat)).
Proof.
  intros chars n out. subst out. unfold Part000.mask_number.
  fold chars. fold n. rewrite list_ascii_of_string_of_list_ascii.
  split; [|split].
  - intros Hn. rewrite (proj2 (Nat.leb_le _ _) Hn).
    assert (length (firstn 5 chars) = 5%nat) as Hl
      by (rewrite length_take; lia).
    assert (length (repeat "*"%char (n - 5 - 4)) = (n - 9)%nat) as Hs
      by (rewrite repeat_length; lia).
    split; [|split; [|split]].
    + rewrite !length_app, Hl, Hs, length_drop. lia.
    + intros k Hk. rewrite lookup_app_l by lia. by apply lookup_take_lt.
    + intros k Hk. rewrite lookup_app_r by lia.
      rewrite lookup_app_l by lia. apply lookup_repeat. lia.
    + intros k Hk. rewrite lookup_app_r by lia.
      rewrite lookup_app_r by lia. rewrite lookup_drop. f_equal. lia.
  - intros Hn. rewrite (proj2 (Nat.leb_gt _ _) (proj2 Hn)).
    assert (length (firstn 4 chars) = 4%nat) as Hl
      by (rewrite length_take; lia).
    assert (length (repeat "*"%char (n - 4 - 2)) = (n - 6)%nat) as Hs
      by (rewrite repeat_length; lia).
    split; [|split; [|split]].
    + rewrite !length_app, Hl, Hs, length_drop. lia.
    + intros k Hk. rewrite lookup_app_l by lia. by apply lookup_take_lt.
    + intros k Hk. rewrite lookup_app_r by lia.
      rewrite lookup_app_l by lia. apply lookup_repeat. lia.
    + intros k Hk. rewrite lookup_app_r by lia.
      rewrite lookup_app_r by lia. rewrite lookup_drop. f_equal. lia.
  - intros Hn.
    assert ((10 <=? n)%nat = false) as -> by (apply Nat.leb_gt; lia).
    replace (n - 4 - 2)%nat with 0%nat by lia. cbn [repeat app].
    split; [done|]. split.
    + intros c [k Hk]%list_elem_of_lookup_1. apply elem_of_app.
      pose proof (lookup_lt_Some _ _ _ Hk) as Hlt. fold n in Hlt.
      destruct (decide (k < 4)%nat).
      * left. apply (list_elem_of_lookup_2 _ k).
        by rewrite lookup_take_lt by lia.
      * right. apply (list_elem_of_lookup_2 _ (k - (n - 2))).
        rewrite lookup_drop. rewrite <- Hk. f_equal. lia.
    + intros Hn5. rewrite length_app, length_take, length_drop.
      fold n. lia.
Qed.
